(** * YubiAge UI: the file-processing core of [yubiage_ui.py] and [ageyub_ui.py]

    A shallow embedding of the worker thread ([AgeWorker.run]), of the output
    resolver ([AgeWorker._find_unique_filename]) and of the drop handlers of
    the main window ([AgeGUI._on_files_dropped], [AgeGUI._get_files_recursive],
    [AgeGUI._start_process]), together with the properties the specification
    states about them.

    Conventions of the model.
    - A Python [str] is a list of code points; only code points below 256 are
      represented ([ascii]), which is where [str.lower], [str.strip] and the
      regular-expression class [\d] are modelled exactly.
    - [os.path] is [posixpath].
    - The file system is a finite map from path strings to nodes.  Two
      different strings are two different paths (no normalisation, no links).
    - The external [age] binary is a parameter of the development: a function
      of the previous invocations, the argument vector and the file system. *)

From Stdlib Require Import Ascii String QArith.
From stdpp Require Import gmap strings list pretty.

Close Scope Q_scope.
Local Open Scope list_scope.

(** ** Python strings *)

Abbreviation str := (list ascii).

(** A string literal of the source. *)
Definition py (s : string) : str := list_ascii_of_string s.

Module Str.

(** [str.lower] on code points below 256: the ASCII capitals and the
    Latin-1 capitals (U+00C0..U+00DE except U+00D7) move up by 32. *)
Definition lower_char (c : ascii) : ascii :=
  let n := nat_of_ascii c in
  if (65 <=? n)%nat && (n <=? 90)%nat then ascii_of_nat (n + 32)
  else if (192 <=? n)%nat && (n <=? 222)%nat && negb (n =? 215)%nat
       then ascii_of_nat (n + 32)
       else c.

Definition lower (s : str) : str := map lower_char s.

(** [s.endswith(suf)] and [s.startswith(pre)]. *)
Definition endswith (s suf : str) : bool := bool_decide (suf `suffix_of` s).
Definition startswith (s pre : str) : bool := bool_decide (pre `prefix_of` s).

(** [s.removesuffix(suf)]: case-sensitive. *)
Definition removesuffix (s suf : str) : str :=
  if negb (bool_decide (suf = [])) && endswith s suf
  then take (length s - length suf) s
  else s.

(** [str.isspace] for one code point below 256. *)
Definition isspace (c : ascii) : bool :=
  let n := nat_of_ascii c in
  ((9 <=? n)%nat && (n <=? 13)%nat) || ((28 <=? n)%nat && (n <=? 32)%nat)
  || (n =? 133)%nat || (n =? 160)%nat.

Fixpoint lstrip (s : str) : str :=
  match s with
  | c :: r => if isspace c then lstrip r else s
  | [] => []
  end.

Definition rstrip (s : str) : str := reverse (lstrip (reverse s)).

(** [s.strip()]. *)
Definition strip (s : str) : str := rstrip (lstrip s).

(** Truth value of a string: non-empty. *)
Definition truthy (s : str) : bool :=
  match s with [] => false | _ => true end.

(** [a or b] on strings. *)
Definition or_else (a b : str) : str := if truthy a then a else b.

Definition LF : ascii := "010"%char.
Definition CR : ascii := "013"%char.

(** Text-mode reading translates [\r\n] and [\r] to [\n]. *)
Fixpoint universal_newlines (s : str) : str :=
  match s with
  | [] => []
  | c :: r =>
      if bool_decide (c = CR) then
        match r with
        | c' :: r' =>
            if bool_decide (c' = LF) then LF :: universal_newlines r'
            else LF :: universal_newlines r
        | [] => [LF]
        end
      else c :: universal_newlines r
  end.

(** Iterating a text file: the lines, each with its terminator. *)
Fixpoint lines (s : str) : list str :=
  match s with
  | [] => []
  | c :: r =>
      if bool_decide (c = LF) then [LF] :: lines r
      else match lines r with
           | [] => [[c]]
           | l :: ls => (c :: l) :: ls
           end
  end.

(** [str(n)] for a natural number, and for an integer. *)
Definition of_nat (n : nat) : str := py (pretty n).
Definition of_Z (z : Z) : str := py (pretty z).

(** [c] is one of the digits the class [\d] accepts below 256. *)
Definition isdigit (c : ascii) : bool :=
  let n := nat_of_ascii c in (48 <=? n)%nat && (n <=? 57)%nat.

(** [int(ds)] for a string of digits. *)
Definition int (ds : str) : nat :=
  fold_left (fun acc c => 10 * acc + (nat_of_ascii c - 48)) ds 0.

End Str.

(** ** [posixpath] *)

Module Path.

Definition sep : ascii := "/"%char.
Definition extsep : ascii := "."%char.

(** [p.rfind(c) + 1]: the position after the last [c], 0 when absent. *)
Fixpoint rfind1 (c : ascii) (p : str) : nat :=
  match p with
  | [] => 0
  | x :: r =>
      match rfind1 c r with
      | 0 => if bool_decide (x = c) then 1 else 0
      | S k => S (S k)
      end
  end.

(** [os.path.basename]. *)
Definition basename (p : str) : str := drop (rfind1 sep p) p.

Definition all_sep (s : str) : bool := forallb (fun c => bool_decide (c = sep)) s.

Fixpoint lstrip_sep (s : str) : str :=
  match s with
  | c :: r => if bool_decide (c = sep) then lstrip_sep r else s
  | [] => []
  end.

Definition rstrip_sep (s : str) : str := reverse (lstrip_sep (reverse s)).

(** [os.path.dirname]. *)
Definition dirname (p : str) : str :=
  let head := take (rfind1 sep p) p in
  if Str.truthy head && negb (all_sep head) then rstrip_sep head else head.

(** [os.path.join(a, b)]. *)
Definition join (a b : str) : str :=
  if Str.startswith b [sep] then b
  else if negb (Str.truthy a) || Str.endswith a [sep] then a ++ b
       else a ++ sep :: b.

(** The loop of [genericpath._splitext] that skips leading dots: is there a
    character other than the dot in [p[from:dot]]? *)
Definition has_non_dot (s : str) : bool :=
  existsb (fun c => negb (bool_decide (c = extsep))) s.

(** [os.path.splitext]. *)
Definition splitext (p : str) : str * str :=
  let sepIndex := rfind1 sep p in          (* rfind(sep) + 1 *)
  let dotIndex1 := rfind1 extsep p in      (* rfind(extsep) + 1 *)
  if (sepIndex <? dotIndex1)%nat
     && has_non_dot (take (dotIndex1 - 1 - sepIndex) (drop sepIndex p))
  then (take (dotIndex1 - 1) p, drop (dotIndex1 - 1) p)
  else (p, []).

End Path.

(** ** The file system *)

Inductive node :=
  | File (data : str)   (* a regular file and its text *)
  | Dir.

Abbreviation FS := (gmap str node).

Module Fs.

(** [os.path.exists], [os.path.isfile], [os.path.isdir]. *)
Definition exists_ (fs : FS) (p : str) : bool :=
  match fs !! p with Some _ => true | None => false end.
Definition isfile (fs : FS) (p : str) : bool :=
  match fs !! p with Some (File _) => true | _ => false end.
Definition isdir (fs : FS) (p : str) : bool :=
  match fs !! p with Some Dir => true | _ => false end.

(** The entries below a directory [src] move with it on a rename. *)
Definition reroot (src dst : str) (fs : FS) : FS :=
  map_fold
    (fun k v acc =>
       if Str.startswith k (src ++ [Path.sep])
       then <[dst ++ drop (length src) k := v]> (delete k acc)
       else acc)
    fs fs.

End Fs.

(** ** Exceptions, signals and the state of a worker *)

(** The exception classes the worker can meet; all derive from [Exception].
    [IOError] and the file-system errors are [OSError]. *)
Inductive exn :=
  | ValueError (msg : str)
  | OSError (msg : str)
  | FileExistsError (msg : str)         (* an [OSError] *)
  | KeyError (msg : str)
  | IndexError (msg : str)
  | Exception (msg : str)
  | ZeroDivisionError (msg : str).

(** [str(e)]. *)
Definition exn_str (e : exn) : str :=
  match e with
  | ValueError m | OSError m | FileExistsError m | KeyError m | IndexError m
  | Exception m | ZeroDivisionError m => m
  end.

(** The Qt signals of [AgeWorker], in the order of emission. *)
Inductive Signal :=
  | SigError (file_name msg : str)
  | SigProgress (val : Q)
  | SigFinished (success total : nat) (needs_clear : bool).

Inductive Mode := Encrypt | Decrypt.

Global Instance Mode_eq_dec : EqDecision Mode.
Proof. solve_decision. Defined.

(** What the child process did. *)
Inductive ToolResult :=
  | SpawnError (msg : str)                            (* [Popen] raised *)
  | Exited (returncode : Z) (stderr : str) (fs' : FS).

(** The environment of a run: the process id, the working directory and the
    external binary, which sees the earlier invocations, its argument vector
    and the file system. *)
Record Env := {
  pid : nat;                                          (* [os.getpid()] *)
  cwd : str;                                          (* [os.getcwd()] *)
  age : list (list str) -> list str -> FS -> ToolResult;
  (* [tarfile]: the bytes of the archive of a directory, or the message of
     the exception raised while adding it *)
  tar_gz : FS -> str -> str + str
}.

(** The file system, the observable trace, and the variables of [run] that
    are assigned in the loop body and read in its [finally] clause. *)
Record St := mkSt {
  fs : FS;
  signals : list Signal;
  popen_calls : list (list str);
  success_count : nat;
  total_files : nat;
  temp_recipients_file : option str;
  temp_output_path : option str;
  temp_decrypt_path : option str;
  output_path_base : str;
  temp_files_to_cleanup : list str
}.

Definition set_fs (v : FS) (s : St) : St :=
  mkSt v (signals s) (popen_calls s) (success_count s) (total_files s)
       (temp_recipients_file s) (temp_output_path s) (temp_decrypt_path s)
       (output_path_base s) (temp_files_to_cleanup s).
Definition set_signals (v : list Signal) (s : St) : St :=
  mkSt (fs s) v (popen_calls s) (success_count s) (total_files s)
       (temp_recipients_file s) (temp_output_path s) (temp_decrypt_path s)
       (output_path_base s) (temp_files_to_cleanup s).
Definition set_popen_calls (v : list (list str)) (s : St) : St :=
  mkSt (fs s) (signals s) v (success_count s) (total_files s)
       (temp_recipients_file s) (temp_output_path s) (temp_decrypt_path s)
       (output_path_base s) (temp_files_to_cleanup s).
Definition set_success_count (v : nat) (s : St) : St :=
  mkSt (fs s) (signals s) (popen_calls s) v (total_files s)
       (temp_recipients_file s) (temp_output_path s) (temp_decrypt_path s)
       (output_path_base s) (temp_files_to_cleanup s).
Definition set_total_files (v : nat) (s : St) : St :=
  mkSt (fs s) (signals s) (popen_calls s) (success_count s) v
       (temp_recipients_file s) (temp_output_path s) (temp_decrypt_path s)
       (output_path_base s) (temp_files_to_cleanup s).
Definition set_temp_recipients_file (v : option str) (s : St) : St :=
  mkSt (fs s) (signals s) (popen_calls s) (success_count s) (total_files s)
       v (temp_output_path s) (temp_decrypt_path s)
       (output_path_base s) (temp_files_to_cleanup s).
Definition set_temp_output_path (v : option str) (s : St) : St :=
  mkSt (fs s) (signals s) (popen_calls s) (success_count s) (total_files s)
       (temp_recipients_file s) v (temp_decrypt_path s)
       (output_path_base s) (temp_files_to_cleanup s).
Definition set_temp_decrypt_path (v : option str) (s : St) : St :=
  mkSt (fs s) (signals s) (popen_calls s) (success_count s) (total_files s)
       (temp_recipients_file s) (temp_output_path s) v
       (output_path_base s) (temp_files_to_cleanup s).
Definition set_output_path_base (v : str) (s : St) : St :=
  mkSt (fs s) (signals s) (popen_calls s) (success_count s) (total_files s)
       (temp_recipients_file s) (temp_output_path s) (temp_decrypt_path s)
       v (temp_files_to_cleanup s).
Definition set_temp_files_to_cleanup (v : list str) (s : St) : St :=
  mkSt (fs s) (signals s) (popen_calls s) (success_count s) (total_files s)
       (temp_recipients_file s) (temp_output_path s) (temp_decrypt_path s)
       (output_path_base s) v.

(** A worker started on a file system, with nothing emitted yet. *)
Definition init_St (f : FS) : St :=
  mkSt f [] [] 0 0 None None None [] [].

(** ** The monad of the worker: state, and exceptions that keep the state *)

Definition M (A : Type) : Type := St -> (exn + A) * St.

Global Instance M_ret : MRet M := fun A x s => (inr x, s).
Global Instance M_bind : MBind M := fun A B f m s =>
  match m s with
  | (inr x, s') => f x s'
  | (inl e, s') => (inl e, s')
  end.

Definition raise {A} (e : exn) : M A := fun s => (inl e, s).
Definition gets {A} (f : St -> A) : M A := fun s => (inr (f s), s).
Definition modify (f : St -> St) : M unit := fun s => (inr tt, f s).

(** [try: m / except Exception as e: h e]. *)
Definition try_except {A} (m : M A) (h : exn -> M A) : M A := fun s =>
  match m s with
  | (inr x, s') => (inr x, s')
  | (inl e, s') => h e s'
  end.

(** [try: m / finally: fin]: the clause runs on both exits; an exception it
    raises itself replaces the pending one. *)
Definition try_finally {A} (m : M A) (fin : M unit) : M A := fun s =>
  match m s with
  | (r, s') =>
      match fin s' with
      | (inr _, s'') => (r, s'')
      | (inl e, s'') => (inl e, s'')
      end
  end.

(** [try: m / except: pass]. *)
Definition try_pass (m : M unit) : M unit := try_except m (fun _ => mret tt).

(** [for i, x in enumerate(l): body i x], counting from [i]. *)
Fixpoint for_enumerate {A} (body : nat -> A -> M unit) (i : nat) (l : list A)
  : M unit :=
  match l with
  | [] => mret tt
  | x :: r => body i x ;; for_enumerate body (S i) r
  end.

(** [for x in l: body x]. *)
Definition for_each {A} (body : A -> M unit) (l : list A) : M unit :=
  for_enumerate (fun _ => body) 0 l.

Definition emit (sg : Signal) : M unit :=
  modify (fun s => set_signals (signals s ++ [sg]) s).

(** The message of an [OSError] the operating system raises for a path. *)
Definition os_error (what : string) (p : str) : exn :=
  OSError (py what ++ py ": '" ++ p ++ py "'").

(** [os.remove]. *)
Definition os_remove (p : str) : M unit := fun s =>
  match fs s !! p with
  | Some (File _) => (inr tt, set_fs (delete p (fs s)) s)
  | Some Dir => (inl (os_error "[Errno 21] Is a directory" p), s)
  | None => (inl (os_error "[Errno 2] No such file or directory" p), s)
  end.

(** [os.rename] (POSIX): a file replaces a file; a directory moves with what
    is below it, onto a free name. *)
Definition os_rename (src dst : str) : M unit := fun s =>
  match fs s !! src with
  | None => (inl (os_error "[Errno 2] No such file or directory" src), s)
  | Some (File d) =>
      match fs s !! dst with
      | Some Dir => (inl (os_error "[Errno 21] Is a directory" dst), s)
      | _ => (inr tt, set_fs (<[dst := File d]> (delete src (fs s))) s)
      end
  | Some Dir =>
      match fs s !! dst with
      | Some (File _) => (inl (os_error "[Errno 20] Not a directory" dst), s)
      | Some Dir =>
          if bool_decide (src = dst) then (inr tt, s)
          else (inl (os_error "[Errno 39] Directory not empty" dst), s)
      | None =>
          (inr tt,
           set_fs (Fs.reroot src dst (<[dst := Dir]> (delete src (fs s)))) s)
      end
  end.

(** [open(p, 'w')] followed by the buffered text being written at close. *)
Definition open_w (p : str) : M unit := fun s =>
  match fs s !! p with
  | Some Dir => (inl (os_error "[Errno 21] Is a directory" p), s)
  | _ => (inr tt, set_fs (<[p := File []]> (fs s)) s)
  end.

Definition flush (p : str) (text : str) : M unit := fun s =>
  match fs s !! p with
  | Some (File _) => (inr tt, set_fs (<[p := File text]> (fs s)) s)
  | _ => (inr tt, s)
  end.

(** [os.path.getsize], used for its truth value only. *)
Definition getsize (f : FS) (p : str) : nat :=
  match f !! p with Some (File d) => length d | _ => 0 end.

(** [subprocess.Popen(cmd, ...)] with [communicate()]: the call is recorded,
    the child runs to completion and leaves its file system. *)
Definition popen (E : Env) (cmd : list str) : M (Z * str) := fun s =>
  let s1 := set_popen_calls (popen_calls s ++ [cmd]) s in
  match age E (popen_calls s) cmd (fs s) with
  | SpawnError m => (inl (OSError m), s1)
  | Exited rc err f' => (inr (rc, err), set_fs f' s1)
  end.

(** ** Key material *)

(** One recipients file: the lines that are no comments, joined and
    stripped. *)
Definition key_content (data : str) : str :=
  Str.strip
    (concat
       (filter (fun line => negb (Str.startswith (Str.strip line) (py "#")))
               (Str.lines (Str.universal_newlines data)))).

(** The text written to the temporary recipients file, and the exception that
    interrupts the loop over the key paths, if any. *)
Fixpoint recipients_text (f : FS) (keys : list str) : str * option exn :=
  match keys with
  | [] => ([], None)
  | key_path :: r =>
      match f !! key_path with
      | None => recipients_text f r                      (* [continue] *)
      | Some Dir =>
          ([], Some (os_error "[Errno 21] Is a directory" key_path))
      | Some (File data) =>
          let content := key_content data in
          let '(rest, e) := recipients_text f r in
          ((if Str.truthy content then content ++ [Str.LF] else []) ++ rest, e)
      end
  end.

(** [with open(temp_recipients_file, 'w') as f: for key_path in ...]. *)
Definition write_recipients (p : str) (keys : list str) : M unit :=
  open_w p ;;
  f ← gets fs ;
  let '(text, e) := recipients_text f keys in
  flush p text ;;
  match e with
  | Some e => raise e
  | None => mret tt
  end.

(** ** Directory listing *)

(** [os.listdir(top)]: the names [n] for which [join(top, n)] is a path. *)
Definition listdir (f : FS) (top : str) : list str :=
  let pre := if Str.endswith top [Path.sep] then top else top ++ [Path.sep] in
  omap (fun k =>
          if Str.startswith k pre then
            let n := drop (length pre) k in
            if Str.truthy n && negb (bool_decide (Path.sep ∈ n)) then Some n
            else None
          else None)
       (map fst (map_to_list f)).

(** [os.walk(top)], top-down: the triples [(root, dirs, files)]. *)
Fixpoint os_walk (fuel : nat) (f : FS) (top : str)
  : list (str * list str * list str) :=
  match fuel with
  | 0 => []
  | S k =>
      if Fs.isdir f top then
        let names := listdir f top in
        let dirs := List.filter (fun n => Fs.isdir f (Path.join top n)) names in
        let nondirs :=
          List.filter (fun n => negb (Fs.isdir f (Path.join top n))) names in
        (top, dirs, nondirs)
          :: flat_map (fun d => os_walk k f (Path.join top d)) dirs
      else []
  end.

(** ** The main window *)

(** What outlives a worker: the file system and the trace. *)
Record World := mkWorld {
  w_fs : FS;
  w_signals : list Signal;
  w_popen : list (list str)
}.

(** A new [AgeWorker] on a world, and the world it leaves. *)
Definition worker_init (w : World) : St :=
  mkSt (w_fs w) (w_signals w) (w_popen w) 0 0 None None None [] [].
Definition worker_world (s : St) : World :=
  mkWorld (fs s) (signals s) (popen_calls s).

(** [SingleDropTarget.mode] with the message shown. *)
Inductive DropTarget :=
  | TFile
  | TKey (message : str)
  | TFinished (message : str)
  | TError (message : str).

(** The state variables of [AgeGUI]. *)
Record GUI := mkGUI {
  keys : list str;
  recipients_keys : list str;
  files_to_process : list str;
  current_action_mode : option Mode;
  _key_pending : bool;
  drop_target : DropTarget;
  status_label : str;
  worker : option (Mode * list str * list str)
}.

Definition STR_STATUS_ERROR_MIXED : str := py "Terminated.".
Definition STR_ERROR_DECRYPT_MULTI : str := py "One file at a time (no folders)".
Definition STR_ERROR_INVALID_KEY_PATH : str := py "Invalid key path.".
Definition STR_STATUS_ERROR_KEY_LOAD : str := py "Key load failed.".
Definition STR_STATUS_ERROR_FILE_KEY_MISSING : str := py "File/Key missing.".
Definition STR_STATUS_ENCRYPT_MODE : str := py "Encrypt Mode".
Definition STR_STATUS_DECRYPT_MODE : str := py "Decrypt Mode".
Definition STR_MODE_ENCRYPT_DISPLAY : str := py "Encryption".
Definition STR_MODE_DECRYPT_DISPLAY : str := py "Decryption".

Definition status_ready (n : str) : str := py "Ready. Pub Keys: " ++ n ++ py ".".
Definition status_loaded_keys (n : nat) : str :=
  py "Loaded " ++ Str.of_nat n ++ py " keys.".
Definition status_start_process (m : str) : str :=
  py "Executing (" ++ m ++ py ")...".
Definition status_finished_keys (n : nat) : str :=
  py "Finished. Keys: " ++ Str.of_nat n ++ py ".".
Definition error_files_fail (n : nat) : str :=
  py "Failed! " ++ Str.of_nat n ++ py " files failed.".

Definition mode_text (m : Mode) : str :=
  match m with Encrypt => py "encrypt" | Decrypt => py "decrypt" end.

Definition show_error (message status : str) (g : GUI) : GUI :=
  mkGUI (keys g) (recipients_keys g) (files_to_process g)
        (current_action_mode g) (_key_pending g) (TError message) status
        (worker g).

(** [AgeGUI._reset_state_ui(clear_keys=False)]. *)
Definition _reset_state_ui (g : GUI) : GUI :=
  mkGUI [] (recipients_keys g) [] None false TFile
        (status_ready (Str.of_nat (length (recipients_keys g)))) (worker g).

(** [AgeGUI._on_finished]. *)
Definition _on_finished (success total : nat) (g : GUI) : GUI :=
  if (total =? 0)%nat then
    _reset_state_ui (show_error STR_STATUS_ERROR_MIXED STR_STATUS_ERROR_MIXED g)
  else if (success =? total)%nat then
    let '(display, key_count) :=
      match current_action_mode g with
      | Some Encrypt => (STR_MODE_ENCRYPT_DISPLAY, length (recipients_keys g))
      | _ => (STR_MODE_DECRYPT_DISPLAY, 0)
      end in
    let decrypting := bool_decide (current_action_mode g = Some Decrypt) in
    mkGUI (if decrypting then [] else keys g) (recipients_keys g)
          (if decrypting then [] else files_to_process g)
          (current_action_mode g) (_key_pending g) (TFinished display)
          (status_finished_keys key_count) (worker g)
  else
    _reset_state_ui
      (show_error (error_files_fail (total - success)) STR_STATUS_ERROR_MIXED g).

(** The last [finished] signal of a trace. *)
Fixpoint last_finished (l : list Signal) : option (nat * nat) :=
  match l with
  | [] => None
  | sg :: r =>
      match last_finished r with
      | Some x => Some x
      | None => match sg with
                | SigFinished s t _ => Some (s, t)
                | _ => None
                end
      end
  end.

(** [AgeGUI._start_process], for a worker whose [run] is [run]: the window
    refuses to start without files or keys; otherwise the worker runs to its
    end and [finished] reaches [_on_finished].  Every caller has set
    [current_action_mode]. *)
Definition _start_process
           (run : Mode -> list str -> list str -> M unit)
           (gw : GUI * World) : GUI * World :=
  let '(g, w) := gw in
  match files_to_process g, keys g, current_action_mode g with
  | _ :: _, _ :: _, Some m =>
      let g1 :=
        mkGUI (keys g) (recipients_keys g) (files_to_process g)
              (current_action_mode g) (_key_pending g) (drop_target g)
              (status_start_process (mode_text m))
              (Some (m, files_to_process g, keys g)) in
      let s := snd (run m (keys g) (files_to_process g) (worker_init w)) in
      let g2 := match last_finished (drop (length (w_signals w)) (signals s)) with
                | Some (success, total) => _on_finished success total g1
                | None => g1
                end in
      (g2, worker_world s)
  | _, _, _ =>
      (_reset_state_ui
         (show_error STR_STATUS_ERROR_FILE_KEY_MISSING (status_label g) g), w)
  end.

(** The signal an item reports: its error, if any. *)
Definition item_report (name : str) (r : exn + unit) : list Signal :=
  match r with
  | inl e => [SigError name (exn_str e)]
  | inr _ => []
  end.

Definition ok_count (r : exn + unit) : nat :=
  match r with inl _ => 0 | inr _ => 1 end.

(** The progress values of a trace, in the order of emission. *)
Definition progress_values (l : list Signal) : list Q :=
  omap (fun sg => match sg with SigProgress q => Some q | _ => None end) l.

(** The errors of a trace. *)
Definition error_signals (l : list Signal) : list (str * str) :=
  omap (fun sg => match sg with SigError n m => Some (n, m) | _ => None end) l.

(** [k / n] as a rational number. *)
Definition ratio (k n : nat) : Q := Qmake (Z.of_nat k) (Pos.of_nat n).

(** ** [yubiage_ui.py] *)

Module Yubiage.

(** The longest run of digits at the front of [r], and what follows. *)
Fixpoint span_digits (r : str) : str * str :=
  match r with
  | c :: r' =>
      if Str.isdigit c
      then let '(ds, rest) := span_digits r' in (c :: ds, rest)
      else ([], r)
  | [] => ([], [])
  end.

(** [re.search(r' \((\d+)\)$', name)]: [match.start()] and [match.group(1)].
    [$] also matches before a newline that ends the string. *)
Definition re_search (name : str) : option (nat * str) :=
  let t := if Str.endswith name [Str.LF]
           then take (length name - 1) name else name in
  match reverse t with
  | c :: r =>
      if bool_decide (c = ")"%char) then
        let '(ds, r') := span_digits r in
        match ds, r' with
        | _ :: _, o :: sp :: r'' =>
            if bool_decide (o = "("%char) && bool_decide (sp = " "%char)
            then Some (length r'', reverse ds)
            else None
        | _, _ => None
        end
      else None
  | [] => None
  end.

(** [f"{base_name_without_suffix} ({start_num}){ext}"], joined to the
    directory. *)
Definition candidate (directory base ext : str) (start_num : nat) : str :=
  Path.join directory (base ++ py " (" ++ Str.of_nat start_num ++ py ")" ++ ext).

(** The [while True] loop of [_find_unique_filename], with fuel. *)
Fixpoint find_loop (fuel : nat) (f : FS) (directory base ext : str)
         (start_num : nat) : option str :=
  match fuel with
  | 0 => None
  | S k =>
      let new_path := candidate directory base ext start_num in
      if negb (Fs.exists_ f new_path) then Some new_path
      else find_loop k f directory base ext (S start_num)
  end.

(** The base name and the first number tried for [name]. *)
Definition numbering (name : str) : str * nat :=
  match re_search name with
  | Some (start, digits) => (take start name, Str.int digits + 1)
  | None => (name, 1)
  end.

(** [AgeWorker._find_unique_filename]; the fuel is one more than the number
    of paths of the file system. *)
Definition _find_unique_filename (f : FS) (path : str) : option str :=
  if negb (Fs.exists_ f path) then Some path
  else
    let directory := Path.dirname path in
    let filename := Path.basename path in
    let '(name, ext) := Path.splitext filename in
    let '(base_name_without_suffix, start_num) := numbering name in
    find_loop (S (size f)) f directory base_name_without_suffix ext start_num.

(** The natural output name of a decryption (line 217). *)
Definition decrypt_output_base (input_path : str) : str :=
  if Str.endswith (Str.lower input_path) (py ".age")
  then Str.removesuffix input_path (py ".age")
  else input_path ++ py ".decrypted".

Definition temp_recipients_name (E : Env) (input_path : str) : str :=
  Path.join (Str.or_else (Path.dirname input_path) (cwd E))
            (py ".temp_recipients_" ++ Str.of_nat (pid E) ++ py ".txt").

Definition temp_decrypt_name (E : Env) (base : str) : str :=
  base ++ py ".temp_decrypted_" ++ Str.of_nat (pid E).

Section Worker.

Context (E : Env) (mode : Mode) (recipients_keys : list str).

(** "Build command" for an encryption. *)
Definition build_encrypt (input_path : str) : M (list str) :=
  let out := input_path ++ py ".age" in
  modify (set_temp_output_path (Some out)) ;;
  match recipients_keys with
  | [] => raise (ValueError (py "No recipients."))
  | _ :: _ =>
      let trf := temp_recipients_name E input_path in
      modify (set_temp_recipients_file (Some trf)) ;;
      write_recipients trf recipients_keys ;;
      f ← gets fs ;
      if negb (Fs.exists_ f trf) || (getsize f trf =? 0)%nat
      then raise (ValueError (py "Recipient key file is empty or invalid."))
      else mret [py "age"; py "-a"; py "-o"; out; py "-R"; trf; input_path]
  end.

(** "Build command" for a decryption. *)
Definition build_decrypt (input_path : str) : M (list str) :=
  let base := decrypt_output_base input_path in
  modify (set_output_path_base base) ;;
  let tdp := temp_decrypt_name E base in
  modify (set_temp_decrypt_path (Some tdp)) ;;
  match recipients_keys with
  | [] => raise (ValueError (py "No identity."))
  | _ :: _ =>
      mret ([py "age"; py "-d"; py "-o"; tdp]
              ++ flat_map (fun key_path => [py "-i"; key_path]) recipients_keys
              ++ [input_path])
  end.

(** The post-processing of a decryption that returned 0. *)
Definition post_decrypt (input_path : str) : M unit :=
  if Str.endswith (Str.lower input_path) (py ".age") then
    tdp ← gets (fun s => default [] (temp_decrypt_path s)) ;
    f ← gets fs ;
    if Fs.exists_ f tdp then
      expected_output_path ← gets output_path_base ;
      match _find_unique_filename f expected_output_path with
      | Some final_output_path => os_rename tdp final_output_path
      | None => raise (Exception (py "no free name"))   (* not reached *)
      end
    else
      raise (OSError (py "Age returned success, but output file not found: "
                        ++ tdp))
  else mret tt.

(** The body of the inner [try]. *)
Definition item_body (input_path : str) : M unit :=
  cmd ← (match mode with
         | Encrypt => build_encrypt input_path
         | Decrypt => build_decrypt input_path
         end) ;
  '(return_code, stderr_output) ← popen E cmd ;
  if bool_decide (return_code = 0%Z) then
    (match mode with
     | Encrypt => mret tt
     | Decrypt => post_decrypt input_path
     end) ;;
    modify (fun s => set_success_count (success_count s + 1) s)
  else
    let error_msg := Str.strip stderr_output in
    let detail_msg :=
      if Str.truthy error_msg then error_msg
      else py "Failed, exit code: " ++ Str.of_Z return_code in
    raise (Exception detail_msg).

(** [(i + 1) / total_files]. *)
Definition progress_value (i : nat) : M Q :=
  n ← gets total_files ;
  match n with
  | 0 => raise (ZeroDivisionError (py "division by zero"))
  | S _ => mret (Qmake (Z.of_nat (i + 1)) (Pos.of_nat n))
  end.

(** The two clean-ups of the inner [finally]. *)
Definition remove_temps : M unit :=
  trf ← gets temp_recipients_file ;
  f ← gets fs ;
  (match trf with
   | Some p =>
       if Str.truthy p && Fs.exists_ f p then try_pass (os_remove p)
       else mret tt
   | None => mret tt
   end) ;;
  tdp ← gets temp_decrypt_path ;
  f ← gets fs ;
  match tdp with
  | Some p =>
      if bool_decide (mode = Decrypt) && Str.truthy p && Fs.exists_ f p
      then try_pass (os_remove p)
      else mret tt
  | None => mret tt
  end.

(** The inner [finally]. *)
Definition item_finally (i : nat) : M unit :=
  progress ← progress_value i ;
  emit (SigProgress progress) ;;
  remove_temps.

(** One turn of the loop over [enumerate(processed_files)]. *)
Definition reset_locals (s : St) : St :=
  set_output_path_base []
    (set_temp_decrypt_path None
       (set_temp_output_path None (set_temp_recipients_file None s))).

Definition item_step (i : nat) (input_path : str) : M unit :=
  let current_file_name := Path.basename input_path in
  modify reset_locals ;;
  try_finally
    (try_except (item_body input_path)
                (fun e => emit (SigError current_file_name (exn_str e))))
    (item_finally i).

(** What an item does, seen from the state before it. *)
Definition item_outcome (p : str) (s : St) : exn + unit :=
fst (item_body p (reset_locals s)).

(** The states between the turns of the loop: each item starts from the
state its predecessor left, whatever the outcome. *)
Fixpoint run_items (i : nat) (files : list str) (s : St) : St :=
match files with
| [] => s
| p :: r => run_items (S i) r (snd (item_step i p s))
end.

(** The state before item [k] of a batch entered in state [s]. *)
Definition state_before (files : list str) (k : nat) (s : St) : St :=
run_items 0 (take k files) s.

(** The state in which [run] enters its loop. *)
Definition run_start (files : list str) (s : St) : St :=
set_total_files (length files) (set_success_count 0 s).

(** The outer [try] of [run]. *)
Definition run_loop (processed_files : list str) : M unit :=
  for_enumerate item_step 0 processed_files.

(** [AgeWorker.run]. *)
Definition run (files_to_process : list str) : M unit :=
  modify (set_success_count 0) ;;
  let processed_files := files_to_process in
  modify (set_total_files (length processed_files)) ;;
  let needs_clear := bool_decide (mode = Encrypt) in
  try_finally
    (try_except (run_loop processed_files)
                (fun e =>
                   emit (SigError (py "Pre-process")
                                  (py "Pre-process Error: " ++ exn_str e)) ;;
                   modify (set_total_files 0)))
    (s ← gets success_count ;
     t ← gets total_files ;
     emit (SigFinished s t needs_clear)).

End Worker.

(** [AgeGUI._get_files_recursive]. *)
Definition _get_files_recursive (f : FS) (paths : list str) : list str :=
  flat_map
    (fun path =>
       if Str.startswith (Path.basename path) (py ".") then []
       else if Fs.isfile f path then [path]
       else if Fs.isdir f path then
         flat_map
           (fun '(root, _, files) =>
              map (Path.join root)
                  (List.filter (fun file_name =>
                                  negb (Str.startswith file_name (py ".")))
                               files))
           (os_walk (S (size f)) f path)
       else [])
    paths.

Definition is_age (p : str) : bool := Str.endswith (Str.lower p) (py ".age").

(** The last part of [_on_files_dropped]: ask for keys or start. *)
Definition proceed (E : Env) (gw : GUI * World) : GUI * World :=
  let '(g, w) := gw in
  let total_files := length (files_to_process g) in
  match current_action_mode g with
  | Some Decrypt =>
      (mkGUI (keys g) (recipients_keys g) (files_to_process g)
             (current_action_mode g) true
             (TKey (py "Identity key needed! After drop: Check console window"))
             STR_STATUS_DECRYPT_MODE (worker g), w)
  | _ =>
      match recipients_keys g with
      | [] =>
          (mkGUI (keys g) (recipients_keys g) (files_to_process g)
                 (current_action_mode g) true
                 (TKey (py "Recipient key needed! (" ++ Str.of_nat total_files
                           ++ py " files)"))
                 STR_STATUS_ENCRYPT_MODE (worker g), w)
      | _ :: _ =>
          _start_process (run E)
            (mkGUI (recipients_keys g) (recipients_keys g)
                   (files_to_process g) (current_action_mode g)
                   (_key_pending g) (drop_target g)
                   (status_loaded_keys (length (recipients_keys g)))
                   (worker g), w)
      end
  end.

(** [AgeGUI._on_files_dropped]; [paths[0]] on an empty list raises. *)
Definition _on_files_dropped (E : Env) (paths : list str) (gw : GUI * World)
  : exn + GUI * World :=
  let '(g, w) := gw in
  if _key_pending g then inr gw
  else
    let has_age_files := existsb is_age paths in
    let is_decrypt_mode :=
      has_age_files
      || forallb (fun p => Fs.isfile (w_fs w) p && is_age p) paths in
    if is_decrypt_mode then
      match paths with
      | [] => inl (IndexError (py "list index out of range"))
      | p0 :: _ =>
          if (1 <? length paths)%nat || Fs.isdir (w_fs w) p0 then
            inr (show_error STR_ERROR_DECRYPT_MULTI STR_STATUS_ERROR_MIXED g, w)
          else if negb (is_age p0) || negb (Fs.isfile (w_fs w) p0) then
            inr (show_error (py "The file must be a single .age file.")
                            STR_STATUS_ERROR_MIXED g, w)
          else
            inr (proceed E
                   (mkGUI (keys g) (recipients_keys g) paths (Some Decrypt)
                          (_key_pending g) (drop_target g) (status_label g)
                          (worker g), w))
      end
    else
      let collected_files := _get_files_recursive (w_fs w) paths in
      match collected_files with
      | [] =>
          inr (show_error (py "No valid files found for encryption.")
                          STR_STATUS_ERROR_MIXED g, w)
      | _ :: _ =>
          if existsb is_age collected_files then
            inr (show_error (py "Do not mix .age file and non-.age file.")
                            STR_STATUS_ERROR_MIXED g, w)
          else
            inr (proceed E
                   (mkGUI (keys g) (recipients_keys g) collected_files
                          (Some Encrypt) (_key_pending g) (drop_target g)
                          (status_label g) (worker g), w))
      end.

(** [AgeGUI._on_keys_dropped_in_key_mode]. *)
Definition _on_keys_dropped_in_key_mode (E : Env) (paths : list str)
           (gw : GUI * World) : GUI * World :=
  let '(g, w) := gw in
  if negb (_key_pending g) then gw
  else
    let valid_key_paths :=
      List.filter (fun p => Fs.exists_ (w_fs w) p && Fs.isfile (w_fs w) p)
                  paths in
    match valid_key_paths with
    | [] => (show_error STR_ERROR_INVALID_KEY_PATH STR_STATUS_ERROR_KEY_LOAD g, w)
    | _ :: _ =>
        let rk := match current_action_mode g with
                  | Some Encrypt => valid_key_paths
                  | _ => recipients_keys g
                  end in
        _start_process (run E)
          (mkGUI valid_key_paths rk (files_to_process g)
                 (current_action_mode g) false (drop_target g)
                 (status_loaded_keys (length valid_key_paths)) (worker g), w)
    end.

End Yubiage.

(** ** [ageyub_ui.py] *)

Module Ageyub.

(** [os.mkdir]. *)
Definition os_mkdir (p : str) : M unit := fun s =>
  match fs s !! p with
  | Some _ => (inl (FileExistsError (py "[Errno 17] File exists: '" ++ p ++ py "'")), s)
  | None => (inr tt, set_fs (<[p := Dir]> (fs s)) s)
  end.

(** [os.makedirs(name, exist_ok=True)]; the recursion climbs to shorter
    heads, the fuel bounds it by the length of the name. *)
Fixpoint os_makedirs (fuel : nat) (name : str) : M unit :=
  match fuel with
  | 0 => mret tt
  | S k =>
      let head0 := Path.dirname name in
      let tail0 := Path.basename name in
      let '(head, tail) :=
        if Str.truthy tail0 then (head0, tail0)
        else (Path.dirname head0, Path.basename head0) in
      f ← gets fs ;
      stop ← (if Str.truthy head && Str.truthy tail && negb (Fs.exists_ f head)
              then
                try_except (os_makedirs k head)
                  (fun e => match e with
                            | FileExistsError _ => mret tt
                            | _ => raise e
                            end) ;;
                mret (bool_decide (tail = py "."))
              else mret false) ;
      if stop : bool then mret tt
      else
        try_except (os_mkdir name)
          (fun e =>
             f ← gets fs ;
             if Fs.isdir f name then mret tt else raise e)
  end.

Definition tar_name (E : Env) (dir_path : str) : str :=
  Path.join (Str.or_else (Path.dirname dir_path) (cwd E))
            (Path.basename dir_path ++ py "_temp_" ++ Str.of_nat (pid E)
               ++ py ".tar.gz").

(** [AgeWorker._create_tar_archive]. *)
Definition _create_tar_archive (E : Env) (dir_path : str) : M str :=
  let dir_name := Path.basename dir_path in
  let tar_path := tar_name E dir_path in
  try_except
    (open_w tar_path ;;
     f ← gets fs ;
     match tar_gz E f dir_path with
     | inr data =>
         flush tar_path data ;;
         modify (fun s => set_temp_files_to_cleanup
                            (temp_files_to_cleanup s ++ [tar_path]) s) ;;
         mret tar_path
     | inl msg => raise (OSError msg)
     end)
    (fun e =>
       raise (OSError (py "Failed to create TAR archive for " ++ dir_name
                         ++ py ": " ++ exn_str e))).

Definition decrypt_output_base (input_path : str) : str :=
  if Str.endswith (Str.lower input_path) (py ".age")
  then Str.removesuffix input_path (py ".age")
  else input_path ++ py ".decrypted".

Definition temp_recipients_name (E : Env) (input_path : str) : str :=
  Path.join (Str.or_else (Path.dirname input_path) (cwd E))
            (py ".temp_recipients_" ++ Str.of_nat (pid E) ++ py ".txt").

Definition temp_decrypt_name (E : Env) (base : str) : str :=
  base ++ py ".temp_decrypted_" ++ Str.of_nat (pid E).

Section Worker.

Context (E : Env) (mode : Mode) (recipients_keys : list str).

(** "Pre-processing": the directories of an encryption are archived. *)
Fixpoint archive_loop (original_files : list str)
         (processed_files : list str) (file_map : gmap str str)
  : M (list str * gmap str str) :=
  match original_files with
  | [] => mret (processed_files, file_map)
  | original_path :: r =>
      f ← gets fs ;
      if Fs.isdir f original_path then
        emit (SigProgress (Qmake 1 100)) ;;
        tar_file_path ← _create_tar_archive E original_path ;
        archive_loop r (processed_files ++ [tar_file_path])
                     (<[tar_file_path := original_path]> file_map)
      else
        archive_loop r (processed_files ++ [original_path])
                     (<[original_path := original_path]> file_map)
  end.

Definition preprocess (original_files : list str)
  : M (list str * gmap str str) :=
  match mode with
  | Encrypt => archive_loop original_files [] ∅
  | Decrypt =>
      mret (original_files,
            foldl (fun m p => <[p := p]> m) ∅ original_files)
  end.

Definition build_encrypt (input_path : str) : M (list str) :=
  let out := input_path ++ py ".age" in
  modify (set_temp_output_path (Some out)) ;;
  match recipients_keys with
  | [] => raise (ValueError (py "No recipients."))
  | _ :: _ =>
      let trf := temp_recipients_name E input_path in
      modify (set_temp_recipients_file (Some trf)) ;;
      write_recipients trf recipients_keys ;;
      f ← gets fs ;
      if negb (Fs.exists_ f trf) || (getsize f trf =? 0)%nat
      then raise (ValueError (py "Recipient key file is empty or invalid."))
      else mret [py "age"; py "-a"; py "-o"; out; py "-R"; trf; input_path]
  end.

Definition build_decrypt (input_path : str) : M (list str) :=
  let base := decrypt_output_base input_path in
  modify (set_output_path_base base) ;;
  let tdp := temp_decrypt_name E base in
  modify (set_temp_decrypt_path (Some tdp)) ;;
  match recipients_keys with
  | [] => raise (ValueError (py "No identity."))
  | _ :: _ =>
      mret ([py "age"; py "-d"; py "-o"; tdp]
              ++ flat_map (fun key_path => [py "-i"; key_path]) recipients_keys
              ++ [input_path])
  end.

(** Post-processing of an encryption that returned 0. *)
Definition post_encrypt (original_source_path : str) : M unit :=
  f ← gets fs ;
  if Fs.isdir f original_source_path then
    let final_output_path := original_source_path ++ py ".Dir.age" in
    out ← gets (fun s => default [] (temp_output_path s)) ;
    if Fs.exists_ f out then
      let parent := Str.or_else (Path.dirname final_output_path) (py ".") in
      os_makedirs (S (length parent)) parent ;;
      os_rename out final_output_path
    else mret tt
  else mret tt.

(** Post-processing of a decryption that returned 0. *)
Definition post_decrypt (input_path : str) : M unit :=
  if Str.endswith (Str.lower input_path) (py ".dir.age") then
    base ← gets output_path_base ;
    let final_output_path := base ++ py ".tar.gz" in
    tdp ← gets (fun s => default [] (temp_decrypt_path s)) ;
    f ← gets fs ;
    if Fs.exists_ f tdp then os_rename tdp final_output_path else mret tt
  else mret tt.

(** The body of the inner [try]. *)
Definition item_body (original_source_path input_path : str) : M unit :=
  cmd ← (match mode with
         | Encrypt => build_encrypt input_path
         | Decrypt => build_decrypt input_path
         end) ;
  '(return_code, stderr_output) ← popen E cmd ;
  if bool_decide (return_code = 0%Z) then
    (match mode with
     | Encrypt => post_encrypt original_source_path
     | Decrypt => post_decrypt input_path
     end) ;;
    modify (fun s => set_success_count (success_count s + 1) s)
  else
    let error_msg := Str.strip stderr_output in
    let detail_msg :=
      if Str.truthy error_msg then error_msg
      else py "Failed, exit code: " ++ Str.of_Z return_code in
    raise (Exception detail_msg).

Definition progress_value (i : nat) : M Q :=
  n ← gets total_files ;
  match n with
  | 0 => raise (ZeroDivisionError (py "division by zero"))
  | S _ => mret (Qmake (Z.of_nat (i + 1)) (Pos.of_nat n))
  end.

(** The two clean-ups of the inner [finally]. *)
Definition remove_temps : M unit :=
  trf ← gets temp_recipients_file ;
  f ← gets fs ;
  (match trf with
   | Some p =>
       if Str.truthy p && Fs.exists_ f p then try_pass (os_remove p)
       else mret tt
   | None => mret tt
   end) ;;
  tdp ← gets temp_decrypt_path ;
  f ← gets fs ;
  match tdp with
  | Some p =>
      if bool_decide (mode = Decrypt) && Str.truthy p && Fs.exists_ f p
      then try_pass (os_remove p)
      else mret tt
  | None => mret tt
  end.

(** The inner [finally]. *)
Definition item_finally (i : nat) : M unit :=
  progress ← progress_value i ;
  emit (SigProgress progress) ;;
  remove_temps.

Definition reset_locals (s : St) : St :=
  set_temp_decrypt_path None
    (set_temp_output_path None (set_temp_recipients_file None s)).

(** One turn of the loop over [enumerate(processed_files)]. *)
Definition item_step (file_map : gmap str str) (i : nat) (input_path : str)
  : M unit :=
  let current_file_name := Path.basename input_path in
  original_source_path ←
    (match file_map !! input_path with
     | Some o => mret o
     | None => raise (KeyError input_path)
     end) ;
  modify reset_locals ;;
  try_finally
    (try_except (item_body original_source_path input_path)
                (fun e => emit (SigError current_file_name (exn_str e))))
    (item_finally i).

(** What an item does, seen from the state before it. *)
Definition item_outcome (original_source_path p : str) (s : St) : exn + unit :=
  fst (item_body original_source_path p (reset_locals s)).

(** The states between the turns of the loop: each item starts from the
    state its predecessor left, whatever the outcome. *)
Fixpoint run_items (file_map : gmap str str) (i : nat) (files : list str)
         (s : St) : St :=
  match files with
  | [] => s
  | p :: r => run_items file_map (S i) r (snd (item_step file_map i p s))
  end.

(** The state before item [k] of the processed files. *)
Definition state_before (file_map : gmap str str) (files : list str) (k : nat)
           (s : St) : St :=
  run_items file_map 0 (take k files) s.

(** "Cleanup": the archives are removed; a failure is printed only. *)
Definition cleanup : M unit :=
  l ← gets temp_files_to_cleanup ;
  for_each (fun temp_file => try_pass (os_remove temp_file)) l.

(** The outer [try] of [run]. *)
Definition run_try (original_files : list str) : M unit :=
  '(processed_files, file_map) ← preprocess original_files ;
  modify (set_total_files (length processed_files)) ;;
  for_enumerate (item_step file_map) 0 processed_files ;;
  cleanup.

(** The state in which [run] enters its outer [try]. *)
Definition run_start (s : St) : St :=
  set_total_files 0 (set_success_count 0 s).

(** [AgeWorker.run]. *)
Definition run (files_to_process : list str) : M unit :=
  modify (set_success_count 0) ;;
  modify (set_total_files 0) ;;
  let needs_clear := bool_decide (mode = Encrypt) in
  try_finally
    (try_except (run_try files_to_process)
                (fun e =>
                   emit (SigError (py "Pre-process")
                                  (py "Pre-process Error: " ++ exn_str e)) ;;
                   modify (set_total_files 0)))
    (s ← gets success_count ;
     t ← gets total_files ;
     emit (SigFinished s t needs_clear)).

End Worker.

Definition is_age (p : str) : bool := Str.endswith (Str.lower p) (py ".age").

(** [AgeGUI._on_files_dropped]. *)
Definition _on_files_dropped (E : Env) (paths : list str) (gw : GUI * World)
  : GUI * World :=
  let '(g, w) := gw in
  if _key_pending g then gw
  else
    let has_dirs := existsb (Fs.isdir (w_fs w)) paths in
    let has_age_files := existsb is_age paths in
    if (has_dirs && has_age_files)
       || (has_age_files
           && existsb (fun p => negb (is_age p) && negb (Fs.isdir (w_fs w) p))
                      paths)
    then
      (show_error (py "Do not mix .age file and directory/other file.")
                  STR_STATUS_ERROR_MIXED g, w)
    else
      let m := if has_age_files then Decrypt else Encrypt in
      match m with
      | Decrypt =>
          (mkGUI [] (recipients_keys g) paths (Some m) true
                 (TKey (py "Identity key needed!")) STR_STATUS_DECRYPT_MODE
                 (worker g), w)
      | Encrypt =>
          match recipients_keys g with
          | [] =>
              (mkGUI [] (recipients_keys g) paths (Some m) true
                     (TKey (py "Recipient key needed!"))
                     STR_STATUS_ENCRYPT_MODE (worker g), w)
          | _ :: _ =>
              _start_process (run E)
                (mkGUI (recipients_keys g) (recipients_keys g) paths (Some m)
                       (_key_pending g) (drop_target g)
                       (status_loaded_keys (length (recipients_keys g)))
                       (worker g), w)
          end
      end.

(** [AgeGUI._on_keys_dropped_in_key_mode]. *)
Definition _on_keys_dropped_in_key_mode (E : Env) (paths : list str)
           (gw : GUI * World) : GUI * World :=
  let '(g, w) := gw in
  if negb (_key_pending g) then gw
  else
    let valid_key_paths := List.filter (Fs.exists_ (w_fs w)) paths in
    match valid_key_paths with
    | [] => (show_error STR_ERROR_INVALID_KEY_PATH STR_STATUS_ERROR_KEY_LOAD g, w)
    | _ :: _ =>
        let rk := match current_action_mode g with
                  | Some Encrypt => valid_key_paths
                  | _ => recipients_keys g
                  end in
        _start_process (run E)
          (mkGUI valid_key_paths rk (files_to_process g)
                 (current_action_mode g) false (drop_target g)
                 (status_loaded_keys (length valid_key_paths)) (worker g), w)
    end.

End Ageyub.

(** ** Vocabulary of the properties *)

(** A computation keeps a relation on states, whatever its outcome. *)
Definition pres (R : St -> St -> Prop) {A} (m : M A) : Prop :=
forall s, R s (snd (m s)).

(** A computation that never raises. *)
Definition noraise {A} (m : M A) : Prop := forall s, exists x, fst (m s) = inr x.

(** The part of the state that only [run] itself writes: the signals, the
    total and the count of successes. *)
Definition ctl_eq (s s' : St) : Prop :=
  signals s' = signals s /\ total_files s' = total_files s
  /\ success_count s' = success_count s.

(** The argument after [-o] of an argument vector of the worker. *)
Definition output_of (cmd : list str) : option str := cmd !! 3.

(** What the properties on files ask of the tool: a run changes at most the
    path after [-o], and does not make a directory of it. *)
Definition writes_output_only (E : Env) : Prop :=
  forall calls cmd f rc err f',
    age E calls cmd f = Exited rc err f' ->
    (forall q, output_of cmd <> Some q -> f' !! q = f !! q)
    /\ (forall o, output_of cmd = Some o -> f' !! o = Some Dir -> f !! o = Some Dir).

(** No path has become a directory between two states. *)
Definition no_new_dirs (s s' : St) : Prop :=
  forall q, fs s' !! q = Some Dir -> fs s !! q = Some Dir.

(** The staging path of the decryption of [p]. *)
Definition staging_path (E : Env) (p : str) : str :=
  Yubiage.temp_decrypt_name E (Yubiage.decrypt_output_base p).

(** ** Concrete environments for the examples *)

Module Fixture.


(** A tool that writes its output file and returns 0. *)
Definition age_ok (calls : list (list str)) (cmd : list str) (f : FS)
  : ToolResult :=
  match output_of cmd with
  | Some o => Exited 0 [] (<[o := File (py "data")]> f)
  | None => Exited 0 [] f
  end.

(** The same tool, failing on its invocation number [n] (from 0). *)
Definition age_fail_at (n : nat) (calls : list (list str)) (cmd : list str)
           (f : FS) : ToolResult :=
  if (length calls =? n)%nat
  then Exited 1 (py "age: error: no identity matched any of the recipients
") f
  else age_ok calls cmd f.

(** A tool that returns 0 and writes nothing. *)
Definition age_silent (calls : list (list str)) (cmd : list str) (f : FS)
  : ToolResult := Exited 0 [] f.

Definition tar_ok (f : FS) (d : str) : str + str := inr (py "archive").
Definition tar_fail (f : FS) (d : str) : str + str :=
  inl (py "[Errno 13] Permission denied").

Definition env (tool : list (list str) -> list str -> FS -> ToolResult) : Env :=
  {| pid := 4242; cwd := py "/home/u"; age := tool; tar_gz := tar_ok |}.

Definition key : str := py "/k/id.pub".
Definition key_text : str := py "# created: today
age1qqqq
".
Definition comment_key : str := py "/k/comments.pub".
Definition comment_text : str := py "# public key
 # nothing else
".

(** Three plain files and a directory with a hidden file in it. *)
Definition disk : FS :=
  list_to_map
    [ (py "/d/a.txt", File (py "A"));
      (py "/d/b.txt", File (py "B"));
      (py "/d/c.txt", File (py "C"));
      (py "/d/dir", Dir);
      (py "/d/dir/x.txt", File (py "X"));
      (py "/d/dir/.git", Dir);
      (py "/d/dir/.git/config", File (py "G"));
      (py "/d/dir/.hidden", File (py "H"));
      (py "/d/.secret", File (py "S"));
      (py "/d/m.age", File (py "M"));
      (py "/d/FILE.AGE", File (py "F"));
      (key, File key_text);
      (comment_key, File comment_text) ].

Definition three : list str := [py "/d/a.txt"; py "/d/b.txt"; py "/d/c.txt"].

(** A directory and two plain files. *)
Definition mixed : list str := [py "/d/dir"; py "/d/a.txt"; py "/d/b.txt"].

(** A directory holding [report.txt] and [report (1).txt]. *)
Definition reports : FS :=
  list_to_map
    [ (py "/r/report.txt", File (py "0"));
      (py "/r/report (1).txt", File (py "1"));
      (py "/r/notes (7).md", File (py "7")) ].

Definition world (f : FS) : World := mkWorld f [] [].

Definition gui0 : GUI :=
  mkGUI [] [] [] None false TFile (status_ready (py "0")) None.

(** The window with a remembered recipient key. *)
Definition gui_keys : GUI :=
  mkGUI [] [key] [] None false TFile (status_ready (py "1")) None.

End Fixture.

(** The progress values of the loop over [n] items: [1/n, 2/n, ..., n/n]. *)
Definition item_progress (n : nat) : list Q :=
  map (fun j => ratio (j + 1) n) (seq 0 n).

(** The number of directories an encryption archives before its loop. *)
Definition archived (mode : Mode) (f : FS) (files : list str) : nat :=
  match mode with
  | Encrypt => length (List.filter (Fs.isdir f) files)
  | Decrypt => 0
  end.

(** A key path that contributes nothing to the recipients file: it does not
    exist, or what is left of its text without the comment lines is empty. *)
Definition yields_nothing (f : FS) (key_path : str) : Prop :=
  f !! key_path = None
  \/ exists data, f !! key_path = Some (File data) /\ key_content data = [].

(** Every line of a text is a comment. *)
Definition only_comments (data : str) : Prop :=
  Forall (fun line => Str.startswith (Str.strip line) (py "#") = true)
         (Str.lines (Str.universal_newlines data)).

(** A path whose base name begins with a dot. *)
Definition hidden (p : str) : bool := Str.startswith (Path.basename p) (py ".").

(** The input path of an argument vector: its last element. *)
Definition input_of (cmd : list str) : option str := last cmd.

(** The processes started between two states are started on files of a
    given list. *)
Definition popen_within (files : list str) (s s' : St) : Prop :=
  exists L, popen_calls s' = popen_calls s ++ L
    /\ Forall (fun cmd => exists p, p ∈ files /\ input_of cmd = Some p) L.

(** No process is started between two states. *)
Definition same_popen (s s' : St) : Prop := popen_calls s' = popen_calls s.

(** What a computation returns, when it returns. *)
Definition returns {A} (P : A -> Prop) (m : M A) : Prop :=
  forall s x s', m s = (inr x, s') -> P x.

(** The processes started between two worlds all have an input path that
    satisfies [P]. *)
Definition started_on (P : str -> Prop) (w w' : World) : Prop :=
  exists L, w_popen w' = w_popen w ++ L
    /\ Forall (fun cmd => exists p, input_of cmd = Some p /\ P p) L.

(** The files the window holds for an encryption are not hidden. *)
Definition encrypts_visible (g : GUI) : Prop :=
  current_action_mode g = Some Encrypt ->
  Forall (fun p => hidden p = false) (files_to_process g).

(** The files the window holds for a decryption are one [.age] file. *)
Definition decrypts_single (g : GUI) : Prop :=
  current_action_mode g = Some Decrypt ->
  files_to_process g = []
  \/ exists p, files_to_process g = [p] /\ Yubiage.is_age p = true.

(** A tool that has written a regular file at the path after [-o] whenever
    it returns 0. *)
Definition produces_output (E : Env) : Prop :=
  forall calls cmd f err f' o,
    age E calls cmd f = Exited 0 err f' ->
    output_of cmd = Some o ->
    Fs.isfile f' o = true.

(** What is at [x] in the earlier state, a regular file or a directory, is
    still there in the later one. *)
Definition keeps (x : str) (s s' : St) : Prop :=
  (Fs.isfile (fs s) x = true -> Fs.isfile (fs s') x = true)
  /\ (Fs.isdir (fs s) x = true -> Fs.isdir (fs s') x = true).

(** The paths the worker remembers for its clean-ups are the same. *)
Definition same_locals (s s' : St) : Prop :=
  temp_output_path s' = temp_output_path s
  /\ temp_recipients_file s' = temp_recipients_file s
  /\ temp_files_to_cleanup s' = temp_files_to_cleanup s.

(** The entries of the earlier state are unchanged in the later one. *)
Definition extends (s s' : St) : Prop :=
  forall q, is_Some (fs s !! q) -> fs s' !! q = fs s !! q.

(** The staging path of the decryption of [p] in [ageyub_ui.py], and the
    name its text gets when [p] is taken for an encrypted directory. *)
Definition ageyub_staging_path (E : Env) (p : str) : str :=
  Ageyub.temp_decrypt_name E (Ageyub.decrypt_output_base p).
Definition ageyub_archive_path (p : str) : str :=
  Ageyub.decrypt_output_base p ++ py ".tar.gz".

(** [input_path.lower().endswith(".dir.age")]. *)
Definition is_dir_age (p : str) : bool :=
  Str.endswith (Str.lower p) (py ".dir.age").

(** Between two states only paths that satisfy [P] have changed. *)
Definition changes_only (P : str -> Prop) (s s' : St) : Prop :=
  forall q, ~ P q -> fs s' !! q = fs s !! q.

(** ** The saved keys and the events of the window *)

Module StrList.

(** [sep.join(l)]. *)
Fixpoint join (sep : str) (l : list str) : str :=
  match l with
  | [] => []
  | [x] => x
  | x :: r => x ++ sep ++ join sep r
  end.

(** [s.split(c)] for a separator of one character: one more piece than
    there are separators. *)
Fixpoint split (c : ascii) (s : str) : list str :=
  match s with
  | [] => [[]]
  | x :: r =>
      if bool_decide (x = c) then [] :: split c r
      else match split c r with
           | h :: t => (x :: h) :: t
           | [] => [[x]]
           end
  end.

End StrList.

(** The two values of the group [Keys] of [settings.ini]; [None] is a key
    that is not in the file. *)
Record Settings := mkSettings {
  remember_keys : option str;       (* Keys/RememberKeys *)
  key_paths : option str            (* Keys/Paths *)
}.

(** [AgeGUI._save_key_settings]. *)
Definition _save_key_settings (keys_to_save : list str) (remember : bool)
           (st : Settings) : Settings :=
  mkSettings (Some (if remember then py "true" else py "false"))
             (Some (if remember then StrList.join (py ";") keys_to_save
                    else [])).

(** [AgeGUI._load_key_settings]. *)
Definition _load_key_settings (f : FS) (st : Settings) (g : GUI) : GUI :=
  let is_remembered :=
    bool_decide (default (py "false") (remember_keys st) = py "true") in
  if is_remembered then
    let key_paths_str := default [] (key_paths st) in
    let key_paths :=
      List.filter (fun p => Fs.exists_ f p && Str.truthy p)
                  (StrList.split ";"%char key_paths_str) in
    match key_paths with
    | [] => g
    | _ :: _ =>
        mkGUI (keys g) key_paths (files_to_process g) (current_action_mode g)
              (_key_pending g) (drop_target g)
              (status_loaded_keys (length key_paths)) (worker g)
    end
  else g.

(** The window when [AgeGUI.__init__] has set its state variables. *)
Definition gui_init : GUI :=
  mkGUI [] [] [] None false TFile (status_ready (py "0")) None.

(** [AgeGUI.__init__]: the saved keys are loaded last. *)
Definition gui_start (f : FS) (st : Settings) : GUI :=
  _load_key_settings f st gui_init.

(** [AgeGUI._clear_keys_action]; [yes] is the answer to the question. *)
Definition _clear_keys_action (yes : bool) (gs : GUI * Settings)
  : GUI * Settings :=
  let '(g, st) := gs in
  let ready g :=
    mkGUI (keys g) (recipients_keys g) (files_to_process g)
          (current_action_mode g) (_key_pending g) (drop_target g)
          (status_ready (py "0")) (worker g) in
  match recipients_keys g with
  | [] => (ready g, st)
  | _ :: _ =>
      if yes then
        let g1 := mkGUI [] [] (files_to_process g) (current_action_mode g)
                        (_key_pending g) (drop_target g) (status_label g)
                        (worker g) in
        let st1 := _save_key_settings [] false st in
        let g2 := if _key_pending g1 then _reset_state_ui g1 else g1 in
        (ready g2, st1)
      else (g, st)
  end.

(** A URL of a drop: [isLocalFile()] and [toLocalFile()]. *)
Inductive Url :=
  | LocalFile (path : str)
  | NotLocal.

(** The paths [dropEvent] keeps of the URLs of a drop. *)
Definition dropped_paths (f : FS) (urls : list Url) : list str :=
  omap (fun u => match u with
                 | LocalFile p => if Fs.exists_ f p then Some p else None
                 | NotLocal => None
                 end) urls.

(** The window, the world and the saved settings. *)
Definition App : Type := GUI * World * Settings.

(** What happens to the window: a drop ([None] when the data has no URLs),
    the two buttons, and a change of the files from outside. *)
Inductive Event :=
  | EvDrop (mime : option (list Url))
  | EvClearState
  | EvClearKeys (yes : bool)
  | EvFiles (f : FS).

Module YubiageWindow.

(** What [_on_keys_dropped_in_key_mode] saves: the keys of an encryption. *)
Definition saved_by_keys_dropped (paths : list str) (gw : GUI * World)
           (st : Settings) : Settings :=
  let '(g, w) := gw in
  if negb (_key_pending g) then st
  else
    match List.filter (fun p => Fs.exists_ (w_fs w) p && Fs.isfile (w_fs w) p)
                      paths with
    | [] => st
    | valid_key_paths =>
        match current_action_mode g with
        | Some Encrypt => _save_key_settings valid_key_paths true st
        | _ => st
        end
    end.

(** [SingleDropTarget.dropEvent]; the flag tells whether the event was
    accepted. *)
Definition dropEvent (E : Env) (mime : option (list Url)) (a : App)
  : exn + bool * App :=
  let '(g, w, st) := a in
  match mime with
  | None => inr (false, a)
  | Some urls =>
      match dropped_paths (w_fs w) urls with
      | [] => inr (false, a)
      | paths =>
          let g1 := match drop_target g with
                    | TFinished _ | TError _ => _reset_state_ui g
                    | _ => g
                    end in
          match drop_target g1 with
          | TFile =>
              match Yubiage._on_files_dropped E paths (g1, w) with
              | inl e => inl e
              | inr (g2, w2) => inr (true, (g2, w2, st))
              end
          | TKey _ =>
              let '(g2, w2) :=
                Yubiage._on_keys_dropped_in_key_mode E paths (g1, w) in
              inr (true, (g2, w2, saved_by_keys_dropped paths (g1, w) st))
          | _ => inr (true, (g1, w, st))
          end
      end
  end.

(** One event of the window. *)
Definition handle (E : Env) (ev : Event) (a : App) : exn + App :=
  let '(g, w, st) := a in
  match ev with
  | EvDrop mime =>
      match dropEvent E mime a with
      | inl e => inl e
      | inr (_, a') => inr a'
      end
  | EvClearState => inr (_reset_state_ui g, w, st)
  | EvClearKeys yes =>
      let '(g', st') := _clear_keys_action yes (g, st) in inr (g', w, st')
  | EvFiles f => inr (g, mkWorld f (w_signals w) (w_popen w), st)
  end.

(** The events of a session, one after the other, until one raises. *)
Fixpoint session (E : Env) (evs : list Event) (a : App) : exn + App :=
  match evs with
  | [] => inr a
  | ev :: r =>
      match handle E ev a with
      | inl e => inl e
      | inr a' => session E r a'
      end
  end.

(** The window as [__init__] leaves it. *)
Definition start (w : World) (st : Settings) : App :=
  (gui_start (w_fs w) st, w, st).

End YubiageWindow.

Module AgeyubWindow.

Definition saved_by_keys_dropped (paths : list str) (gw : GUI * World)
           (st : Settings) : Settings :=
  let '(g, w) := gw in
  if negb (_key_pending g) then st
  else
    match List.filter (Fs.exists_ (w_fs w)) paths with
    | [] => st
    | valid_key_paths =>
        match current_action_mode g with
        | Some Encrypt => _save_key_settings valid_key_paths true st
        | _ => st
        end
    end.

(** [SingleDropTarget.dropEvent]. *)
Definition dropEvent (E : Env) (mime : option (list Url)) (a : App)
  : bool * App :=
  let '(g, w, st) := a in
  match mime with
  | None => (false, a)
  | Some urls =>
      match dropped_paths (w_fs w) urls with
      | [] => (false, a)
      | paths =>
          let g1 := match drop_target g with
                    | TFinished _ | TError _ => _reset_state_ui g
                    | _ => g
                    end in
          match drop_target g1 with
          | TFile | TFinished _ | TError _ =>
              let '(g2, w2) := Ageyub._on_files_dropped E paths (g1, w) in
              (true, (g2, w2, st))
          | TKey _ =>
              let '(g2, w2) :=
                Ageyub._on_keys_dropped_in_key_mode E paths (g1, w) in
              (true, (g2, w2, saved_by_keys_dropped paths (g1, w) st))
          end
      end
  end.

End AgeyubWindow.

(** What holds of the window between two events: while a key is awaited
    there are files and a mode; the drop target asks for a key exactly
    then, and takes files only when none is awaited; a decryption holds at
    most one file, an [.age] file. *)
Definition window_ok (g : GUI) : Prop :=
  (_key_pending g = true ->
   files_to_process g <> [] /\ is_Some (current_action_mode g))
  /\ (forall msg, drop_target g = TKey msg -> _key_pending g = true)
  /\ (drop_target g = TFile -> _key_pending g = false)
  /\ decrypts_single g.

(** The argument vector [yubiage_ui.py] builds for an item. *)
Definition yubiage_command (E : Env) (mode : Mode) (keys : list str) (p : str)
  : list str :=
  match mode with
  | Encrypt =>
      [py "age"; py "-a"; py "-o"; p ++ py ".age"; py "-R";
       Yubiage.temp_recipients_name E p; p]
  | Decrypt =>
      [py "age"; py "-d"; py "-o"; staging_path E p]
        ++ flat_map (fun key_path => [py "-i"; key_path]) keys ++ [p]
  end.

(** A process the window of [yubiage_ui.py] may start: the encryption of a
    path that is neither hidden nor an [.age] file, or the decryption of an
    [.age] file with at least one identity. *)
Definition yubiage_call_ok (E : Env) (cmd : list str) : Prop :=
  exists mode keys p,
    cmd = yubiage_command E mode keys p
    /\ keys <> []
    /\ match mode with
       | Encrypt => Yubiage.is_age p = false /\ hidden p = false
       | Decrypt => Yubiage.is_age p = true
       end.

(** The files of the window fit its mode. *)
Definition batch_ok (g : GUI) : Prop :=
  match current_action_mode g with
  | Some Encrypt =>
      Forall (fun p => Yubiage.is_age p = false /\ hidden p = false)
             (files_to_process g)
  | Some Decrypt =>
      files_to_process g = []
      \/ exists p, files_to_process g = [p] /\ Yubiage.is_age p = true
  | None => True
  end.

(** The processes started between two worlds are all of the kind the window
    of [yubiage_ui.py] may start. *)
Definition calls_ok (E : Env) (w w' : World) : Prop :=
  exists L, w_popen w' = w_popen w ++ L /\ Forall (yubiage_call_ok E) L.

(* ================================================================= *)
(** * Properties *)

(** ** The string and path functions on examples *)

Example lower_ex : Str.lower (py "A.Dir.AGE") = py "a.dir.age".
Proof. reflexivity. Qed.
Example basename_ex : Path.basename (py "/tmp/x/report.txt") = py "report.txt".
Proof. reflexivity. Qed.
Example dirname_ex : Path.dirname (py "/tmp/x/report.txt") = py "/tmp/x".
Proof. reflexivity. Qed.
Example dirname_root_ex : Path.dirname (py "/report.txt") = py "/".
Proof. reflexivity. Qed.
Example splitext_ex : Path.splitext (py "report.txt") = (py "report", py ".txt").
Proof. reflexivity. Qed.
Example splitext_hidden_ex : Path.splitext (py ".bashrc") = (py ".bashrc", []).
Proof. reflexivity. Qed.
Example splitext_two_ex :
  Path.splitext (py "a.tar.gz") = (py "a.tar", py ".gz").
Proof. reflexivity. Qed.
Example join_ex : Path.join (py "/tmp") (py "x") = py "/tmp/x".
Proof. reflexivity. Qed.
Example lines_ex : Str.lines (py "ab
c") = [py "ab
"; py "c"].
Proof. reflexivity. Qed.
Example of_nat_ex : Str.of_nat 120 = py "120".
Proof. reflexivity. Qed.
Example int_ex : Str.int (py "007") = 7.
Proof. reflexivity. Qed.


(** ** Decimal numerals *)

Lemma py_inj (a b : string) : py a = py b -> a = b.
Proof.
  intros H. rewrite <- (string_of_list_ascii_of_string a),
    <- (string_of_list_ascii_of_string b). unfold py in H. by rewrite H.
Qed.

Lemma of_nat_inj (n m : nat) : Str.of_nat n = Str.of_nat m -> n = m.
Proof. intros H. apply py_inj in H. by apply (inj pretty) in H. Qed.

Lemma py_app (a b : string) : py (a +:+ b) = py a ++ py b.
Proof.
  unfold py. induction a as [|c a IH]; [done|].
  simpl. by f_equal.
Qed.

Lemma pretty_go_app (x : N) (s : string) :
  py (pretty_N_go x s) = py (pretty_N_go x "") ++ py s.
Proof.
  revert s. induction (N.lt_wf_0 x) as [x _ IH]. intros s.
  destruct (decide (x = 0%N)) as [->|Hx].
  - by rewrite !pretty_N_go_0.
  - rewrite (pretty_N_go_step x s), (pretty_N_go_step x "") by lia.
    rewrite IH by (apply N.div_lt; lia).
    rewrite (IH (x `div` 10)%N) with (s := String _ "") by (apply N.div_lt; lia).
    by rewrite <- app_assoc.
Qed.

Lemma pretty_go_step (x : N) :
  (0 < x)%N ->
  py (pretty_N_go x "")
  = py (pretty_N_go (x `div` 10) "") ++ [pretty_N_char (x `mod` 10)].
Proof. intros Hx. rewrite pretty_N_go_step by done. by rewrite pretty_go_app. Qed.

Lemma pretty_char_digit (d : N) : Str.isdigit (pretty_N_char d) = true.
Proof. unfold pretty_N_char. by repeat case_match. Qed.

Lemma pretty_char_value (d : N) :
  (d < 10)%N -> nat_of_ascii (pretty_N_char d) - 48 = N.to_nat d.
Proof.
  intros Hd.
  assert (d = 0 \/ d = 1 \/ d = 2 \/ d = 3 \/ d = 4 \/ d = 5 \/ d = 6
          \/ d = 7 \/ d = 8 \/ d = 9)%N as H by lia.
  repeat (destruct H as [->|H]; [done|]). by subst.
Qed.

Lemma pretty_go_digits (x : N) :
  Forall (fun c => Str.isdigit c = true) (py (pretty_N_go x "")).
Proof.
  induction (N.lt_wf_0 x) as [x _ IH].
  destruct (decide (x = 0%N)) as [->|Hx]; [by rewrite pretty_N_go_0|].
  rewrite pretty_go_step by lia. apply Forall_app. split.
  - apply IH, N.div_lt; lia.
  - repeat constructor. apply pretty_char_digit.
Qed.

Lemma pretty_go_int (x : N) : Str.int (py (pretty_N_go x "")) = N.to_nat x.
Proof.
  induction (N.lt_wf_0 x) as [x _ IH].
  destruct (decide (x = 0%N)) as [->|Hx]; [by rewrite pretty_N_go_0|].
  rewrite pretty_go_step by lia. unfold Str.int in *.
  rewrite fold_left_app. cbn [fold_left].
  rewrite IH by (apply N.div_lt; lia).
  rewrite pretty_char_value by (apply N.mod_lt; lia).
  pose proof (N.div_mod x 10). lia.
Qed.

(** [str(n)] is a non-empty string of digits that [int] reads back. *)
Lemma of_nat_digits (n : nat) :
  Str.of_nat n <> [] /\ Forall (fun c => Str.isdigit c = true) (Str.of_nat n)
  /\ Str.int (Str.of_nat n) = n.
Proof.
  unfold Str.of_nat, pretty, pretty_nat, pretty, pretty_N.
  destruct (decide (N.of_nat n = 0%N)) as [H|H].
  - assert (n = 0) as -> by lia. split; [done|]. split; [|done].
    repeat constructor.
  - split; [|split].
    + rewrite pretty_go_step by lia. by destruct (py _).
    + apply pretty_go_digits.
    + rewrite pretty_go_int. lia.
Qed.

(** ** The output resolver *)

Section FindUnique.

Import Yubiage.

Lemma startswith_cons (c x : ascii) (r : str) :
  Str.startswith (x :: r) [c] = bool_decide (x = c).
Proof.
  unfold Str.startswith. apply bool_decide_ext. split.
  - intros [k Hk]. simpl in Hk. congruence.
  - intros ->. by exists r.
Qed.

(** The candidates of one search share everything but the number. *)
Lemma candidate_shape (d b e : str) :
  exists P, forall n,
    candidate d b e n = P ++ b ++ py " (" ++ Str.of_nat n ++ py ")" ++ e.
Proof.
  unfold candidate, Path.join. destruct b as [|c b].
  - exists (if negb (Str.truthy d) || Str.endswith d [Path.sep]
            then d else d ++ [Path.sep]).
    intros n. cbn [py list_ascii_of_string app]. rewrite startswith_cons.
    rewrite bool_decide_false by discriminate.
    destruct (negb (Str.truthy d) || Str.endswith d [Path.sep]); [done|].
    by rewrite <- app_assoc.
  - destruct (bool_decide (c = Path.sep)) eqn:Hc.
    + exists []. intros n. cbn [app]. by rewrite startswith_cons, Hc.
    + exists (if negb (Str.truthy d) || Str.endswith d [Path.sep]
              then d else d ++ [Path.sep]).
      intros n. cbn [app]. rewrite startswith_cons, Hc.
      destruct (negb (Str.truthy d) || Str.endswith d [Path.sep]); [done|].
      by rewrite <- app_assoc.
Qed.

Lemma candidate_inj (d b e : str) (n m : nat) :
  candidate d b e n = candidate d b e m -> n = m.
Proof.
  destruct (candidate_shape d b e) as [P HP]. rewrite !HP. intros H.
  apply app_inv_head in H. apply app_inv_head in H.
  apply app_inv_head in H.
  rewrite !(app_assoc _ (py ")") e) in H. apply app_inv_tail in H.
  apply app_inv_tail in H. by apply of_nat_inj.
Qed.

(** The loop finds the first free candidate once the fuel exceeds the
    number of occupied names. *)
Lemma find_loop_total (f : FS) (d b e : str) :
  forall (fuel : nat) (n : nat) (S : gset str),
    size S < fuel ->
    (forall m, n <= m -> Fs.exists_ f (candidate d b e m) = true ->
               candidate d b e m ∈ S) ->
    exists k, n <= k
      /\ find_loop fuel f d b e n = Some (candidate d b e k)
      /\ Fs.exists_ f (candidate d b e k) = false
      /\ forall m, n <= m < k -> Fs.exists_ f (candidate d b e m) = true.
Proof.
  induction fuel as [|fuel IH]; intros n S Hsz HS; [lia|].
  simpl. destruct (Fs.exists_ f (candidate d b e n)) eqn:Hex; simpl.
  - destruct (IH (Datatypes.S n) (S ∖ {[candidate d b e n]})) as (k & Hk & Hr & Hf & Hb).
    + assert (Hin : candidate d b e n ∈ S) by (apply HS; [lia|done]).
      rewrite size_difference, size_singleton by set_solver.
      assert (size S <> 0) by (intros ?%size_empty_inv; set_solver).
      lia.
    + intros m Hm Hexm. apply elem_of_difference. split.
      * apply HS; [lia|done].
      * intros Heq%elem_of_singleton. apply candidate_inj in Heq. lia.
    + exists k. repeat split; [lia|done|done|].
      intros m Hm. destruct (decide (m = n)) as [->|]; [done|].
      apply Hb. lia.
  - exists n. repeat split; [lia|done|]. intros m Hm. lia.
Qed.

Lemma exists_dom (f : FS) (p : str) :
  Fs.exists_ f p = true -> p ∈ dom f.
Proof.
  unfold Fs.exists_. intros H. apply elem_of_dom.
  destruct (f !! p); [eauto|done].
Qed.

Lemma span_digits_app (ds rest : str) :
  Forall (fun c => Str.isdigit c = true) ds ->
  match rest with c :: _ => Str.isdigit c = false | [] => True end ->
  span_digits (ds ++ rest) = (ds, rest).
Proof.
  intros Hds Hrest. induction Hds as [|c ds Hc _ IH]; simpl.
  - destruct rest as [|c r]; simpl; [done|]. by rewrite Hrest.
  - by rewrite Hc, IH.
Qed.

(** A name that ends in a parenthesised number is numbered from the next
    one, on the name without that ending. *)
Lemma numbering_suffix (b ds : str) :
  ds <> [] -> Forall (fun c => Str.isdigit c = true) ds ->
  numbering (b ++ py " (" ++ ds ++ py ")") = (b, Str.int ds + 1).
Proof.
  intros Hne Hds. unfold numbering, re_search.
  assert (Hnl : Str.endswith (b ++ py " (" ++ ds ++ py ")") [Str.LF] = false).
  { unfold Str.endswith. apply bool_decide_eq_false. intros [k Hk].
    rewrite !app_assoc in Hk. apply app_inj_tail in Hk. destruct Hk as [_ Hk].
    discriminate. }
  rewrite Hnl.
  replace (reverse (b ++ py " (" ++ ds ++ py ")"))
    with (")"%char :: reverse ds ++ "("%char :: " "%char :: reverse b).
  2:{ rewrite !reverse_app. simpl. rewrite <- !app_assoc. done. }
  rewrite bool_decide_true by done.
  rewrite span_digits_app.
  - destruct (reverse ds) as [|c r] eqn:Hr.
    { apply (f_equal reverse) in Hr. rewrite reverse_involutive in Hr.
      by destruct Hne. }
    rewrite <- Hr. rewrite !bool_decide_true by done. simpl.
    rewrite reverse_involutive, length_reverse.
    by rewrite take_app_length.
  - by apply Forall_reverse.
  - done.
Qed.

End FindUnique.

(** C4.  When the natural target exists, [_find_unique_filename] returns the
    first free name among [base (n)ext], [n] counting up from the start
    number, where [ext] is the extension of the base name; the returned name
    is not on disk, so nothing is overwritten.  The start number is one more
    than the number a name already ends with, and 1 otherwise. *)
Theorem C4_find_unique_filename (f : FS) (path : str) :
  Fs.exists_ f path = true ->
  (forall name ext base start,
      Path.splitext (Path.basename path) = (name, ext) ->
      Yubiage.numbering name = (base, start) ->
      name ++ ext = Path.basename path
      /\ exists n, start <= n
         /\ Yubiage._find_unique_filename f path
            = Some (Path.join (Path.dirname path)
                       (base ++ py " (" ++ Str.of_nat n ++ py ")" ++ ext))
         /\ Fs.exists_ f (Yubiage.candidate (Path.dirname path) base ext n) = false
         /\ forall m, start <= m < n ->
              Fs.exists_ f (Yubiage.candidate (Path.dirname path) base ext m) = true)
  /\ (forall b ds, ds <> [] -> Forall (fun c => Str.isdigit c = true) ds ->
        Yubiage.numbering (b ++ py " (" ++ ds ++ py ")") = (b, Str.int ds + 1))
  /\ (forall b k,
        Yubiage.numbering (b ++ py " (" ++ Str.of_nat k ++ py ")") = (b, k + 1))
  /\ (forall name, Yubiage.re_search name = None ->
        Yubiage.numbering name = (name, 1)).
Proof.
  intros Hex. split; [|split; [|split]].
  - intros name ext base start Hsp Hnum. split.
    { unfold Path.splitext in Hsp.
      destruct (_ && _) in Hsp; inversion Hsp; subst;
        [apply take_drop | apply app_nil_r]. }
    unfold Yubiage._find_unique_filename. rewrite Hex. simpl.
    rewrite Hsp, Hnum.
    destruct (find_loop_total f (Path.dirname path) base ext (S (size f)) start
                (dom f)) as (k & Hk & Hr & Hf & Hb).
    + rewrite size_dom. lia.
    + intros m _ Hm. by apply exists_dom.
    + exists k. repeat split; done.
  - apply numbering_suffix.
  - intros b k. destruct (of_nat_digits k) as (Hne & Hd & Hint).
    by rewrite numbering_suffix, Hint.
  - intros name H. unfold Yubiage.numbering. by rewrite H.
Qed.

Lemma C4_witness :
  Fs.exists_ Fixture.reports (py "/r/report.txt") = true
  /\ exists n, 1 <= n
       /\ Yubiage._find_unique_filename Fixture.reports (py "/r/report.txt")
          = Some (Path.join (py "/r")
                    (py "report" ++ py " (" ++ Str.of_nat n ++ py ")" ++ py ".txt"))
       /\ Fs.exists_ Fixture.reports
            (Yubiage.candidate (py "/r") (py "report") (py ".txt") n) = false
       /\ forall m, 1 <= m < n ->
            Fs.exists_ Fixture.reports
              (Yubiage.candidate (py "/r") (py "report") (py ".txt") m) = true.
Proof.
  split; [reflexivity|].
  apply (proj1 (C4_find_unique_filename Fixture.reports (py "/r/report.txt")
                  eq_refl)
               (py "report") (py ".txt") (py "report") 1 eq_refl eq_refl).
Defined.

(** The examples of the specification: [report.txt] is taken, then
    [report (1).txt]; a name that ends in [(7)] continues with [(8)]. *)
Example find_unique_report_1 :
  Yubiage._find_unique_filename
    (delete (py "/r/report (1).txt") Fixture.reports) (py "/r/report.txt")
  = Some (py "/r/report (1).txt").
Proof. vm_compute. reflexivity. Qed.

Example find_unique_report_2 :
  Yubiage._find_unique_filename Fixture.reports (py "/r/report.txt")
  = Some (py "/r/report (2).txt").
Proof. vm_compute. reflexivity. Qed.

Example find_unique_continues :
  Yubiage._find_unique_filename Fixture.reports (py "/r/notes (7).md")
  = Some (py "/r/notes (8).md")
  /\ Yubiage._find_unique_filename Fixture.reports (py "/r/report (1).txt")
     = Some (py "/r/report (2).txt").
Proof. vm_compute. split; reflexivity. Qed.

Example find_unique_free :
  Yubiage._find_unique_filename Fixture.reports (py "/r/new.txt")
  = Some (py "/r/new.txt").
Proof. vm_compute. reflexivity. Qed.

(** ** Reasoning about the worker monad *)

Lemma bind_run {A B} (m : M A) (f : A -> M B) (s : St) :
  (m ≫= f) s = match m s with
               | (inr x, s') => f x s'
               | (inl e, s') => (inl e, s')
               end.
Proof. reflexivity. Qed.

(** One step of symbolic execution of a sequence. *)
Ltac mstep :=
  first [rewrite bind_run | progress cbn [modify gets emit mret M_ret raise]].
Ltac msteps := repeat mstep.
Ltac msteps_in H :=
  repeat first [rewrite bind_run in H
               | progress cbn [modify gets emit mret M_ret raise] in H].

Section Frame.

Context (R : St -> St -> Prop) {HR : PreOrder R}.

Lemma pres_ret {A} (x : A) : pres R (mret x).
Proof. intros s. reflexivity. Qed.

Lemma pres_raise {A} (e : exn) : pres R (@raise A e).
Proof. intros s. reflexivity. Qed.

Lemma pres_gets {A} (f : St -> A) : pres R (gets f).
Proof. intros s. reflexivity. Qed.

Lemma pres_modify (f : St -> St) : (forall s, R s (f s)) -> pres R (modify f).
Proof. intros H s. apply H. Qed.

Lemma pres_bind {A B} (m : M A) (f : A -> M B) :
  pres R m -> (forall x, pres R (f x)) -> pres R (m ≫= f).
Proof.
  intros Hm Hf s. rewrite bind_run. specialize (Hm s).
  destruct (m s) as [[e|x] s']; simpl in *; [done|].
  etrans; [exact Hm|apply Hf].
Qed.

Lemma pres_try_except {A} (m : M A) (h : exn -> M A) :
  pres R m -> (forall e, pres R (h e)) -> pres R (try_except m h).
Proof.
  intros Hm Hh s. unfold try_except. specialize (Hm s).
  destruct (m s) as [[e|x] s']; simpl in *; [|done].
  etrans; [exact Hm|apply Hh].
Qed.

Lemma pres_try_finally {A} (m : M A) (fin : M unit) :
  pres R m -> pres R fin -> pres R (try_finally m fin).
Proof.
  intros Hm Hf s. unfold try_finally. specialize (Hm s).
  destruct (m s) as [r s']. specialize (Hf s').
  destruct (fin s') as [[e|x] s'']; simpl in *; etrans; eauto.
Qed.

Lemma pres_try_pass (m : M unit) : pres R m -> pres R (try_pass m).
Proof. intros Hm. apply pres_try_except; [done|]. intros _. apply pres_ret. Qed.

Lemma pres_for_enumerate {A} (body : nat -> A -> M unit) (l : list A) :
  (forall i x, pres R (body i x)) -> forall i, pres R (for_enumerate body i l).
Proof.
  intros Hb. induction l as [|x l IH]; intros i; simpl.
  - apply pres_ret.
  - apply pres_bind; [apply Hb|]. intros _. apply IH.
Qed.

End Frame.

Lemma noraise_ret {A} (x : A) : noraise (mret x).
Proof. intros s. by exists x. Qed.

Lemma noraise_gets {A} (f : St -> A) : noraise (gets f).
Proof. intros s. by eexists. Qed.

Lemma noraise_modify (f : St -> St) : noraise (modify f).
Proof. intros s. by eexists. Qed.

Lemma noraise_bind {A B} (m : M A) (f : A -> M B) :
  noraise m -> (forall x, noraise (f x)) -> noraise (m ≫= f).
Proof.
  intros Hm Hf s. rewrite bind_run. destruct (Hm s) as [x Hx].
  destruct (m s) as [[e|y] s']; simpl in Hx; [done|]. apply Hf.
Qed.

Lemma noraise_try_pass (m : M unit) : noraise (try_pass m).
Proof.
  intros s. unfold try_pass, try_except.
  destruct (m s) as [[e|y] s']; by eexists.
Qed.

Lemma noraise_try_except {A} (m : M A) (h : exn -> M A) :
  (forall e, noraise (h e)) -> noraise (try_except m h).
Proof.
  intros Hh s. unfold try_except.
  destruct (m s) as [[e|y] s']; [apply Hh|by eexists].
Qed.

Lemma noraise_unit (m : M unit) (s : St) : noraise m -> fst (m s) = inr tt.
Proof. intros H. destruct (H s) as [[] ->]. done. Qed.

Ltac noraise_step :=
  lazymatch goal with
  | |- noraise (_ ≫= _) => apply noraise_bind; [|intros ?]
  | |- noraise (try_pass _) => apply noraise_try_pass
  | |- noraise (mret _) => apply noraise_ret
  | |- noraise (gets _) => apply noraise_gets
  | |- noraise (modify _) => apply noraise_modify
  | |- noraise (match ?x with _ => _ end) => destruct x
  end.
Ltac noraise_auto := repeat noraise_step.

Global Instance ctl_eq_preorder : PreOrder ctl_eq.
Proof.
  split.
  - by intros s.
  - intros a b c (?&?&?) (?&?&?). unfold ctl_eq. repeat split; congruence.
Qed.

Lemma ctl_os_remove p : pres ctl_eq (os_remove p).
Proof. intros s. unfold os_remove. by repeat case_match. Qed.

Lemma ctl_os_rename a b : pres ctl_eq (os_rename a b).
Proof. intros s. unfold os_rename. by repeat case_match. Qed.

Lemma ctl_open_w p : pres ctl_eq (open_w p).
Proof. intros s. unfold open_w. by repeat case_match. Qed.

Lemma ctl_flush p t : pres ctl_eq (flush p t).
Proof. intros s. unfold flush. by repeat case_match. Qed.

Lemma ctl_popen E cmd : pres ctl_eq (popen E cmd).
Proof. intros s. unfold popen. by repeat case_match. Qed.

Lemma ctl_write_recipients p keys : pres ctl_eq (write_recipients p keys).
Proof.
  unfold write_recipients. apply pres_bind; [apply _|apply ctl_open_w|].
  intros _. apply pres_bind; [apply _|apply pres_gets, _|]. intros f.
  destruct (recipients_text f keys) as [text e].
  apply pres_bind; [apply _|apply ctl_flush|]. intros _.
  destruct e; [apply pres_raise|apply pres_ret]; apply _.
Qed.

Create HintDb pres.
Global Hint Resolve pres_ret pres_raise pres_gets pres_try_pass ctl_os_remove
  ctl_os_rename ctl_open_w ctl_flush ctl_popen ctl_write_recipients
  ctl_eq_preorder : pres.

(** Splits a computation along its structure, leaving the primitive steps to
    the hint base. *)
Ltac pres_step :=
  lazymatch goal with
  | |- pres _ (_ ≫= _) => apply pres_bind; [apply _| |intros ?]
  | |- pres _ (try_except _ _) => apply pres_try_except; [apply _| |intros ?]
  | |- pres _ (try_finally _ _) => apply pres_try_finally; [apply _| |]
  | |- pres _ (modify _) => apply pres_modify; intros ?; done
  | |- pres _ (match ?x with _ => _ end) => destruct x
  | |- pres _ (let '(_, _) := ?x in _) => destruct x
  | |- pres _ _ => solve [eauto with pres]
  end.
Ltac pres_auto := repeat pres_step.

(** ** The loop of [yubiage_ui.py] *)

Section YubiageLoop.

Import Yubiage.
Context (E : Env) (mode : Mode) (keys : list str).

Lemma ctl_build_encrypt p : pres ctl_eq (build_encrypt E keys p).
Proof. unfold build_encrypt. pres_auto. Qed.

Lemma ctl_build_decrypt p : pres ctl_eq (build_decrypt E keys p).
Proof. unfold build_decrypt. pres_auto. Qed.

Lemma ctl_post_decrypt p : pres ctl_eq (post_decrypt p).
Proof. unfold post_decrypt. pres_auto. Qed.

(** The body of the [try] emits nothing and counts one success exactly
    when it ends without an exception. *)
Lemma item_body_spec p s :
  signals (snd (item_body E mode keys p s)) = signals s
  /\ total_files (snd (item_body E mode keys p s)) = total_files s
  /\ success_count (snd (item_body E mode keys p s))
     = success_count s + ok_count (fst (item_body E mode keys p s)).
Proof.
  unfold item_body. rewrite bind_run.
  set (build := match mode with
                | Encrypt => build_encrypt E keys p
                | Decrypt => build_decrypt E keys p
                end).
  assert (Hb : pres ctl_eq build)
    by (subst build; destruct mode;
        [apply ctl_build_encrypt|apply ctl_build_decrypt]).
  specialize (Hb s). destruct (build s) as [[e|cmd] s1]; simpl in Hb.
  { destruct Hb as (? & ? & ?). simpl. repeat split; (congruence || lia). }
  rewrite bind_run. pose proof (ctl_popen E cmd s1) as Hp.
  destruct (popen E cmd s1) as [[e|[rc err]] s2]; simpl in Hp.
  { destruct Hb as (? & ? & ?), Hp as (? & ? & ?).
    simpl. repeat split; (congruence || lia). }
  assert (Hs2 : ctl_eq s s2) by (etrans; [exact Hb|exact Hp]).
  clear Hb Hp. case_bool_decide.
  - rewrite bind_run.
    set (post := match mode with
                 | Encrypt => mret tt
                 | Decrypt => post_decrypt p
                 end).
    assert (Hpost : pres ctl_eq post)
      by (subst post; destruct mode;
          [apply pres_ret, _|apply ctl_post_decrypt]).
    specialize (Hpost s2). destruct (post s2) as [[e|[]] s3]; simpl in Hpost.
    + assert (H3 : ctl_eq s s3) by (etrans; eauto).
      destruct H3 as (? & ? & ?). simpl. repeat split; (congruence || lia).
    + assert (H3 : ctl_eq s s3) by (etrans; eauto).
      destruct H3 as (? & ? & ?). simpl. repeat split; (congruence || lia).
  - destruct Hs2 as (? & ? & ?). simpl. repeat split; (congruence || lia).
Qed.

(** The [finally] clause emits the progress value and cannot raise once the
    total is positive. *)
Lemma ctl_remove_temps : pres ctl_eq (remove_temps mode).
Proof. unfold remove_temps. pres_auto. Qed.

Lemma noraise_remove_temps : noraise (remove_temps mode).
Proof. unfold remove_temps. noraise_auto. Qed.

Lemma item_finally_spec i s :
  total_files s <> 0 ->
  fst (item_finally mode i s) = inr tt
  /\ signals (snd (item_finally mode i s))
     = signals s
         ++ [SigProgress (Qmake (Z.of_nat (i + 1)) (Pos.of_nat (total_files s)))]
  /\ total_files (snd (item_finally mode i s)) = total_files s
  /\ success_count (snd (item_finally mode i s)) = success_count s.
Proof.
  intros Hn. unfold item_finally, progress_value.
  rewrite !bind_run. cbn [gets fst snd].
  destruct (total_files s) as [|n] eqn:Hn'; [done|]. clear Hn.
  cbn [mret M_ret]. rewrite !bind_run. cbn [emit modify].
  set (s1 := set_signals _ s).
  pose proof (ctl_remove_temps s1) as (Ha & Hb & Hc).
  pose proof (noraise_unit _ s1 noraise_remove_temps) as Hr.
  destruct (remove_temps mode s1) as [r s2]. simpl in *. subst r.
  split; [done|]. rewrite Ha, Hb, Hc. subst s1. simpl. by rewrite Hn'.
Qed.

(** One turn of the loop never raises; it reports the item's error, if
    any, then the progress. *)
Lemma item_step_spec i p s :
  total_files s <> 0 ->
  fst (item_step E mode keys i p s) = inr tt
  /\ signals (snd (item_step E mode keys i p s))
     = signals s ++ item_report (Path.basename p) (item_outcome E mode keys p s)
         ++ [SigProgress (Qmake (Z.of_nat (i + 1)) (Pos.of_nat (total_files s)))]
  /\ total_files (snd (item_step E mode keys i p s)) = total_files s
  /\ success_count (snd (item_step E mode keys i p s))
     = success_count s + ok_count (item_outcome E mode keys p s).
Proof.
  intros Hn. unfold item_step, item_outcome. rewrite bind_run.
  cbn [modify]. unfold try_finally, try_except.
  pose proof (item_body_spec p (reset_locals s)) as (Hsig & Htot & Hsuc).
  destruct (item_body E mode keys p (reset_locals s)) as [[e|[]] s1];
    simpl in Hsig, Htot, Hsuc.
  - cbn [emit modify].
    set (s2 := set_signals _ s1).
    destruct (item_finally_spec i s2) as (Hr & Hs & Ht & Hc).
    { subst s2. simpl. by rewrite Htot. }
    destruct (item_finally mode i s2) as [r s3]. simpl in *. subst r.
    cbn [fst snd]. rewrite Hs, Ht, Hc, Hsig, Htot, Hsuc, <- app_assoc.
    repeat split; lia.
  - destruct (item_finally_spec i s1) as (Hr & Hs & Ht & Hc).
    { by rewrite Htot. }
    destruct (item_finally mode i s1) as [r s3]. simpl in *. subst r.
    cbn [fst snd]. rewrite Hs, Ht, Hc, Hsig, Htot, Hsuc. done.
Qed.

Lemma run_items_snoc l p i s :
run_items E mode keys i (l ++ [p]) s
= snd (item_step E mode keys (i + length l) p (run_items E mode keys i l s)).
Proof.
revert i s. induction l as [|x l IH]; intros i s; simpl.
- by rewrite Nat.add_0_r.
- rewrite IH. by replace (S i + length l) with (i + S (length l)) by lia.
Qed.

Lemma state_before_succ files k p s :
files !! k = Some p ->
state_before E mode keys files (S k) s
= snd (item_step E mode keys k p (state_before E mode keys files k s)).
Proof.
intros Hk. unfold state_before. rewrite (take_S_r _ _ _ Hk), run_items_snoc.
simpl. rewrite length_take_le; [done|].
apply lookup_lt_Some in Hk. lia.
Qed.

Lemma state_before_all files s :
state_before E mode keys files (length files) s = run_items E mode keys 0 files s.
Proof. unfold state_before. by rewrite firstn_all. Qed.

(** The loop keeps the total, never raises, and emits one progress value per
  item. *)
Lemma run_items_spec files :
forall i s,
  total_files s <> 0 ->
  fst (for_enumerate (item_step E mode keys) i files s) = inr tt
  /\ snd (for_enumerate (item_step E mode keys) i files s)
     = run_items E mode keys i files s
  /\ total_files (run_items E mode keys i files s) = total_files s
  /\ success_count s <= success_count (run_items E mode keys i files s)
     <= success_count s + length files
  /\ progress_values (signals (run_items E mode keys i files s))
     = progress_values (signals s)
         ++ map (fun j => ratio (j + 1) (total_files s)) (seq i (length files)).
Proof.
induction files as [|p files IH]; intros i s Hn.
- simpl. rewrite app_nil_r. repeat split; lia.
- cbn [for_enumerate run_items]. rewrite bind_run.
  destruct (item_step_spec i p s Hn) as (Hr & Hs & Ht & Hc).
  destruct (item_step E mode keys i p s) as [r s1]. simpl in Hr, Hs, Ht, Hc.
  subst r. cbn [snd].
  destruct (IH (S i) s1) as (Hr' & Hs' & Ht' & Hc' & Hp'); [congruence|].
  rewrite Hr', Hs', Ht', Hp', Ht, Hs. repeat split; try done.
  + lia.
  + destruct (item_outcome _ _ _ _ _); simpl in *; lia.
  + unfold progress_values. rewrite !omap_app. cbn [length seq map].
    rewrite <- !app_assoc. f_equal.
    destruct (item_outcome _ _ _ _ _); reflexivity.
Qed.

End YubiageLoop.

Section YubiageRun.

Import Yubiage.
Context (E : Env) (mode : Mode) (keys : list str).

(** [run] as a whole: the loop over all the items, then the result. *)
Lemma yubiage_run_spec files s0 :
  let sN := run_items E mode keys 0 files (run_start files s0) in
  fst (run E mode keys files s0) = inr tt
  /\ fst (run_loop E mode keys files (run_start files s0)) = inr tt
  /\ snd (run E mode keys files s0)
     = set_signals
         (signals sN ++ [SigFinished (success_count sN) (length files)
                                     (bool_decide (mode = Encrypt))]) sN
  /\ total_files sN = length files
  /\ success_count sN <= length files
  /\ progress_values (signals sN)
     = progress_values (signals s0)
         ++ map (fun j => ratio (j + 1) (length files)) (seq 0 (length files)).
Proof.
  intros sN.
  assert (Hloop : run_loop E mode keys files (run_start files s0) = (inr tt, sN)
                  /\ total_files sN = length files
                  /\ success_count sN <= length files
                  /\ progress_values (signals sN)
                     = progress_values (signals s0)
                         ++ map (fun j => ratio (j + 1) (length files))
                                (seq 0 (length files))).
  { unfold run_loop. destruct files as [|p files].
    - subst sN. simpl. rewrite app_nil_r. repeat split; lia.
    - destruct (run_items_spec E mode keys (p :: files) 0
                  (run_start (p :: files) s0)) as (Hr & Hs & Ht & Hc & Hp); [done|].
      fold sN in Hs, Ht, Hc, Hp. split; [|repeat split; try done].
      + rewrite (surjective_pairing (for_enumerate _ _ _ _)). by rewrite Hr, Hs.
      + simpl in Hc. simpl. lia. }
  destruct Hloop as (Hloop & Ht & Hc & Hp).
  assert (Hrun : run E mode keys files s0
                 = (inr tt,
                    set_signals
                      (signals sN ++ [SigFinished (success_count sN) (length files)
                                        (bool_decide (mode = Encrypt))]) sN)).
  { unfold run. msteps.
    change (set_total_files (length files) (set_success_count 0 s0))
      with (run_start files s0).
    unfold try_finally, try_except. rewrite Hloop. msteps. by rewrite Ht. }
  rewrite Hrun, Hloop. done.
Qed.

End YubiageRun.

(** ** The loop of [ageyub_ui.py] *)

Section AgeyubLoop.

Import Ageyub.
Context (E : Env) (mode : Mode) (keys : list str).

Lemma ctl_os_mkdir p : pres ctl_eq (os_mkdir p).
Proof. intros s. unfold os_mkdir. by repeat case_match. Qed.

Lemma ctl_os_makedirs fuel : forall name, pres ctl_eq (os_makedirs fuel name).
Proof.
  induction fuel as [|k IH]; intros name; simpl; [apply pres_ret, _|].
  destruct (if Str.truthy _ then _ else _) as [head tail].
  pres_step. { pres_step. } pres_step.
  - destruct (_ && _); [|pres_step].
    pres_step; [|pres_step]. pres_step; [apply IH|]. destruct e; pres_step.
  - destruct x0; [pres_step|]. pres_step; [apply ctl_os_mkdir|].
    pres_auto.
Qed.

Lemma ctl_a_build_encrypt p : pres ctl_eq (build_encrypt E keys p).
Proof. unfold build_encrypt. pres_auto. Qed.

Lemma ctl_a_build_decrypt p : pres ctl_eq (build_decrypt E keys p).
Proof. unfold build_decrypt. pres_auto. Qed.

Lemma ctl_a_post_encrypt o : pres ctl_eq (post_encrypt o).
Proof.
  unfold post_encrypt. pres_step; [pres_step|]. destruct (Fs.isdir _ _); [|pres_step].
  pres_step; [pres_step|]. destruct (Fs.exists_ _ _); [|pres_step].
  pres_step; [apply ctl_os_makedirs|pres_step].
Qed.

Lemma ctl_a_post_decrypt p : pres ctl_eq (post_decrypt p).
Proof. unfold post_decrypt. pres_auto. Qed.

Lemma ctl_a_remove_temps : pres ctl_eq (remove_temps mode).
Proof. unfold remove_temps. pres_auto. Qed.

Lemma noraise_a_remove_temps : noraise (remove_temps mode).
Proof. unfold remove_temps. noraise_auto. Qed.

Lemma a_item_body_spec o p s :
  signals (snd (item_body E mode keys o p s)) = signals s
  /\ total_files (snd (item_body E mode keys o p s)) = total_files s
  /\ success_count (snd (item_body E mode keys o p s))
     = success_count s + ok_count (fst (item_body E mode keys o p s)).
Proof.
  unfold item_body. rewrite bind_run.
  set (build := match mode with
                | Encrypt => build_encrypt E keys p
                | Decrypt => build_decrypt E keys p
                end).
  assert (Hb : pres ctl_eq build)
    by (subst build; destruct mode;
        [apply ctl_a_build_encrypt|apply ctl_a_build_decrypt]).
  specialize (Hb s). destruct (build s) as [[e|cmd] s1]; simpl in Hb.
  { destruct Hb as (? & ? & ?). simpl. repeat split; (congruence || lia). }
  rewrite bind_run. pose proof (ctl_popen E cmd s1) as Hp.
  destruct (popen E cmd s1) as [[e|[rc err]] s2]; simpl in Hp.
  { destruct Hb as (? & ? & ?), Hp as (? & ? & ?).
    simpl. repeat split; (congruence || lia). }
  assert (Hs2 : ctl_eq s s2) by (etrans; [exact Hb|exact Hp]).
  clear Hb Hp. case_bool_decide.
  - rewrite bind_run.
    set (post := match mode with
                 | Encrypt => post_encrypt o
                 | Decrypt => post_decrypt p
                 end).
    assert (Hpost : pres ctl_eq post)
      by (subst post; destruct mode;
          [apply ctl_a_post_encrypt|apply ctl_a_post_decrypt]).
    specialize (Hpost s2). destruct (post s2) as [[e|[]] s3]; simpl in Hpost.
    + assert (H3 : ctl_eq s s3) by (etrans; eauto).
      destruct H3 as (? & ? & ?). simpl. repeat split; (congruence || lia).
    + assert (H3 : ctl_eq s s3) by (etrans; eauto).
      destruct H3 as (? & ? & ?). simpl. repeat split; (congruence || lia).
  - destruct Hs2 as (? & ? & ?). simpl. repeat split; (congruence || lia).
Qed.

Lemma a_item_finally_spec i s :
  total_files s <> 0 ->
  fst (item_finally mode i s) = inr tt
  /\ signals (snd (item_finally mode i s))
     = signals s ++ [SigProgress (ratio (i + 1) (total_files s))]
  /\ total_files (snd (item_finally mode i s)) = total_files s
  /\ success_count (snd (item_finally mode i s)) = success_count s.
Proof.
  intros Hn. unfold item_finally, progress_value. msteps.
  destruct (total_files s) as [|n] eqn:Hn'; [done|]. clear Hn. msteps.
  set (s1 := set_signals _ s).
  pose proof (ctl_a_remove_temps s1) as (Ha & Hb & Hc).
  pose proof (noraise_unit _ s1 noraise_a_remove_temps) as Hr.
  destruct (remove_temps mode s1) as [r s2]. simpl in *. subst r.
  split; [done|]. rewrite Ha, Hb, Hc. subst s1. simpl. by rewrite Hn'.
Qed.

(** One turn of the loop never raises when the path is in the map; it
    reports the item's error, if any, then the progress. *)
Lemma a_item_step_spec fmap i p o s :
  fmap !! p = Some o ->
  total_files s <> 0 ->
  fst (item_step E mode keys fmap i p s) = inr tt
  /\ signals (snd (item_step E mode keys fmap i p s))
     = signals s ++ item_report (Path.basename p) (item_outcome E mode keys o p s)
         ++ [SigProgress (ratio (i + 1) (total_files s))]
  /\ total_files (snd (item_step E mode keys fmap i p s)) = total_files s
  /\ success_count (snd (item_step E mode keys fmap i p s))
     = success_count s + ok_count (item_outcome E mode keys o p s).
Proof.
  intros Hm Hn. unfold item_step, item_outcome. rewrite Hm. msteps.
  unfold try_finally, try_except.
  pose proof (a_item_body_spec o p (reset_locals s)) as (Hsig & Htot & Hsuc).
  destruct (item_body E mode keys o p (reset_locals s)) as [[e|[]] s1];
    simpl in Hsig, Htot, Hsuc.
  - cbn [emit modify].
    set (s2 := set_signals _ s1).
    destruct (a_item_finally_spec i s2) as (Hr & Hs & Ht & Hc).
    { subst s2. simpl. by rewrite Htot. }
    destruct (item_finally mode i s2) as [r s3]. simpl in *. subst r.
    cbn [fst snd]. rewrite Hs, Ht, Hc, Hsig, Htot, Hsuc, <- app_assoc.
    repeat split; lia.
  - destruct (a_item_finally_spec i s1) as (Hr & Hs & Ht & Hc).
    { by rewrite Htot. }
    destruct (item_finally mode i s1) as [r s3]. simpl in *. subst r.
    cbn [fst snd]. rewrite Hs, Ht, Hc, Hsig, Htot, Hsuc. done.
Qed.

Lemma a_run_items_snoc fmap l p i s :
  run_items E mode keys fmap i (l ++ [p]) s
  = snd (item_step E mode keys fmap (i + length l) p
           (run_items E mode keys fmap i l s)).
Proof.
  revert i s. induction l as [|x l IH]; intros i s; simpl.
  - by rewrite Nat.add_0_r.
  - rewrite IH. by replace (S i + length l) with (i + S (length l)) by lia.
Qed.

Lemma a_state_before_succ fmap files k p s :
  files !! k = Some p ->
  state_before E mode keys fmap files (S k) s
  = snd (item_step E mode keys fmap k p (state_before E mode keys fmap files k s)).
Proof.
  intros Hk. unfold state_before. rewrite (take_S_r _ _ _ Hk), a_run_items_snoc.
  simpl. rewrite length_take_le; [done|].
  apply lookup_lt_Some in Hk. lia.
Qed.

Lemma a_run_items_spec fmap files :
  (forall p, p ∈ files -> is_Some (fmap !! p)) ->
  forall i s,
    total_files s <> 0 ->
    fst (for_enumerate (item_step E mode keys fmap) i files s) = inr tt
    /\ snd (for_enumerate (item_step E mode keys fmap) i files s)
       = run_items E mode keys fmap i files s
    /\ total_files (run_items E mode keys fmap i files s) = total_files s
    /\ success_count s <= success_count (run_items E mode keys fmap i files s)
       <= success_count s + length files
    /\ progress_values (signals (run_items E mode keys fmap i files s))
       = progress_values (signals s)
           ++ map (fun j => ratio (j + 1) (total_files s)) (seq i (length files)).
Proof.
  induction files as [|p files IH]; intros Hmap i s Hn.
  - simpl. rewrite app_nil_r. repeat split; lia.
  - cbn [for_enumerate run_items]. rewrite bind_run.
    destruct (Hmap p) as [o Ho]; [by left|].
    destruct (a_item_step_spec fmap i p o s Ho Hn) as (Hr & Hs & Ht & Hc).
    destruct (item_step E mode keys fmap i p s) as [r s1].
    simpl in Hr, Hs, Ht, Hc. subst r. cbn [snd].
    destruct (IH (fun q Hq => Hmap q (list_elem_of_further _ _ _ Hq)) (S i) s1)
      as (Hr' & Hs' & Ht' & Hc' & Hp'); [congruence|].
    rewrite Hr', Hs', Ht', Hp', Ht, Hs. repeat split; try done.
    + lia.
    + destruct (item_outcome _ _ _ _ _ _); simpl in *; lia.
    + unfold progress_values. rewrite !omap_app. cbn [length seq map].
      rewrite <- !app_assoc. f_equal.
      destruct (item_outcome _ _ _ _ _ _); reflexivity.
Qed.

End AgeyubLoop.

Section AgeyubRun.

Import Ageyub.
Context (E : Env) (mode : Mode) (keys : list str).

(** Archiving leaves the counters, emits nothing, and keeps what is a
    directory. *)
Lemma create_tar_archive_spec d s :
  signals (snd (_create_tar_archive E d s)) = signals s
  /\ total_files (snd (_create_tar_archive E d s)) = total_files s
  /\ success_count (snd (_create_tar_archive E d s)) = success_count s
  /\ forall q, Fs.isdir (fs (snd (_create_tar_archive E d s))) q = Fs.isdir (fs s) q.
Proof.
  unfold _create_tar_archive, try_except, open_w, flush, Fs.isdir. msteps.
  destruct (fs s !! tar_name E d) as [[data|]|] eqn:Ht; msteps; simpl.
  - destruct (tar_gz E _ d) as [msg|data']; msteps; simpl.
    + repeat split; try done. intros q.
      destruct (decide (q = tar_name E d)) as [->|Hq];
        [by rewrite lookup_insert_eq, Ht|by rewrite lookup_insert_ne].
    + rewrite lookup_insert_eq. msteps. simpl. repeat split; try done.
      intros q. rewrite insert_insert_eq.
      destruct (decide (q = tar_name E d)) as [->|Hq];
        [by rewrite lookup_insert_eq, Ht|by rewrite lookup_insert_ne].
  - done.
  - destruct (tar_gz E _ d) as [msg|data']; msteps; simpl.
    + repeat split; try done. intros q.
      destruct (decide (q = tar_name E d)) as [->|Hq];
        [by rewrite lookup_insert_eq, Ht|by rewrite lookup_insert_ne].
    + rewrite lookup_insert_eq. msteps. simpl. repeat split; try done.
      intros q. rewrite insert_insert_eq.
      destruct (decide (q = tar_name E d)) as [->|Hq];
        [by rewrite lookup_insert_eq, Ht|by rewrite lookup_insert_ne].
Qed.

Lemma filter_isdir_ext (f g : FS) (l : list str) :
  (forall q, Fs.isdir f q = Fs.isdir g q) ->
  List.filter (Fs.isdir f) l = List.filter (Fs.isdir g) l.
Proof. intros H. induction l as [|x l IH]; simpl; [done|]. by rewrite H, IH. Qed.

(** The archiving loop: one progress value of 1/100 per directory; when it
    ends normally there is one processed file per dropped path, each with its
    entry in the map. *)
Lemma archive_loop_spec files :
  forall acc fmap s,
    total_files (snd (archive_loop E files acc fmap s)) = total_files s
    /\ success_count (snd (archive_loop E files acc fmap s)) = success_count s
    /\ match fst (archive_loop E files acc fmap s) with
       | inr (processed, fmap') =>
           length processed = length acc + length files
           /\ ((forall p, p ∈ acc -> is_Some (fmap !! p)) ->
               forall p, p ∈ processed -> is_Some (fmap' !! p))
           /\ signals (snd (archive_loop E files acc fmap s))
              = signals s
                  ++ replicate (length (List.filter (Fs.isdir (fs s)) files))
                               (SigProgress (Qmake 1 100))
       | inl e =>
           exists k, 1 <= k
             /\ signals (snd (archive_loop E files acc fmap s))
                = signals s ++ replicate k (SigProgress (Qmake 1 100))
       end.
Proof.
  induction files as [|p files IH]; intros acc fmap s.
  - simpl. rewrite app_nil_r. repeat split; try done; lia.
  - cbn [archive_loop]. msteps. destruct (Fs.isdir (fs s) p) eqn:Hd.
    + msteps. set (s1 := set_signals _ s).
      pose proof (create_tar_archive_spec p s1) as (Hsig & Htot & Hsuc & Hdir).
      destruct (_create_tar_archive E p s1) as [[e|tar] s2]; simpl in *.
      * rewrite Htot, Hsuc. repeat split; try done. exists 1. split; [lia|].
        by rewrite Hsig.
      * specialize (IH (acc ++ [tar]) (<[tar := p]> fmap) s2).
        destruct IH as (Ht & Hs & IH). rewrite Ht, Hs, Htot, Hsuc.
        repeat split; try done.
        destruct (fst (archive_loop E files _ _ s2)) as [e|[processed fmap']].
        -- destruct IH as (k & Hk & IH). exists (S k). split; [lia|].
           rewrite IH, Hsig. simpl. by rewrite <- app_assoc.
        -- destruct IH as (Hlen & Hmap & IH). rewrite length_app in Hlen.
           simpl in Hlen. split; [simpl; lia|]. split.
           ++ intros Hacc. apply Hmap. intros q [Hq|Hq%list_elem_of_singleton]%elem_of_app.
              ** destruct (decide (tar = q)) as [->|Hne];
                   [by rewrite lookup_insert_eq|].
                 rewrite lookup_insert_ne by done. by apply Hacc.
              ** subst q. by rewrite lookup_insert_eq.
           ++ rewrite IH, Hsig. rewrite Hd. simpl. rewrite <- app_assoc. simpl.
              by rewrite (filter_isdir_ext _ _ _ Hdir).
    + specialize (IH (acc ++ [p]) (<[p := p]> fmap) s).
      destruct IH as (Ht & Hs & IH). rewrite Ht, Hs. repeat split; try done.
      destruct (fst (archive_loop E files _ _ s)) as [e|[processed fmap']].
      * done.
      * destruct IH as (Hlen & Hmap & IH). rewrite length_app in Hlen.
        simpl in Hlen. split; [simpl; lia|]. split.
        -- intros Hacc. apply Hmap. intros q [Hq|Hq%list_elem_of_singleton]%elem_of_app.
           ++ destruct (decide (p = q)) as [->|Hne];
                [by rewrite lookup_insert_eq|].
              rewrite lookup_insert_ne by done. by apply Hacc.
           ++ subst q. by rewrite lookup_insert_eq.
        -- rewrite IH. simpl. by rewrite Hd.
Qed.

Lemma foldl_insert_lookup (l : list str) :
  forall (m : gmap str str) p,
    p ∈ l \/ is_Some (m !! p) ->
    is_Some (foldl (fun m p => <[p := p]> m) m l !! p).
Proof.
  induction l as [|x l IH]; intros m p [Hp|Hp]; simpl.
  - by apply elem_of_nil in Hp.
  - done.
  - apply IH. apply elem_of_cons in Hp as [->|Hp]; [right|by left].
    by rewrite lookup_insert_eq.
  - apply IH. right. destruct (decide (x = p)) as [->|Hne];
      [by rewrite lookup_insert_eq|by rewrite lookup_insert_ne].
Qed.

(** Pre-processing: the counters stay; when it ends normally there is one
    processed file per dropped path, each one in the map, and one progress
    value of 1/100 per archived directory. *)
Lemma preprocess_spec files s :
  total_files (snd (preprocess E mode files s)) = total_files s
  /\ success_count (snd (preprocess E mode files s)) = success_count s
  /\ match fst (preprocess E mode files s) with
     | inr (processed, fmap) =>
         length processed = length files
         /\ (forall p, p ∈ processed -> is_Some (fmap !! p))
         /\ signals (snd (preprocess E mode files s))
            = signals s
                ++ replicate
                     (match mode with
                      | Encrypt => length (List.filter (Fs.isdir (fs s)) files)
                      | Decrypt => 0
                      end)
                     (SigProgress (Qmake 1 100))
     | inl e =>
         exists k, 1 <= k
           /\ signals (snd (preprocess E mode files s))
              = signals s ++ replicate k (SigProgress (Qmake 1 100))
     end.
Proof.
  unfold preprocess. destruct mode.
  - pose proof (archive_loop_spec files [] ∅ s) as (Ht & Hs & H).
    repeat split; try done.
    destruct (fst (archive_loop E files [] ∅ s)) as [e|[processed fmap]]; [done|].
    destruct H as (Hlen & Hmap & Hsig). repeat split; try done.
    apply Hmap. intros p Hp. by apply elem_of_nil in Hp.
  - simpl. rewrite app_nil_r. repeat split; try done.
    intros p Hp. apply foldl_insert_lookup. by left.
Qed.

Lemma ctl_cleanup : pres ctl_eq cleanup.
Proof.
  unfold cleanup, for_each. pres_step; [pres_step|].
  apply pres_for_enumerate; [apply _|]. intros _ p. pres_step.
Qed.

Lemma noraise_for_enumerate {A} (body : nat -> A -> M unit) (l : list A) :
  (forall i x, noraise (body i x)) -> forall i, noraise (for_enumerate body i l).
Proof.
  intros Hb. induction l as [|x l IH]; intros i; simpl.
  - apply noraise_ret.
  - apply noraise_bind; [apply Hb|]. intros _. apply IH.
Qed.

Lemma noraise_cleanup : noraise cleanup.
Proof.
  unfold cleanup, for_each. apply noraise_bind; [apply noraise_gets|].
  intros l. apply noraise_for_enumerate. intros _ p. apply noraise_try_pass.
Qed.

(** [run] as a whole.  Either pre-processing raises, and the result is
    (0, 0) after a "Pre-process" error; or every processed file gets its
    turn and the result counts the successes among them. *)
Lemma ageyub_run_spec files s0 :
  fst (run E mode keys files s0) = inr tt
  /\ match preprocess E mode files (run_start s0) with
     | (inl e, s1) =>
         signals (snd (run E mode keys files s0))
         = signals s1
             ++ [SigError (py "Pre-process") (py "Pre-process Error: " ++ exn_str e);
                 SigFinished 0 0 (bool_decide (mode = Encrypt))]
     | (inr (processed, fmap), s1) =>
         let sN := run_items E mode keys fmap 0 processed
                     (set_total_files (length processed) s1) in
         signals (snd (run E mode keys files s0))
         = signals sN ++ [SigFinished (success_count sN) (length processed)
                                      (bool_decide (mode = Encrypt))]
         /\ fs (snd (run E mode keys files s0)) = fs (snd (cleanup sN))
         /\ length processed = length files
         /\ success_count sN <= length processed
         /\ progress_values (signals sN)
            = progress_values (signals s1)
                ++ map (fun j => ratio (j + 1) (length processed))
                       (seq 0 (length processed))
     end.
Proof.
  unfold run. msteps.
  change (set_total_files 0 (set_success_count 0 s0)) with (run_start s0).
  unfold try_finally, try_except, run_try. msteps.
  pose proof (preprocess_spec files (run_start s0)) as (Ht & Hs & Hp).
  destruct (preprocess E mode files (run_start s0)) as [[e|[processed fmap]] s1];
    simpl in Ht, Hs, Hp.
  - msteps. simpl. rewrite Hs. split; [done|]. by rewrite <- app_assoc.
  - msteps. destruct Hp as (Hlen & Hmap & Hsig).
    set (s2 := set_total_files (length processed) s1).
    destruct processed as [|p processed].
    + simpl. msteps.
      pose proof (ctl_cleanup s2) as (Ha & Hb & Hc).
      pose proof (noraise_unit _ s2 noraise_cleanup) as Hr.
      destruct (cleanup s2) as [r s3]. simpl in Ha, Hb, Hc, Hr. subst r.
      msteps. simpl. rewrite Ha, Hb, Hc. subst s2. simpl. rewrite Hs.
      rewrite app_nil_r. repeat split; try done; lia.
    + destruct (a_run_items_spec E mode keys fmap (p :: processed) Hmap 0 s2)
        as (Hr & Hsn & Htn & Hcn & Hpn); [done|].
      rewrite (surjective_pairing (for_enumerate _ _ _ _)), Hr, Hsn. msteps.
      set (sN := run_items _ _ _ _ _ _ _) in *.
      pose proof (ctl_cleanup sN) as (Ha & Hb & Hc).
      pose proof (noraise_unit _ sN noraise_cleanup) as Hrc.
      destruct (cleanup sN) as [r s3]. simpl in Ha, Hb, Hc, Hrc. subst r.
      msteps. simpl. rewrite Ha, Hb, Hc, Htn. subst s2. simpl in *.
      rewrite Hs in Hcn. repeat split; try done; lia.
Qed.

End AgeyubRun.

(** ** Every item gets its turn *)

Section YubiageTurns.

Import Yubiage.
Context (E : Env) (mode : Mode) (keys : list str).

Lemma run_items_app l1 l2 i s :
  run_items E mode keys i (l1 ++ l2) s
  = run_items E mode keys (i + length l1) l2 (run_items E mode keys i l1 s).
Proof.
  revert i s. induction l1 as [|x l1 IH]; intros i s; simpl.
  - by rewrite Nat.add_0_r.
  - rewrite IH. by replace (S i + length l1) with (i + S (length l1)) by lia.
Qed.

Lemma run_items_grow files :
  forall i s, total_files s <> 0 ->
    signals s `prefix_of` signals (run_items E mode keys i files s).
Proof.
  induction files as [|p files IH]; intros i s Hn; simpl; [done|].
  destruct (item_step_spec E mode keys i p s Hn) as (_ & Hs & Ht & _).
  etrans; [|apply IH; congruence]. rewrite Hs. by apply prefix_app_r.
Qed.

Lemma state_before_total files k s :
  total_files s <> 0 ->
  total_files (state_before E mode keys files k s) = total_files s.
Proof.
  intros Hn. unfold state_before.
  by destruct (run_items_spec E mode keys (take k files) 0 s Hn) as (_&_&?&_).
Qed.

Lemma state_before_prefix files k s :
  total_files s <> 0 ->
  signals (state_before E mode keys files k s)
    `prefix_of` signals (run_items E mode keys 0 files s).
Proof.
  intros Hn. unfold state_before.
  rewrite <- (take_drop k files) at 2. rewrite run_items_app.
  apply run_items_grow. fold (state_before E mode keys files k s).
  by rewrite state_before_total.
Qed.

End YubiageTurns.

Section AgeyubTurns.

Import Ageyub.
Context (E : Env) (mode : Mode) (keys : list str) (fmap : gmap str str).

Lemma a_run_items_app l1 l2 i s :
  run_items E mode keys fmap i (l1 ++ l2) s
  = run_items E mode keys fmap (i + length l1) l2
      (run_items E mode keys fmap i l1 s).
Proof.
  revert i s. induction l1 as [|x l1 IH]; intros i s; simpl.
  - by rewrite Nat.add_0_r.
  - rewrite IH. by replace (S i + length l1) with (i + S (length l1)) by lia.
Qed.

Lemma a_run_items_grow files :
  (forall p, p ∈ files -> is_Some (fmap !! p)) ->
  forall i s, total_files s <> 0 ->
    signals s `prefix_of` signals (run_items E mode keys fmap i files s).
Proof.
  induction files as [|p files IH]; intros Hmap i s Hn; simpl; [done|].
  destruct (Hmap p) as [o Ho]; [by left|].
  destruct (a_item_step_spec E mode keys fmap i p o s Ho Hn) as (_ & Hs & Ht & _).
  etrans; [|apply IH; [|congruence]].
  - rewrite Hs. by apply prefix_app_r.
  - intros q Hq. apply Hmap. by right.
Qed.

Lemma a_state_before_total files k s :
  (forall p, p ∈ files -> is_Some (fmap !! p)) ->
  total_files s <> 0 ->
  total_files (state_before E mode keys fmap files k s) = total_files s.
Proof.
  intros Hmap Hn. unfold state_before.
  destruct (a_run_items_spec E mode keys fmap (take k files)) with (i := 0) (s := s)
    as (_&_&?&_); try done.
  intros p Hp. apply Hmap. by apply (subseteq_take k files).
Qed.

Lemma a_state_before_prefix files k s :
  (forall p, p ∈ files -> is_Some (fmap !! p)) ->
  total_files s <> 0 ->
  signals (state_before E mode keys fmap files k s)
    `prefix_of` signals (run_items E mode keys fmap 0 files s).
Proof.
  intros Hmap Hn. unfold state_before.
  rewrite <- (take_drop k files) at 2. rewrite a_run_items_app.
  apply a_run_items_grow.
  - intros p Hp. apply Hmap. by apply (subseteq_drop k files).
  - fold (state_before E mode keys fmap files k s).
    by rewrite a_state_before_total.
Qed.

End AgeyubTurns.

(** C1.  In both workers an exception raised while one item is processed
    stays at that item: the turn of the loop itself ends normally, the error
    is emitted under the base name of the item's path and is followed by the
    progress signal, the next item starts from the state this one left, the
    loop runs to the last item and [run] ends normally.  (In [ageyub_ui.py]
    this is the loop entered after pre-processing.) *)
Theorem C1_item_failure_is_local :
  (forall E mode keys files s0 k p,
      files !! k = Some p ->
      let s1 := Yubiage.run_start files s0 in
      let sk := Yubiage.state_before E mode keys files k s1 in
      let sk' := Yubiage.state_before E mode keys files (S k) s1 in
      fst (Yubiage.run E mode keys files s0) = inr tt
      /\ Yubiage.run_loop E mode keys files s1
         = (inr tt, Yubiage.state_before E mode keys files (length files) s1)
      /\ Yubiage.item_step E mode keys k p sk = (inr tt, sk')
      /\ signals sk'
         = signals sk
             ++ item_report (Path.basename p) (Yubiage.item_outcome E mode keys p sk)
             ++ [SigProgress (ratio (k + 1) (length files))]
      /\ forall e, Yubiage.item_outcome E mode keys p sk = inl e ->
           SigError (Path.basename p) (exn_str e)
             ∈ signals (snd (Yubiage.run E mode keys files s0)))
  /\ (forall E mode keys files s0 processed fmap s1 k p,
      Ageyub.preprocess E mode files (Ageyub.run_start s0)
        = (inr (processed, fmap), s1) ->
      processed !! k = Some p ->
      let s2 := set_total_files (length processed) s1 in
      let sk := Ageyub.state_before E mode keys fmap processed k s2 in
      let sk' := Ageyub.state_before E mode keys fmap processed (S k) s2 in
      fst (Ageyub.run E mode keys files s0) = inr tt
      /\ for_enumerate (Ageyub.item_step E mode keys fmap) 0 processed s2
         = (inr tt, Ageyub.state_before E mode keys fmap processed
                      (length processed) s2)
      /\ Ageyub.item_step E mode keys fmap k p sk = (inr tt, sk')
      /\ is_Some (fmap !! p)
      /\ forall o, fmap !! p = Some o ->
           signals sk'
           = signals sk
               ++ item_report (Path.basename p)
                              (Ageyub.item_outcome E mode keys o p sk)
               ++ [SigProgress (ratio (k + 1) (length processed))]
           /\ forall e, Ageyub.item_outcome E mode keys o p sk = inl e ->
                SigError (Path.basename p) (exn_str e)
                  ∈ signals (snd (Ageyub.run E mode keys files s0))).
Proof.
  split.
  - intros E mode keys files s0 k p Hk s1 sk sk'.
    assert (Hlen : length files <> 0)
      by (apply lookup_lt_Some in Hk; lia).
    assert (Hn : total_files s1 <> 0) by done.
    destruct (yubiage_run_spec E mode keys files s0) as (Hr & Hl & Hs & _).
    assert (Hsk : total_files sk = length files)
      by (subst sk; by rewrite state_before_total).
    destruct (item_step_spec E mode keys k p sk) as (Hi & Hsig & _);
      [by rewrite Hsk|].
    assert (Hstep : sk' = snd (Yubiage.item_step E mode keys k p sk))
      by (subst sk sk'; by apply state_before_succ).
    split; [done|]. split.
    { rewrite state_before_all.
      destruct (run_items_spec E mode keys files 0 s1 Hn) as (? & ? & _).
      unfold Yubiage.run_loop.
      by rewrite (surjective_pairing (for_enumerate _ _ _ _)); f_equal. }
    split.
    { by rewrite (surjective_pairing (Yubiage.item_step _ _ _ _ _ _)), Hi, Hstep. }
    split.
    { rewrite Hstep, Hsig, Hsk. done. }
    intros e He. rewrite Hs. cbn [signals set_signals].
    apply elem_of_app. left.
    assert (Hpre : signals sk' `prefix_of`
                     signals (Yubiage.run_items E mode keys 0 files s1))
      by (subst sk'; by apply state_before_prefix).
    destruct Hpre as [rest Hrest]. unfold s1 in Hrest. rewrite Hrest.
    apply elem_of_app. left.
    rewrite Hstep, Hsig, He. simpl. apply elem_of_app. right. by left.
  - intros E mode keys files s0 processed fmap s1 k p Hpre Hk s2 sk sk'.
    assert (Hlen : length processed <> 0)
      by (apply lookup_lt_Some in Hk; lia).
    assert (Hn : total_files s2 <> 0) by done.
    destruct (ageyub_run_spec E mode keys files s0) as (Hr & Hrun).
    pose proof (preprocess_spec E mode files (Ageyub.run_start s0)) as (_ & _ & Hp).
    rewrite Hpre in Hrun, Hp. cbn [fst snd] in Hp.
    destruct Hp as (_ & Hmap & _). destruct Hrun as (Hs & _).
    fold s2 in Hs.
    assert (Hsk : total_files sk = length processed)
      by (subst sk; by rewrite a_state_before_total).
    destruct (Hmap p) as [o Ho]; [by eapply list_elem_of_lookup_2|].
    destruct (a_item_step_spec E mode keys fmap k p o sk Ho) as (Hi & Hsig & _);
      [by rewrite Hsk|].
    assert (Hstep : sk' = snd (Ageyub.item_step E mode keys fmap k p sk))
      by (subst sk sk'; by apply a_state_before_succ).
    split; [done|]. split.
    { unfold Ageyub.state_before. rewrite firstn_all.
      destruct (a_run_items_spec E mode keys fmap processed Hmap 0 s2 Hn)
        as (? & ? & _).
      by rewrite (surjective_pairing (for_enumerate _ _ _ _)); f_equal. }
    split.
    { by rewrite (surjective_pairing (Ageyub.item_step _ _ _ _ _ _ _)), Hi, Hstep. }
    split; [by exists o|]. intros o' Ho'. assert (o' = o) as -> by congruence.
    split.
    { rewrite Hstep, Hsig, Hsk. done. }
    intros e He. rewrite Hs. apply elem_of_app. left.
    assert (Hprefix : signals sk' `prefix_of`
                     signals (Ageyub.run_items E mode keys fmap 0 processed s2))
      by (subst sk'; by apply a_state_before_prefix).
    destruct Hprefix as [rest Hrest]. rewrite Hrest.
    apply elem_of_app. left.
    rewrite Hstep, Hsig, He. simpl. apply elem_of_app. right. by left.
Qed.

(** A result that is known to be normal is the pair of its parts. *)
Lemma normal_result_eta {A B} (r : (exn + A * B) * St) :
  (match fst r with inr _ => true | inl _ => false end) = true ->
  forall a b,
    r = (inr (match fst r with inr x => fst x | inl _ => a end,
              match fst r with inr x => snd x | inl _ => b end), snd r).
Proof. destruct r as [[e|[x y]] s]; [done|]. reflexivity. Qed.

Lemma C1_witness :
  SigError (py "b.txt")
           (py "age: error: no identity matched any of the recipients")
    ∈ signals (snd (Yubiage.run (Fixture.env (Fixture.age_fail_at 1)) Encrypt
                      [Fixture.key] Fixture.three (init_St Fixture.disk)))
  /\ SigError (py "a.txt")
              (py "age: error: no identity matched any of the recipients")
       ∈ signals (snd (Ageyub.run (Fixture.env (Fixture.age_fail_at 1)) Encrypt
                         [Fixture.key] Fixture.mixed (init_St Fixture.disk))).
Proof.
  set (E := Fixture.env (Fixture.age_fail_at 1)).
  set (e := Exception (py "age: error: no identity matched any of the recipients")).
  split.
  - pose proof (proj1 C1_item_failure_is_local E Encrypt [Fixture.key]
                  Fixture.three (init_St Fixture.disk) 1 (py "/d/b.txt")
                  eq_refl) as H.
    cbv zeta in H. destruct H as (_ & _ & _ & _ & H).
    apply (H e). vm_compute. reflexivity.
  - set (r := Ageyub.preprocess E Encrypt Fixture.mixed
                (Ageyub.run_start (init_St Fixture.disk))).
    assert (Hr : (match fst r with inr _ => true | inl _ => false end) = true)
      by (vm_compute; reflexivity).
    pose proof (proj2 C1_item_failure_is_local E Encrypt [Fixture.key]
                  Fixture.mixed (init_St Fixture.disk)
                  (match fst r with inr x => fst x | inl _ => [] end)
                  (match fst r with inr x => snd x | inl _ => ∅ end)
                  (snd r) 1 (py "/d/a.txt")
                  (normal_result_eta r Hr [] ∅)) as H.
    cbv zeta in H. destruct H as (_ & _ & _ & _ & H).
    + vm_compute. reflexivity.
    + destruct (H (py "/d/a.txt")) as [_ H'].
      * vm_compute. reflexivity.
      * apply (H' e). vm_compute. reflexivity.
Defined.

(** ** The final result *)

(** The window starts no worker on an empty batch. *)
Lemma start_process_guard run g w :
  files_to_process g = [] -> snd (_start_process run (g, w)) = w.
Proof. intros H. unfold _start_process. by rewrite H. Qed.

(** C2.  The last signal of a worker is [finished(success, total, _)] with
    [success <= total].  A batch that reaches a worker is not empty
    ([_start_process] refuses an empty one), and then [total] is 0 exactly
    when the stage before the loop raised: in [ageyub_ui.py] this is the
    archiving of the directories; in [yubiage_ui.py] there is no such stage,
    the outer [try] never raises and [total] is the number of files. *)
Theorem C2_result_counts :
  (forall run g w,
      files_to_process g = [] -> snd (_start_process run (g, w)) = w)
  /\ (forall E mode keys files s0,
         files <> [] ->
         exists s t,
           last (signals (snd (Yubiage.run E mode keys files s0)))
           = Some (SigFinished s t (bool_decide (mode = Encrypt)))
           /\ s <= t /\ t = length files
           /\ (t = 0 <->
               exists e, fst (Yubiage.run_loop E mode keys files
                                (Yubiage.run_start files s0)) = inl e))
  /\ (forall E mode keys files s0,
         files <> [] ->
         exists s t,
           last (signals (snd (Ageyub.run E mode keys files s0)))
           = Some (SigFinished s t (bool_decide (mode = Encrypt)))
           /\ s <= t
           /\ (t = 0 <->
               exists e, fst (Ageyub.preprocess E mode files
                                (Ageyub.run_start s0)) = inl e)).
Proof.
  split; [apply start_process_guard|]. split.
  - intros E mode keys files s0 Hne.
    destruct (yubiage_run_spec E mode keys files s0) as (_ & Hl & Hs & Ht & Hc & _).
    eexists _, _. rewrite Hs. cbn [signals set_signals]. rewrite last_snoc.
    split; [done|]. split; [done|]. split; [done|]. split.
    + intros H0. destruct files; [done|discriminate].
    + intros [e He]. by rewrite Hl in He.
  - intros E mode keys files s0 Hne.
    destruct (ageyub_run_spec E mode keys files s0) as (_ & Hrun).
    destruct (Ageyub.preprocess E mode files (Ageyub.run_start s0))
      as [[e|[processed fmap]] s1].
    + exists 0, 0. rewrite Hrun.
      change [?a; ?b] with ([a] ++ [b]). rewrite app_assoc, last_snoc.
      split; [done|]. split; [done|]. split; [by exists e|done].
    + cbv zeta in Hrun. destruct Hrun as (Hs & _ & Hlen & Hc & _).
      eexists _, _. rewrite Hs, last_snoc. split; [done|]. split; [done|].
      split.
      * intros H0. destruct files; [done|]. rewrite H0 in Hlen. discriminate.
      * intros [e He]. discriminate.
Qed.

Lemma C2_witness :
  Fixture.mixed <> [] /\ Fixture.three <> []
  /\ (exists s t,
        last (signals (snd (Ageyub.run (Fixture.env (Fixture.age_fail_at 1))
                              Encrypt [Fixture.key] Fixture.mixed
                              (init_St Fixture.disk))))
        = Some (SigFinished s t (bool_decide (Encrypt = Encrypt)))
        /\ s <= t
        /\ (t = 0 <->
            exists e, fst (Ageyub.preprocess (Fixture.env (Fixture.age_fail_at 1))
                             Encrypt Fixture.mixed
                             (Ageyub.run_start (init_St Fixture.disk))) = inl e))
  /\ (exists s t,
        last (signals (snd (Yubiage.run (Fixture.env (Fixture.age_fail_at 1))
                              Encrypt [Fixture.key] Fixture.three
                              (init_St Fixture.disk))))
        = Some (SigFinished s t (bool_decide (Encrypt = Encrypt)))
        /\ s <= t /\ t = length Fixture.three
        /\ (t = 0 <->
            exists e, fst (Yubiage.run_loop (Fixture.env (Fixture.age_fail_at 1))
                             Encrypt [Fixture.key] Fixture.three
                             (Yubiage.run_start Fixture.three
                                (init_St Fixture.disk))) = inl e)).
Proof.
  split; [discriminate|]. split; [discriminate|]. split.
  - apply (proj2 (proj2 C2_result_counts)). discriminate.
  - apply (proj1 (proj2 C2_result_counts)). discriminate.
Defined.

(** ** Progress *)

Lemma progress_values_app l1 l2 :
  progress_values (l1 ++ l2) = progress_values l1 ++ progress_values l2.
Proof. unfold progress_values. apply omap_app. Qed.

Lemma progress_values_replicate k q :
  progress_values (replicate k (SigProgress q)) = replicate k q.
Proof. induction k as [|k IH]; simpl; [done|]. by f_equal. Qed.

Lemma item_progress_lookup n k q :
  item_progress n !! k = Some q -> k < n /\ q = ratio (k + 1) n.
Proof.
  unfold item_progress. rewrite list_lookup_fmap.
  destruct (seq 0 n !! k) as [j|] eqn:Hj; [|done].
  apply lookup_seq in Hj as [-> Hk]. simpl. intros [= <-]. done.
Qed.

Lemma ratio_lt n i j : i < j -> n <> 0 -> (ratio i n < ratio j n)%Q.
Proof.
  intros Hij Hn. unfold Qlt, ratio. simpl.
  apply Z.mul_lt_mono_pos_r; lia.
Qed.

Lemma ratio_one n k : n <> 0 -> (ratio k n == 1)%Q <-> k = n.
Proof. intros Hn. unfold Qeq, ratio. simpl. lia. Qed.

(** The tool ran on a directory and two plain files and failed on the second
    item: four progress values are emitted, the first one during archiving. *)
Lemma C3_counterexample :
  length Fixture.mixed = 3
  /\ error_signals
       (signals (snd (Ageyub.run (Fixture.env (Fixture.age_fail_at 1)) Encrypt
                        [Fixture.key] Fixture.mixed (init_St Fixture.disk))))
     = [(py "a.txt", py "age: error: no identity matched any of the recipients")]
  /\ progress_values
       (signals (snd (Ageyub.run (Fixture.env (Fixture.age_fail_at 1)) Encrypt
                        [Fixture.key] Fixture.mixed (init_St Fixture.disk))))
     = [Qmake 1 100; Qmake 1 3; Qmake 2 3; Qmake 3 3]
  /\ length (progress_values
               (signals (snd (Ageyub.run (Fixture.env (Fixture.age_fail_at 1))
                                Encrypt [Fixture.key] Fixture.mixed
                                (init_St Fixture.disk))))) <> 3.
Proof. vm_compute. repeat split; discriminate. Qed.

(** C3, amended.  The loop of both workers emits [k/N] after its [k]-th item
    whatever the outcomes, [N] values in all, strictly increasing, of which
    only the last is 1; three files give 1/3, 2/3, 1.  In [yubiage_ui.py]
    these are all the progress values of a run.  In [ageyub_ui.py] they are
    emitted when pre-processing ends normally, after one value 1/100 for
    each directory archived. *)
Theorem C3_progress_values :
  (forall E mode keys files s0,
      progress_values (signals (snd (Yubiage.run E mode keys files s0)))
      = progress_values (signals s0) ++ item_progress (length files))
  /\ (forall E mode keys files s0 processed fmap s1,
         Ageyub.preprocess E mode files (Ageyub.run_start s0)
           = (inr (processed, fmap), s1) ->
         progress_values (signals (snd (Ageyub.run E mode keys files s0)))
         = progress_values (signals s0)
             ++ replicate (archived mode (fs s0) files) (Qmake 1 100)
             ++ item_progress (length files))
  /\ (forall n, length (item_progress n) = n)
  /\ (forall n i j a b,
         item_progress n !! i = Some a -> item_progress n !! j = Some b ->
         i < j -> (a < b)%Q)
  /\ (forall n k q,
         item_progress n !! k = Some q -> ((q == 1)%Q <-> k + 1 = n))
  /\ item_progress 3 = [Qmake 1 3; Qmake 2 3; Qmake 3 3].
Proof.
  split; [|split; [|split; [|split; [|split]]]].
  - intros E mode keys files s0.
    destruct (yubiage_run_spec E mode keys files s0) as (_ & _ & Hs & _ & _ & Hp).
    rewrite Hs. cbn [signals set_signals]. rewrite progress_values_app, Hp.
    simpl. by rewrite app_nil_r.
  - intros E mode keys files s0 processed fmap s1 Hpre.
    destruct (ageyub_run_spec E mode keys files s0) as (_ & Hrun).
    pose proof (preprocess_spec E mode files (Ageyub.run_start s0)) as (_ & _ & Hp).
    rewrite Hpre in Hrun, Hp. cbn [fst snd] in Hp. cbv zeta in Hrun.
    destruct Hp as (_ & _ & Hsig). destruct Hrun as (Hs & _ & Hlen & _ & Hpn).
    rewrite Hs, progress_values_app, Hpn, Hsig, progress_values_app,
      progress_values_replicate, Hlen. simpl. rewrite app_nil_r.
    by rewrite <- app_assoc.
  - intros n. unfold item_progress. by rewrite length_map, length_seq.
  - intros n i j a b [Hi ->]%item_progress_lookup [Hj ->]%item_progress_lookup Hij.
    apply ratio_lt; lia.
  - intros n k q [Hk ->]%item_progress_lookup. apply ratio_one. lia.
  - reflexivity.
Qed.

Lemma C3_witness :
  progress_values
    (signals (snd (Ageyub.run (Fixture.env (Fixture.age_fail_at 1)) Encrypt
                     [Fixture.key] Fixture.mixed (init_St Fixture.disk))))
  = progress_values (signals (init_St Fixture.disk))
      ++ replicate (archived Encrypt (fs (init_St Fixture.disk)) Fixture.mixed)
                   (Qmake 1 100)
      ++ item_progress (length Fixture.mixed)
  /\ (Qmake 1 3 < Qmake 2 3)%Q
  /\ ((Qmake 3 3 == 1)%Q <-> 2 + 1 = 3).
Proof.
  set (E := Fixture.env (Fixture.age_fail_at 1)).
  set (r := Ageyub.preprocess E Encrypt Fixture.mixed
              (Ageyub.run_start (init_St Fixture.disk))).
  assert (Hr : (match fst r with inr _ => true | inl _ => false end) = true)
    by (vm_compute; reflexivity).
  destruct C3_progress_values as (_ & HA & _ & Hlt & Hone & _).
  split; [|split].
  - exact (HA E Encrypt [Fixture.key] Fixture.mixed (init_St Fixture.disk)
              (match fst r with inr x => fst x | inl _ => [] end)
              (match fst r with inr x => snd x | inl _ => ∅ end)
              (snd r) (normal_result_eta r Hr [] ∅)).
  - exact (Hlt 3 0 1 _ _ eq_refl eq_refl (le_n 1)).
  - exact (Hone 3 2 _ eq_refl).
Defined.

(** ** The natural output name of a decryption *)

Lemma removesuffix_app (s suf : str) :
  suf <> [] -> Str.removesuffix (s ++ suf) suf = s.
Proof.
  intros Hne. unfold Str.removesuffix, Str.endswith.
  rewrite bool_decide_false by done.
  rewrite bool_decide_true by (by apply suffix_app_r). simpl.
  rewrite length_app, Nat.add_sub. by rewrite take_app_length.
Qed.

(** A lower-case suffix is stripped. *)
Lemma decrypt_output_base_strip (s : str) :
  Yubiage.decrypt_output_base (s ++ py ".age") = s.
Proof.
  unfold Yubiage.decrypt_output_base, Str.endswith, Str.lower.
  rewrite map_app. rewrite bool_decide_true by (by apply suffix_app_r).
  by apply removesuffix_app.
Qed.

(** A name the program does not take for an encrypted file gets the marker. *)
Lemma decrypt_output_base_mark (p : str) :
  Yubiage.is_age p = false ->
  Yubiage.decrypt_output_base p = p ++ py ".decrypted".
Proof. unfold Yubiage.is_age, Yubiage.decrypt_output_base. by intros ->. Qed.

Lemma decrypt_output_base_same (p : str) :
  Ageyub.decrypt_output_base p = Yubiage.decrypt_output_base p.
Proof. reflexivity. Qed.

(** C9, at [FILE.AGE].  The window takes the file for an encrypted one and
    starts a decryption, but the natural output name is the input name
    itself: the suffix is looked for in the lower-cased name and stripped
    from the name as it is.  The decrypted text then lands in
    [FILE (1).AGE] ([yubiage_ui.py]) or is removed with the staging file
    ([ageyub_ui.py]). *)
Theorem C9_uppercase_suffix_is_kept :
  Yubiage.is_age (py "/d/FILE.AGE") = true
  /\ Yubiage.decrypt_output_base (py "/d/FILE.AGE") = py "/d/FILE.AGE"
  /\ Ageyub.decrypt_output_base (py "/d/FILE.AGE") = py "/d/FILE.AGE"
  /\ Yubiage.decrypt_output_base (py "/d/file.age") = py "/d/file"
  /\ (let s := snd (Yubiage.run (Fixture.env Fixture.age_ok) Decrypt
                      [Fixture.key] [py "/d/FILE.AGE"] (init_St Fixture.disk)) in
      fs s !! py "/d/FILE (1).AGE" = Some (File (py "data"))
      /\ fs s !! py "/d/FILE" = None
      /\ last (signals s) = Some (SigFinished 1 1 false))
  /\ (let s := snd (Ageyub.run (Fixture.env Fixture.age_ok) Decrypt
                      [Fixture.key] [py "/d/FILE.AGE"] (init_St Fixture.disk)) in
      fs s !! py "/d/FILE" = None
      /\ fs s !! py "/d/FILE.AGE" = Some (File (py "F"))
      /\ last (signals s) = Some (SigFinished 1 1 false)).
Proof. vm_compute. repeat split. Qed.

(** ** Key material *)

Lemma key_content_comments (data : str) :
  only_comments data -> key_content data = [].
Proof.
  unfold only_comments, key_content. intros H.
  induction H as [|line l Hline _ IH]; [done|].
  rewrite filter_cons_False; [exact IH|]. rewrite Hline. simpl. tauto.
Qed.

Lemma recipients_text_nothing (f : FS) (keys : list str) :
  Forall (yields_nothing f) keys -> recipients_text f keys = ([], None).
Proof.
  induction 1 as [|k keys Hk _ IH]; simpl; [done|].
  destruct Hk as [->|(data & -> & Hc)]; [done|]. by rewrite IH, Hc.
Qed.

Lemma yields_nothing_truncated (f : FS) (t k : str) :
  yields_nothing f k -> yields_nothing (<[t := File []]> f) k.
Proof.
  intros Hk. destruct (decide (t = k)) as [->|Hne].
  - right. exists []. by rewrite lookup_insert_eq.
  - unfold yields_nothing. by rewrite lookup_insert_ne.
Qed.

(** With nothing to write, "Build command" raises before any process is
    started. *)
Lemma build_encrypt_nothing E keys p s :
  keys <> [] ->
  Forall (yields_nothing (fs s)) keys ->
  fs s !! Yubiage.temp_recipients_name E p <> Some Dir ->
  exists s',
    Yubiage.build_encrypt E keys p s
    = (inl (ValueError (py "Recipient key file is empty or invalid.")), s')
    /\ popen_calls s' = popen_calls s /\ signals s' = signals s.
Proof.
  intros Hne Hkeys Hdir. unfold Yubiage.build_encrypt. msteps.
  destruct keys as [|k0 keys0]; [done|]. set (keys := k0 :: keys0) in *.
  msteps. unfold write_recipients. msteps.
  set (trf := Yubiage.temp_recipients_name E p) in *.
  set (s1 := set_temp_recipients_file _ _).
  assert (Hopen : open_w trf s1 = (inr tt, set_fs (<[trf := File []]> (fs s1)) s1)).
  { unfold open_w. change (fs s1) with (fs s).
    destruct (fs s !! trf) as [[]|]; done. }
  rewrite Hopen. msteps. cbn [fs set_fs].
  change (fs s1) with (fs s).
  rewrite recipients_text_nothing
    by (eapply Forall_impl; [exact Hkeys|intros; by apply yields_nothing_truncated]).
  msteps. unfold flush. cbn [fs set_fs]. rewrite lookup_insert_eq. msteps.
  cbn [fs set_fs]. unfold Fs.exists_, getsize. rewrite insert_insert_eq, lookup_insert_eq.
  simpl. eexists. split; [reflexivity|]. done.
Qed.

Lemma ageyub_build_encrypt_same E keys p :
  Ageyub.build_encrypt E keys p = Yubiage.build_encrypt E keys p.
Proof. reflexivity. Qed.

(** C7.  When every recipient key path is missing or yields nothing once its
    comment lines are dropped (a file of comment lines only is such a path),
    the item raises [ValueError("Recipient key file is empty or invalid.")]
    and [Popen] has not been called. *)
Theorem C7_empty_key_material :
  (forall data, only_comments data -> key_content data = [])
  /\ (forall E keys p s,
         keys <> [] ->
         Forall (yields_nothing (fs s)) keys ->
         fs s !! Yubiage.temp_recipients_name E p <> Some Dir ->
         exists s',
           Yubiage.item_body E Encrypt keys p s
           = (inl (ValueError (py "Recipient key file is empty or invalid.")), s')
           /\ popen_calls s' = popen_calls s)
  /\ (forall E keys o p s,
         keys <> [] ->
         Forall (yields_nothing (fs s)) keys ->
         fs s !! Ageyub.temp_recipients_name E p <> Some Dir ->
         exists s',
           Ageyub.item_body E Encrypt keys o p s
           = (inl (ValueError (py "Recipient key file is empty or invalid.")), s')
           /\ popen_calls s' = popen_calls s).
Proof.
  split; [apply key_content_comments|]. split.
  - intros E keys p s Hne Hkeys Hdir.
    destruct (build_encrypt_nothing E keys p s Hne Hkeys Hdir) as (s' & Hb & Hp & _).
    exists s'. unfold Yubiage.item_body. rewrite bind_run, Hb. done.
  - intros E keys o p s Hne Hkeys Hdir.
    destruct (build_encrypt_nothing E keys p s Hne Hkeys Hdir) as (s' & Hb & Hp & _).
    exists s'. unfold Ageyub.item_body.
    rewrite bind_run, ageyub_build_encrypt_same, Hb. done.
Qed.

Lemma Forall_of_forallb {A} (f : A -> bool) (l : list A) :
  forallb f l = true -> Forall (fun x => f x = true) l.
Proof.
  induction l as [|x l IH]; simpl; [constructor|].
  intros [Hx Hl]%andb_prop. constructor; auto.
Qed.

(** A key file of comment lines only: the file fails, the tool is never
    started. *)
Example comment_key_run :
  only_comments Fixture.comment_text
  /\ (let s := snd (Yubiage.run (Fixture.env Fixture.age_ok) Encrypt
                      [Fixture.comment_key] [py "/d/a.txt"]
                      (init_St Fixture.disk)) in
      signals s
      = [SigError (py "a.txt") (py "Recipient key file is empty or invalid.");
         SigProgress (Qmake 1 1); SigFinished 0 1 true]
      /\ popen_calls s = []
      /\ fs s !! py "/d/.temp_recipients_4242.txt" = None).
Proof.
  split.
  - apply Forall_of_forallb. vm_compute. reflexivity.
  - vm_compute. repeat split.
Qed.

Lemma C7_witness :
  [Fixture.comment_key] <> []
  /\ Forall (yields_nothing (fs (init_St Fixture.disk))) [Fixture.comment_key]
  /\ fs (init_St Fixture.disk)
       !! Yubiage.temp_recipients_name (Fixture.env Fixture.age_ok) (py "/d/a.txt")
     <> Some Dir
  /\ exists s',
       Yubiage.item_body (Fixture.env Fixture.age_ok) Encrypt
         [Fixture.comment_key] (py "/d/a.txt") (init_St Fixture.disk)
       = (inl (ValueError (py "Recipient key file is empty or invalid.")), s')
       /\ popen_calls s' = popen_calls (init_St Fixture.disk).
Proof.
  assert (H1 : [Fixture.comment_key] <> []) by discriminate.
  assert (H2 : Forall (yields_nothing (fs (init_St Fixture.disk)))
                      [Fixture.comment_key]).
  { constructor; [|constructor]. right. exists Fixture.comment_text.
    split; [vm_compute; reflexivity|].
    apply (proj1 C7_empty_key_material).
    apply Forall_of_forallb. vm_compute. reflexivity. }
  assert (H3 : fs (init_St Fixture.disk)
                 !! Yubiage.temp_recipients_name (Fixture.env Fixture.age_ok)
                      (py "/d/a.txt") <> Some Dir)
    by (vm_compute; discriminate).
  split; [exact H1|]. split; [exact H2|]. split; [exact H3|].
  exact (proj1 (proj2 C7_empty_key_material) (Fixture.env Fixture.age_ok)
           [Fixture.comment_key] (py "/d/a.txt") (init_St Fixture.disk) H1 H2 H3).
Defined.

(** ** Mixed batches *)

Lemma existsb_elem_of {A} (f : A -> bool) (l : list A) (x : A) :
  x ∈ l -> f x = true -> existsb f l = true.
Proof.
  intros Hx Hf. apply existsb_exists. exists x. split; [|done].
  by apply list_elem_of_In.
Qed.

Lemma two_elements {A} (l : list A) (a b : A) :
  a ∈ l -> b ∈ l -> a <> b -> 1 < length l.
Proof.
  intros Ha Hb Hne. destruct l as [|x [|y l]]; simpl; [|..|lia].
  - by apply elem_of_nil in Ha.
  - apply list_elem_of_singleton in Ha, Hb. congruence.
Qed.

(** C6.  A batch with a path that ends in [.age] (in any capitalisation) and
    a path that does not is refused by [_on_files_dropped]: the window shows
    an error and nothing else changes; no worker is created and the world,
    with its record of the [Popen] calls, is the one before the drop.  In
    [yubiage_ui.py] the refusal is the one of a decryption of several
    paths. *)
Theorem C6_mixed_batch_rejected :
  (forall E paths g w a b,
      _key_pending g = false ->
      a ∈ paths -> Yubiage.is_age a = true ->
      b ∈ paths -> Yubiage.is_age b = false ->
      Yubiage._on_files_dropped E paths (g, w)
      = inr (show_error STR_ERROR_DECRYPT_MULTI STR_STATUS_ERROR_MIXED g, w))
  /\ (forall E paths g w a b,
         _key_pending g = false ->
         a ∈ paths -> Ageyub.is_age a = true ->
         b ∈ paths -> Ageyub.is_age b = false ->
         Ageyub._on_files_dropped E paths (g, w)
         = (show_error (py "Do not mix .age file and directory/other file.")
                       STR_STATUS_ERROR_MIXED g, w))
  /\ (forall message status g,
         worker (show_error message status g) = worker g
         /\ files_to_process (show_error message status g) = files_to_process g
         /\ drop_target (show_error message status g) = TError message).
Proof.
  split; [|split].
  - intros E paths g w a b Hpend Ha Hage Hb Hnot.
    unfold Yubiage._on_files_dropped. rewrite Hpend.
    rewrite (existsb_elem_of _ _ a Ha Hage). cbn [orb].
    assert (Hlen : 1 < length paths).
    { apply (two_elements paths a b Ha Hb). intros ->. congruence. }
    destruct paths as [|p0 rest]; [simpl in Hlen; lia|].
    apply Nat.ltb_lt in Hlen. by rewrite Hlen.
  - intros E paths g w a b Hpend Ha Hage Hb Hnot.
    unfold Ageyub._on_files_dropped. rewrite Hpend.
    rewrite (existsb_elem_of _ _ a Ha Hage).
    destruct (existsb (Fs.isdir (w_fs w)) paths) eqn:Hdirs; [done|].
    cbn [andb orb].
    rewrite (existsb_elem_of _ _ b Hb); [done|].
    rewrite Hnot. cbn [negb andb].
    destruct (Fs.isdir (w_fs w) b) eqn:Hd; [|done].
    by rewrite (existsb_elem_of _ _ b Hb Hd) in Hdirs.
  - done.
Qed.

Lemma C6_witness :
  Yubiage._on_files_dropped (Fixture.env Fixture.age_ok)
    [py "/d/m.age"; py "/d/a.txt"] (Fixture.gui_keys, Fixture.world Fixture.disk)
  = inr (show_error STR_ERROR_DECRYPT_MULTI STR_STATUS_ERROR_MIXED Fixture.gui_keys,
         Fixture.world Fixture.disk)
  /\ Ageyub._on_files_dropped (Fixture.env Fixture.age_ok)
       [py "/d/m.age"; py "/d/a.txt"] (Fixture.gui_keys, Fixture.world Fixture.disk)
     = (show_error (py "Do not mix .age file and directory/other file.")
                   STR_STATUS_ERROR_MIXED Fixture.gui_keys,
        Fixture.world Fixture.disk).
Proof.
  assert (Ha : py "/d/m.age" ∈ [py "/d/m.age"; py "/d/a.txt"]) by (by left).
  assert (Hb : py "/d/a.txt" ∈ [py "/d/m.age"; py "/d/a.txt"])
    by (right; by left).
  split.
  - exact (proj1 C6_mixed_batch_rejected (Fixture.env Fixture.age_ok) _
             Fixture.gui_keys (Fixture.world Fixture.disk) _ _
             eq_refl Ha eq_refl Hb eq_refl).
  - exact (proj1 (proj2 C6_mixed_batch_rejected) (Fixture.env Fixture.age_ok) _
             Fixture.gui_keys (Fixture.world Fixture.disk) _ _
             eq_refl Ha eq_refl Hb eq_refl).
Defined.

(** ** Hidden files *)

Lemma rfind1_absent (c : ascii) (n : str) : c ∉ n -> Path.rfind1 c n = 0.
Proof.
  induction n as [|x n IH]; simpl; [done|]. intros Hn.
  rewrite IH by (intros ?; apply Hn; by right).
  rewrite bool_decide_false; [done|]. intros ->. apply Hn. by left.
Qed.

Lemma rfind1_app (c : ascii) (a b : str) :
  Path.rfind1 c (a ++ b)
  = match Path.rfind1 c b with
    | 0 => Path.rfind1 c a
    | S k => length a + S k
    end.
Proof.
  induction a as [|x a IH]; simpl.
  - by destruct (Path.rfind1 c b).
  - rewrite IH. destruct (Path.rfind1 c b); [done|].
    by replace (length a + S n) with (S (length a + n)) by lia.
Qed.

Lemma rfind1_last (c : ascii) (a : str) :
  Path.rfind1 c (a ++ [c]) = length a + 1.
Proof. rewrite rfind1_app. simpl. by rewrite bool_decide_true. Qed.

Lemma endswith_snoc (a : str) (c : ascii) :
  Str.endswith a [c] = true -> exists a', a = a' ++ [c].
Proof.
  unfold Str.endswith. intros [a' ->]%bool_decide_eq_true. by exists a'.
Qed.

(** The base name of a directory entry joined to its directory is the
    entry. *)
Lemma basename_join (root n : str) :
  Path.sep ∉ n -> Path.basename (Path.join root n) = n.
Proof.
  intros Hn. unfold Path.join, Path.basename.
  assert (Hs : Str.startswith n [Path.sep] = false).
  { destruct n as [|x n]; [done|]. rewrite startswith_cons.
    apply bool_decide_eq_false. intros ->. apply Hn. by left. }
  rewrite Hs.
  destruct (negb (Str.truthy root) || Str.endswith root [Path.sep]) eqn:Hr.
  - apply orb_true_iff in Hr as [Hr|Hr].
    + destruct root; [|done]. simpl. by rewrite rfind1_absent.
    + apply endswith_snoc in Hr as [a' ->].
      rewrite rfind1_app, (rfind1_absent _ n Hn), rfind1_last.
      replace (length a' + 1) with (length (a' ++ [Path.sep]))
        by (rewrite length_app; simpl; lia).
      by rewrite drop_app_length.
  - change (root ++ Path.sep :: n) with (root ++ [Path.sep] ++ n).
    rewrite app_assoc, rfind1_app, (rfind1_absent _ n Hn), rfind1_last.
    replace (length root + 1) with (length (root ++ [Path.sep]))
      by (rewrite length_app; simpl; lia).
    by rewrite drop_app_length.
Qed.

Lemma listdir_names (f : FS) (top n : str) :
  In n (listdir f top) -> Path.sep ∉ n.
Proof.
  unfold listdir. intros Hn%list_elem_of_In%list_elem_of_omap.
  destruct Hn as (k & _ & Hk).
  set (pre := if Str.endswith top [Path.sep] then top else top ++ [Path.sep]) in *.
  destruct (Str.startswith k pre); [|done].
  destruct (Str.truthy (drop (length pre) k)); [|done].
  cbn [andb] in Hk.
  destruct (bool_decide (Path.sep ∈ drop (length pre) k)) eqn:Hs; [done|].
  injection Hk as <-. by apply bool_decide_eq_false in Hs.
Qed.

Lemma os_walk_files (f : FS) :
  forall fuel top root dirs files n,
    In (root, dirs, files) (os_walk fuel f top) -> In n files -> Path.sep ∉ n.
Proof.
  induction fuel as [|fuel IH]; intros top root dirs files n; simpl; [done|].
  destruct (Fs.isdir f top); [|done]. intros [Heq|Hin] Hn.
  - injection Heq as <- <- <-. apply filter_In in Hn as [Hn _].
    by eapply listdir_names.
  - apply in_flat_map in Hin as (d & _ & Hin). by eapply IH.
Qed.

(** No collected path has a base name that begins with a dot. *)
Lemma get_files_recursive_not_hidden (f : FS) (paths : list str) (p : str) :
  In p (Yubiage._get_files_recursive f paths) -> hidden p = false.
Proof.
  unfold Yubiage._get_files_recursive. intros (path & _ & Hp)%in_flat_map.
  destruct (Str.startswith (Path.basename path) (py ".")) eqn:Hh; [done|].
  destruct (Fs.isfile f path).
  { destruct Hp as [<-|[]]. exact Hh. }
  destruct (Fs.isdir f path); [|done].
  apply in_flat_map in Hp as ([[root dirs] files] & Hw & Hp).
  apply in_map_iff in Hp as (n & <- & Hn). apply filter_In in Hn as [Hn Hdot].
  unfold hidden. rewrite basename_join by (by eapply os_walk_files).
  by apply negb_true_iff in Hdot.
Qed.

(** A dropped path with such a base name contributes nothing. *)
Lemma get_files_recursive_skips (f : FS) (path : str) :
  hidden path = true -> Yubiage._get_files_recursive f [path] = [].
Proof. unfold hidden, Yubiage._get_files_recursive. simpl. by intros ->. Qed.

(** ** The processes a worker starts *)

Global Instance same_popen_preorder : PreOrder same_popen.
Proof.
  split; [by intros s|]. intros a b c H1 H2. unfold same_popen in *. congruence.
Qed.

Global Instance popen_within_preorder files : PreOrder (popen_within files).
Proof.
  split.
  - intros s. exists []. by rewrite app_nil_r.
  - intros a b c (L1 & H1 & F1) (L2 & H2 & F2). exists (L1 ++ L2).
    rewrite H2, H1, app_assoc. split; [done|]. by apply Forall_app.
Qed.

Lemma same_popen_within files s s' : same_popen s s' -> popen_within files s s'.
Proof. intros H. exists []. by rewrite app_nil_r. Qed.

Lemma sp_os_remove p : pres same_popen (os_remove p).
Proof. intros s. unfold os_remove. by repeat case_match. Qed.

Lemma sp_os_rename a b : pres same_popen (os_rename a b).
Proof. intros s. unfold os_rename. by repeat case_match. Qed.

Lemma sp_open_w p : pres same_popen (open_w p).
Proof. intros s. unfold open_w. by repeat case_match. Qed.

Lemma sp_flush p t : pres same_popen (flush p t).
Proof. intros s. unfold flush. by repeat case_match. Qed.

Lemma sp_emit sg : pres same_popen (emit sg).
Proof. by intros s. Qed.

Global Hint Resolve sp_os_remove sp_os_rename sp_open_w sp_flush sp_emit
  same_popen_preorder : pres.

Lemma sp_write_recipients p keys : pres same_popen (write_recipients p keys).
Proof. unfold write_recipients. pres_auto. Qed.

Global Hint Resolve sp_write_recipients : pres.

Lemma returns_ret {A} (P : A -> Prop) (x : A) : P x -> returns P (mret x).
Proof. intros H s y s' [= <- _]. done. Qed.

Lemma returns_raise {A} (P : A -> Prop) (e : exn) : returns P (raise e).
Proof. intros s y s' [=]. Qed.

Lemma returns_bind {A B} (P : B -> Prop) (m : M A) (f : A -> M B) :
  (forall x, returns P (f x)) -> returns P (m ≫= f).
Proof.
  intros Hf s y s'. rewrite bind_run.
  destruct (m s) as [[e|x] s1]; [done|]. apply Hf.
Qed.

Section YubiagePopen.

Import Yubiage.
Context (E : Env) (mode : Mode) (keys : list str).

Lemma sp_build_encrypt p : pres same_popen (build_encrypt E keys p).
Proof. unfold build_encrypt. pres_auto. Qed.

Lemma sp_build_decrypt p : pres same_popen (build_decrypt E keys p).
Proof. unfold build_decrypt. pres_auto. Qed.

Lemma sp_post_decrypt p : pres same_popen (post_decrypt p).
Proof. unfold post_decrypt. pres_auto. Qed.

Lemma sp_remove_temps : pres same_popen (remove_temps mode).
Proof. unfold remove_temps. pres_auto. Qed.

Lemma sp_item_finally i : pres same_popen (item_finally mode i).
Proof.
  unfold item_finally, progress_value. pres_auto. apply sp_remove_temps.
Qed.

(** The command of an item ends with its input path. *)
Lemma build_input p :
  returns (fun cmd => input_of cmd = Some p)
          (match mode with
           | Encrypt => build_encrypt E keys p
           | Decrypt => build_decrypt E keys p
           end).
Proof.
  destruct mode; unfold build_encrypt, build_decrypt.
  - apply returns_bind. intros _. destruct keys; [apply returns_raise|].
    do 3 (apply returns_bind; intros ?).
    destruct (_ || _); [apply returns_raise|by apply returns_ret].
  - do 2 (apply returns_bind; intros ?). destruct keys; [apply returns_raise|].
    apply returns_ret. unfold input_of. by rewrite !app_assoc, last_snoc.
Qed.

(** An item starts at most one process, on its own path. *)
Lemma item_body_popen p : pres (popen_within [p]) (item_body E mode keys p).
Proof.
  intros s. unfold item_body. rewrite bind_run.
  set (build := match mode with
                | Encrypt => build_encrypt E keys p
                | Decrypt => build_decrypt E keys p
                end).
  assert (Hb : pres same_popen build)
    by (subst build; destruct mode;
        [apply sp_build_encrypt|apply sp_build_decrypt]).
  pose proof (build_input p s) as Hin. fold build in Hin.
  specialize (Hb s). destruct (build s) as [[e|cmd] s1]; cbn [snd] in *.
  { by apply same_popen_within. }
  specialize (Hin cmd s1 eq_refl). rewrite bind_run.
  assert (Hp : popen_within [p] s (snd (popen E cmd s1))).
  { exists [cmd]. unfold popen. split.
    - destruct (age E _ cmd _); simpl; by rewrite Hb.
    - constructor; [|constructor]. exists p. split; [by left|done]. }
  destruct (popen E cmd s1) as [[e|[rc err]] s2]; cbn [snd] in *; [done|].
  case_bool_decide; [|done]. etrans; [exact Hp|]. apply same_popen_within.
  apply pres_bind; [apply _| |intros ?; by apply pres_modify].
  destruct mode; [apply pres_ret, _|apply sp_post_decrypt].
Qed.

Lemma item_step_popen i p : pres (popen_within [p]) (item_step E mode keys i p).
Proof.
  unfold item_step. apply pres_bind; [apply _| |intros _].
  { apply pres_modify. intros s. by apply same_popen_within. }
  apply pres_try_finally; [apply _| |].
  - apply pres_try_except; [apply _|apply item_body_popen|].
    intros e s. by apply same_popen_within.
  - intros s. apply same_popen_within. apply sp_item_finally.
Qed.

Lemma popen_within_mono files files' s s' :
  files ⊆ files' -> popen_within files s s' -> popen_within files' s s'.
Proof.
  intros Hsub (L & HL & HF). exists L. split; [done|].
  eapply Forall_impl; [exact HF|]. intros cmd (p & Hp & Hc). exists p.
  split; [by apply Hsub|done].
Qed.

Lemma for_enumerate_popen files :
  forall i, pres (popen_within files) (for_enumerate (item_step E mode keys) i files).
Proof.
  induction files as [|p files IH]; intros i; simpl.
  - apply pres_ret, _.
  - apply pres_bind; [apply _| |intros _].
    + intros s. eapply popen_within_mono; [|apply item_step_popen].
      intros q Hq%list_elem_of_singleton. subst. by left.
    + intros s. eapply popen_within_mono; [|apply IH].
      intros q Hq. by right.
Qed.

(** A worker starts processes on the files of its batch only. *)
Lemma run_popen files : pres (popen_within files) (run E mode keys files).
Proof.
  unfold run. apply pres_bind; [apply _| |intros _].
  { apply pres_modify. intros s. by apply same_popen_within. }
  apply pres_bind; [apply _| |intros _].
  { apply pres_modify. intros s. by apply same_popen_within. }
  apply pres_try_finally; [apply _| |].
  - apply pres_try_except; [apply _|apply for_enumerate_popen|].
    intros e s. by apply same_popen_within.
  - intros s. by apply same_popen_within.
Qed.

End YubiagePopen.

Lemma on_finished_files success total g :
  files_to_process (_on_finished success total g) = files_to_process g
  \/ files_to_process (_on_finished success total g) = [].
Proof.
  unfold _on_finished. destruct (total =? 0)%nat; [by right|].
  destruct (success =? total)%nat; [|by right].
  destruct (current_action_mode g) as [[]|]; simpl; try (by left).
  by right.
Qed.

Lemma on_finished_mode success total g :
  current_action_mode (_on_finished success total g) = current_action_mode g
  \/ files_to_process (_on_finished success total g) = [].
Proof.
  unfold _on_finished. destruct (total =? 0)%nat; [by right|].
  destruct (success =? total)%nat; [|by right].
  destruct (current_action_mode g) as [[]|]; simpl; by left.
Qed.

(** What [_start_process] starts, it starts on files of the window. *)
Lemma start_process_popen E g w :
  started_on (fun p => p ∈ files_to_process g) w
             (snd (_start_process (Yubiage.run E) (g, w)))
  /\ (files_to_process (fst (_start_process (Yubiage.run E) (g, w)))
      = files_to_process g
      \/ files_to_process (fst (_start_process (Yubiage.run E) (g, w))) = []).
Proof.
  unfold _start_process.
  destruct (files_to_process g) as [|f0 fl] eqn:Hf.
  { simpl. split; [|by right]. exists []. by rewrite app_nil_r. }
  destruct (keys g) as [|k0 kl] eqn:Hk.
  { simpl. split; [|by right]. exists []. by rewrite app_nil_r. }
  destruct (current_action_mode g) as [m|] eqn:Hm.
  2:{ simpl. split; [|by right]. exists []. by rewrite app_nil_r. }
  cbn [fst snd]. split.
  - destruct (run_popen E m (k0 :: kl) (f0 :: fl) (worker_init w)) as (L & HL & HF).
    exists L. split; [exact HL|]. eapply Forall_impl; [exact HF|].
    intros cmd (p & Hp & Hc). by exists p.
  - destruct (last_finished _) as [[su to]|]; [|by left].
    destruct (on_finished_files su to
                (mkGUI (k0 :: kl) (recipients_keys g) (f0 :: fl) (Some m)
                   (_key_pending g) (drop_target g)
                   (status_start_process (mode_text m))
                   (Some (m, f0 :: fl, k0 :: kl)))) as [H|H];
      [left|right]; exact H.
Qed.

Lemma started_on_refl P w : started_on P w w.
Proof. exists []. by rewrite app_nil_r. Qed.

Lemma started_on_impl (P Q : str -> Prop) w w' :
  (forall p, P p -> Q p) -> started_on P w w' -> started_on Q w w'.
Proof.
  intros HPQ (L & HL & HF). exists L. split; [done|].
  eapply Forall_impl; [exact HF|]. intros cmd (p & Hc & Hp). exists p. auto.
Qed.

Lemma get_files_recursive_app f l1 l2 :
  Yubiage._get_files_recursive f (l1 ++ l2)
  = Yubiage._get_files_recursive f l1 ++ Yubiage._get_files_recursive f l2.
Proof. unfold Yubiage._get_files_recursive. apply flat_map_app. Qed.

Lemma collected_visible f paths :
  Forall (fun p => hidden p = false) (Yubiage._get_files_recursive f paths).
Proof.
  apply List.Forall_forall. intros p Hp.
  by eapply get_files_recursive_not_hidden.
Qed.

Lemma start_process_visible E g w :
  Forall (fun p => hidden p = false) (files_to_process g) ->
  started_on (fun p => hidden p = false) w
             (snd (_start_process (Yubiage.run E) (g, w)))
  /\ Forall (fun p => hidden p = false)
            (files_to_process (fst (_start_process (Yubiage.run E) (g, w)))).
Proof.
  intros Hv. destruct (start_process_popen E g w) as [Hs Hf]. split.
  - eapply started_on_impl; [|exact Hs]. intros p Hp.
    by eapply (proj1 (Forall_forall _ _) Hv).
  - destruct Hf as [-> | ->]; [done|constructor].
Qed.

(** C10.  [_get_files_recursive] returns no path whose base name begins
    with a dot: a dropped path with such a name contributes nothing, and the
    files found below a dropped directory are joined from names that do not
    begin with a dot.  The encryption the window then starts, at the drop or
    when the keys arrive, calls the tool on collected files only. *)
Theorem C10_hidden_files_not_encrypted :
  (forall f paths p,
      p ∈ Yubiage._get_files_recursive f paths -> hidden p = false)
  /\ (forall f l1 path l2,
         hidden path = true ->
         Yubiage._get_files_recursive f (l1 ++ path :: l2)
         = Yubiage._get_files_recursive f (l1 ++ l2))
  /\ (forall E paths g w g' w',
         Yubiage._on_files_dropped E paths (g, w) = inr (g', w') ->
         started_on (fun p => hidden p = false) w w'
         /\ (encrypts_visible g -> encrypts_visible g'))
  /\ (forall E key_paths g w,
         Forall (fun p => hidden p = false) (files_to_process g) ->
         started_on (fun p => hidden p = false) w
           (snd (Yubiage._on_keys_dropped_in_key_mode E key_paths (g, w)))).
Proof.
  split; [|split; [|split]].
  - intros f paths p Hp%list_elem_of_In. by eapply get_files_recursive_not_hidden.
  - intros f l1 path l2 Hh.
    change (path :: l2) with ([path] ++ l2).
    rewrite !get_files_recursive_app, get_files_recursive_skips by done. done.
  - intros E paths g w g' w'. unfold Yubiage._on_files_dropped.
    destruct (_key_pending g) eqn:Hpend.
    { intros [= <- <-]. split; [apply started_on_refl|done]. }
    destruct (existsb Yubiage.is_age paths || _).
    + destruct paths as [|p0 rest]; [done|].
      destruct (_ || _).
      { intros [= <- <-]. split; [apply started_on_refl|done]. }
      destruct (_ || _).
      { intros [= <- <-]. split; [apply started_on_refl|done]. }
      simpl. intros [= <- <-]. split; [apply started_on_refl|done].
    + pose proof (collected_visible (w_fs w) paths) as Hv.
      destruct (Yubiage._get_files_recursive (w_fs w) paths) as [|c0 cl] eqn:Hc.
      { intros [= <- <-]. split; [apply started_on_refl|done]. }
      destruct (existsb Yubiage.is_age (c0 :: cl)).
      { intros [= <- <-]. split; [apply started_on_refl|done]. }
      unfold Yubiage.proceed. cbn [current_action_mode recipients_keys].
      destruct (recipients_keys g) as [|k0 kl] eqn:Hk.
      { intros [= <- <-]. split; [apply started_on_refl|]. intros _ _. exact Hv. }
      intros Heq.
      match type of Heq with
      | inr (_start_process ?r (?g1, ?w1)) = _ =>
          destruct (start_process_visible E g1 w Hv) as [Hs Hf];
          assert (HX : _start_process r (g1, w1) = (g', w')) by congruence
      end.
      rewrite HX in Hs, Hf. cbn [fst snd] in Hs, Hf.
      split; [exact Hs|]. intros _ _. exact Hf.
  - intros E key_paths g w Hv. unfold Yubiage._on_keys_dropped_in_key_mode.
    destruct (negb (_key_pending g)); [apply started_on_refl|].
    destruct (List.filter _ key_paths) as [|k0 kl]; [apply started_on_refl|].
    match goal with
    | |- started_on _ _ (snd (_start_process _ (?g1, _))) =>
        exact (proj1 (start_process_visible E g1 w Hv))
    end.
Qed.

Lemma inr_pair_eta {A B} (r : exn + A * B) (a : A) (b : B) :
  (match r with inr _ => true | inl _ => false end) = true ->
  r = inr (match r with inr x => fst x | inl _ => a end,
           match r with inr x => snd x | inl _ => b end).
Proof. destruct r as [e|[x y]]; [done|]. reflexivity. Qed.

Lemma C10_witness :
  hidden (py "/d/.secret") = true
  /\ Yubiage._get_files_recursive Fixture.disk
       ([py "/d/dir"] ++ py "/d/.secret" :: [py "/d/a.txt"])
     = Yubiage._get_files_recursive Fixture.disk ([py "/d/dir"] ++ [py "/d/a.txt"])
  /\ started_on (fun p => hidden p = false) (Fixture.world Fixture.disk)
       (match Yubiage._on_files_dropped (Fixture.env Fixture.age_ok)
                [py "/d/dir"; py "/d/.secret"; py "/d/a.txt"]
                (Fixture.gui_keys, Fixture.world Fixture.disk) with
        | inr x => snd x
        | inl _ => Fixture.world Fixture.disk
        end).
Proof.
  set (r := Yubiage._on_files_dropped (Fixture.env Fixture.age_ok)
              [py "/d/dir"; py "/d/.secret"; py "/d/a.txt"]
              (Fixture.gui_keys, Fixture.world Fixture.disk)).
  assert (Hr : (match r with inr _ => true | inl _ => false end) = true)
    by (vm_compute; reflexivity).
  destruct C10_hidden_files_not_encrypted as (_ & Hskip & Hdrop & _).
  split; [reflexivity|]. split.
  - exact (Hskip Fixture.disk [py "/d/dir"] (py "/d/.secret") [py "/d/a.txt"]
             eq_refl).
  - exact (proj1 (Hdrop (Fixture.env Fixture.age_ok)
                    [py "/d/dir"; py "/d/.secret"; py "/d/a.txt"]
                    Fixture.gui_keys (Fixture.world Fixture.disk)
                    (match r with inr x => fst x | inl _ => Fixture.gui_keys end)
                    (match r with inr x => snd x | inl _ => Fixture.world Fixture.disk end)
                    (inr_pair_eta r Fixture.gui_keys (Fixture.world Fixture.disk) Hr))).
Defined.

(** The hidden file of a dropped directory and a hidden dropped file are
    left out; the tool is started on the three files that remain. *)
Example collect_example :
  Yubiage._get_files_recursive Fixture.disk
    [py "/d/dir"; py "/d/.secret"; py "/d/a.txt"]
  = [py "/d/dir/x.txt"; py "/d/dir/.git/config"; py "/d/a.txt"]
  /\ match Yubiage._on_files_dropped (Fixture.env Fixture.age_ok)
             [py "/d/dir"; py "/d/.secret"; py "/d/a.txt"]
             (Fixture.gui_keys, Fixture.world Fixture.disk) with
     | inr (g, w) =>
         map input_of (w_popen w)
         = [Some (py "/d/dir/x.txt"); Some (py "/d/dir/.git/config");
            Some (py "/d/a.txt")]
     | inl _ => False
     end.
Proof. vm_compute. split; reflexivity. Qed.

(** ** Staging files of a decryption *)

Global Instance no_new_dirs_preorder : PreOrder no_new_dirs.
Proof.
  split; [by intros s q|]. intros a b c H1 H2 q Hq. by apply H1, H2.
Qed.

Lemma find_loop_free f d b e :
  forall fuel n r, Yubiage.find_loop fuel f d b e n = Some r -> f !! r = None.
Proof.
  induction fuel as [|fuel IH]; intros n r; simpl; [done|].
  destruct (Fs.exists_ f (Yubiage.candidate d b e n)) eqn:Hex; simpl.
  - apply IH.
  - intros [= <-]. unfold Fs.exists_ in Hex. by destruct (f !! _).
Qed.

(** The name the resolver returns is free. *)
Lemma find_unique_is_free f path r :
  Yubiage._find_unique_filename f path = Some r -> f !! r = None.
Proof.
  unfold Yubiage._find_unique_filename.
  destruct (Fs.exists_ f path) eqn:Hex; cbn [negb].
  - destruct (Path.splitext _) as [name ext].
    destruct (Yubiage.numbering name) as [base start]. apply find_loop_free.
  - intros [= <-]. unfold Fs.exists_ in Hex. by destruct (f !! path).
Qed.

Lemma staging_path_truthy E p : Str.truthy (staging_path E p) = true.
Proof.
  unfold staging_path, Yubiage.temp_decrypt_name.
  by destruct (Yubiage.decrypt_output_base p).
Qed.

(** Closes the goals that hold because nothing relevant changed. *)
Ltac stg_done :=
  simpl; repeat split;
  try done; try (intros ? ?; eassumption); try eassumption.

Section Staging.

Context (E : Env) (keys : list str) (HE : writes_output_only E).

(** The body of a decryption: the staging path is recorded before anything
    can raise, no directory appears, and on a normal end of a [.age] input
    the staged text has moved to a name that was free. *)
Lemma decrypt_body_spec p s r s' :
  fs s !! staging_path E p <> Some Dir ->
  Yubiage.item_body E Decrypt keys p s = (r, s') ->
  temp_decrypt_path s' = Some (staging_path E p)
  /\ temp_recipients_file s' = temp_recipients_file s
  /\ no_new_dirs s s'
  /\ fs s' !! staging_path E p <> Some Dir
  /\ (r = inr tt -> Yubiage.is_age p = true ->
      exists final data,
        final <> staging_path E p
        /\ fs s !! final = None
        /\ fs s' !! final = Some (File data)
        /\ fs s' !! staging_path E p = None).
Proof.
  intros Hdir Heq. unfold Yubiage.item_body, Yubiage.build_decrypt in Heq.
  msteps_in Heq. fold (staging_path E p) in Heq.
  set (tdp := staging_path E p) in *.
  destruct keys as [|k0 kl].
  { msteps_in Heq. injection Heq as <- <-. stg_done. }
  msteps_in Heq.
  set (cmd := _ ++ _ ++ [p]) in Heq.
  assert (Hout : output_of cmd = Some tdp) by done.
  set (s1 := set_temp_decrypt_path _ _) in Heq.
  unfold popen in Heq.
  destruct (age E (popen_calls s1) cmd (fs s1)) as [m|rc err f'] eqn:Hage.
  { injection Heq as <- <-. stg_done. }
  destruct (HE _ _ _ _ _ _ Hage) as [Hframe Hnodir].
  change (fs s1) with (fs s) in *.
  assert (Htdp : f' !! tdp <> Some Dir) by (intros H; by apply Hdir, Hnodir).
  assert (Hdirs : forall q, f' !! q = Some Dir -> fs s !! q = Some Dir).
  { intros q Hq. destruct (decide (q = tdp)) as [->|Hne]; [by apply Hnodir|].
    rewrite <- Hframe; [done|]. rewrite Hout. congruence. }
  case_bool_decide as Hrc;
    [|injection Heq as <- <-; stg_done].
  unfold Yubiage.post_decrypt in Heq. fold (Yubiage.is_age p) in Heq.
  destruct (Yubiage.is_age p) eqn:Hisage.
  2:{ msteps_in Heq. injection Heq as <- <-. stg_done. }
  msteps_in Heq.
  cbn [temp_decrypt_path set_popen_calls set_fs s1 default from_option id
       set_temp_decrypt_path fs output_path_base set_output_path_base] in Heq.
  unfold Fs.exists_ in Heq.
  destruct (f' !! tdp) as [[data|]|] eqn:Hf'; [|done|].
  2:{ msteps_in Heq. injection Heq as <- <-. simpl. rewrite Hf'.
      stg_done. }
  msteps_in Heq.
  destruct (Yubiage._find_unique_filename f' _) as [final|] eqn:Hfind.
  2:{ msteps_in Heq. injection Heq as <- <-. simpl. rewrite Hf'.
      stg_done. }
  apply find_unique_is_free in Hfind.
  assert (Hne : final <> tdp) by (intros ->; congruence).
  unfold os_rename in Heq. cbn [fs set_fs] in Heq. rewrite Hf', Hfind in Heq.
  msteps_in Heq. injection Heq as <- <-.
  cbn [fs set_fs set_success_count temp_decrypt_path
       temp_recipients_file set_popen_calls s1 set_temp_decrypt_path
       set_output_path_base].
  split; [done|]. split; [done|]. split.
  { intros q. cbn [fs set_success_count set_fs].
    rewrite lookup_insert. case_decide; [done|].
    rewrite lookup_delete. case_decide; [done|]. apply Hdirs. }
  split.
  { rewrite lookup_insert_ne by done. by rewrite lookup_delete_eq. }
  intros _ _. exists final, data. split; [done|]. split.
  { rewrite <- Hframe; [done|]. rewrite Hout. congruence. }
  split; [by rewrite lookup_insert_eq|].
  rewrite lookup_insert_ne by done. by rewrite lookup_delete_eq.
Qed.

(** The clean-up of a decryption removes the staging file, if there is
    one. *)
Lemma remove_temps_decrypt s tdp :
  temp_recipients_file s = None ->
  temp_decrypt_path s = Some tdp ->
  Str.truthy tdp = true ->
  fs s !! tdp <> Some Dir ->
  fs (snd (Yubiage.remove_temps Decrypt s)) = delete tdp (fs s).
Proof.
  intros Htrf Htdp Htruthy Hdir. unfold Yubiage.remove_temps. msteps.
  rewrite Htrf. msteps. rewrite Htdp, Htruthy.
  rewrite bool_decide_true by done. cbn [andb]. unfold Fs.exists_.
  destruct (fs s !! tdp) as [[data|]|] eqn:Hl; [|done|].
  - unfold try_pass, try_except, os_remove. by rewrite Hl.
  - simpl. symmetry. by apply delete_id.
Qed.

Lemma item_finally_decrypt i s tdp :
  total_files s <> 0 ->
  temp_recipients_file s = None ->
  temp_decrypt_path s = Some tdp ->
  Str.truthy tdp = true ->
  fs s !! tdp <> Some Dir ->
  fs (snd (Yubiage.item_finally Decrypt i s)) = delete tdp (fs s).
Proof.
  intros Hn Htrf Htdp Htruthy Hdir.
  unfold Yubiage.item_finally, Yubiage.progress_value. msteps.
  destruct (total_files s); [done|]. msteps.
  by rewrite (remove_temps_decrypt _ tdp).
Qed.

(** One turn of a decryption: when it ends the staging path is free, no
    directory has appeared, and a [.age] input that ended normally has its
    text under a name that was free before the turn. *)
Lemma decrypt_step_spec i p s :
  total_files s <> 0 ->
  fs s !! staging_path E p <> Some Dir ->
  fs (snd (Yubiage.item_step E Decrypt keys i p s)) !! staging_path E p = None
  /\ no_new_dirs s (snd (Yubiage.item_step E Decrypt keys i p s))
  /\ (Yubiage.item_outcome E Decrypt keys p s = inr tt ->
      Yubiage.is_age p = true ->
      exists final data,
        final <> staging_path E p
        /\ fs s !! final = None
        /\ fs (snd (Yubiage.item_step E Decrypt keys i p s)) !! final
           = Some (File data)).
Proof.
  intros Hn Hdir. unfold Yubiage.item_step, Yubiage.item_outcome. msteps.
  unfold try_finally, try_except.
  destruct (Yubiage.item_body E Decrypt keys p (Yubiage.reset_locals s))
    as [rb sb] eqn:Hbody.
  destruct (decrypt_body_spec p (Yubiage.reset_locals s) rb sb Hdir Hbody)
    as (Htdp & Htrf & Hdirs & Hnd & Hok).
  pose proof (item_body_spec E Decrypt keys p (Yubiage.reset_locals s))
    as (_ & Htot & _).
  rewrite Hbody in Htot. cbn [snd] in Htot.
  change (total_files (Yubiage.reset_locals s)) with (total_files s) in Htot.
  change (temp_recipients_file (Yubiage.reset_locals s)) with (@None str) in Htrf.
  set (tdp := staging_path E p) in *.
  assert (Hfin : forall sh,
             fs sh = fs sb -> total_files sh = total_files sb ->
             temp_recipients_file sh = None -> temp_decrypt_path sh = Some tdp ->
             fs (snd (Yubiage.item_finally Decrypt i sh)) = delete tdp (fs sb)).
  { intros sh H1 H2 H3 H4. rewrite <- H1.
    apply item_finally_decrypt;
      [congruence|done|done|apply staging_path_truthy|by rewrite H1]. }
  destruct rb as [e|[]].
  - cbn [emit modify]. set (sh := set_signals _ sb).
    specialize (Hfin sh eq_refl eq_refl Htrf Htdp).
    destruct (Yubiage.item_finally Decrypt i sh) as [[e'|[]] s'];
      cbn [snd fst] in *; unfold no_new_dirs; rewrite Hfin.
    all: split; [by rewrite lookup_delete_eq|]; split; [|done].
    all: intros q; rewrite lookup_delete; case_decide; [done|]; apply Hdirs.
  - specialize (Hfin sb eq_refl eq_refl Htrf Htdp).
    destruct (Yubiage.item_finally Decrypt i sb) as [[e'|[]] s'];
      cbn [snd fst] in *; unfold no_new_dirs; rewrite Hfin.
    all: split; [by rewrite lookup_delete_eq|]; split.
    all: try (intros q; rewrite lookup_delete; case_decide; [done|]; apply Hdirs).
    all: intros _ Hage.
    all: destruct (Hok eq_refl Hage) as (final & data & Hne & Hfree & Hfinal & _).
    all: exists final, data; split; [done|]; split; [done|].
    all: by rewrite lookup_delete_ne.
Qed.

Lemma state_before_ge files k s :
  length files <= k ->
  Yubiage.state_before E Decrypt keys files (S k) s
  = Yubiage.state_before E Decrypt keys files k s.
Proof.
  intros Hk. unfold Yubiage.state_before. by rewrite !take_ge by lia.
Qed.

(** Along a batch no directory appears, so no staging path of the batch
    becomes one. *)
Lemma decrypt_batch_dirs files s :
  total_files s <> 0 ->
  (forall q, q ∈ files -> fs s !! staging_path E q <> Some Dir) ->
  forall k, no_new_dirs s (Yubiage.state_before E Decrypt keys files k s).
Proof.
  intros Hn Hdir. induction k as [|k IH]; [by intros q|].
  destruct (files !! k) as [p|] eqn:Hk.
  - rewrite (state_before_succ E Decrypt keys files k p s Hk).
    etrans; [exact IH|].
    apply decrypt_step_spec.
    + by rewrite state_before_total.
    + intros Hd. apply IH in Hd. revert Hd. apply Hdir.
      by eapply list_elem_of_lookup_2.
  - rewrite state_before_ge; [exact IH|]. by apply lookup_ge_None.
Qed.

End Staging.

Lemma start_process_mode E g w :
  current_action_mode (fst (_start_process (Yubiage.run E) (g, w)))
  = current_action_mode g
  \/ files_to_process (fst (_start_process (Yubiage.run E) (g, w))) = [].
Proof.
  unfold _start_process.
  destruct (files_to_process g) as [|f0 fl] eqn:Hf; [by right|].
  destruct (keys g) as [|k0 kl]; [by right|].
  destruct (current_action_mode g) as [m|] eqn:Hm; [|by right].
  cbn [fst]. destruct (last_finished _) as [[su to]|]; [|by left].
  match goal with
  | |- context [_on_finished su to ?g1] =>
      destruct (on_finished_mode su to g1) as [H|H]; [left|right]; exact H
  end.
Qed.


(** The tools of the examples keep the contract. *)
Lemma age_ok_contract : writes_output_only (Fixture.env Fixture.age_ok).
Proof.
  intros calls cmd f rc err f' H. cbn [age Fixture.env] in H.
  unfold Fixture.age_ok in H. destruct (output_of cmd) as [o|] eqn:Ho.
  - injection H as <- <- <-. split.
    + intros q Hq. rewrite lookup_insert_ne; [done|congruence].
    + intros o' [= <-]. by rewrite lookup_insert_eq.
  - injection H as <- <- <-. split; [done|]. intros o' [=].
Qed.

Lemma age_fail_at_contract n :
  writes_output_only (Fixture.env (Fixture.age_fail_at n)).
Proof.
  intros calls cmd f rc err f' H. cbn [age Fixture.env] in H.
  unfold Fixture.age_fail_at in H. destruct (length calls =? n)%nat.
  - injection H as <- <- <-. done.
  - by apply (age_ok_contract calls cmd f rc err f').
Qed.


(** Decrypting [m.age] next to an existing [m]: the text lands in [m (1)],
    [m] is kept, and no staging file is left. *)
Example decrypt_collision :
  let s := snd (Yubiage.run (Fixture.env Fixture.age_ok) Decrypt [Fixture.key]
                  [py "/d/m.age"]
                  (init_St (<[py "/d/m" := File (py "old")]> Fixture.disk))) in
  fs s !! py "/d/m" = Some (File (py "old"))
  /\ fs s !! py "/d/m (1)" = Some (File (py "data"))
  /\ fs s !! py "/d/m.temp_decrypted_4242" = None
  /\ signals s = [SigProgress (Qmake 1 1); SigFinished 1 1 false].
Proof. vm_compute. repeat split. Qed.

(** ** Encrypted directories *)

Global Instance keeps_preorder x : PreOrder (keeps x).
Proof.
  split; [by intros s; split|].
  intros a b c [H1 H2] [H3 H4]. split; intros H; [apply H3, H1, H|apply H4, H2, H].
Qed.

Global Instance same_locals_preorder : PreOrder same_locals.
Proof.
  split; [by intros s|].
  intros a b c (?&?&?) (?&?&?). unfold same_locals. repeat split; congruence.
Qed.

Global Instance extends_preorder : PreOrder extends.
Proof.
  split.
  - intros s q _. reflexivity.
  - intros a b c H1 H2 q Hq. rewrite H2; [by apply H1|]. by rewrite H1.
Qed.

Lemma keeps_same_fs x s s' : fs s' = fs s -> keeps x s s'.
Proof. intros H. unfold keeps. by rewrite H. Qed.

Lemma keeps_frame x s s' : fs s' !! x = fs s !! x -> keeps x s s'.
Proof. intros H. unfold keeps, Fs.isfile, Fs.isdir. by rewrite H. Qed.

Lemma extends_keeps x s s' : extends s s' -> keeps x s s'.
Proof.
  intros H. split; intros Hx; unfold Fs.isfile, Fs.isdir in *;
    (rewrite H; [done|]); by destruct (fs s !! x).
Qed.

Lemma kp_open_w x p : pres (keeps x) (open_w p).
Proof.
  intros s. unfold open_w.
  destruct (fs s !! p) as [[]|] eqn:Hp; cbn [snd]; try done.
  all: destruct (decide (x = p)) as [->|Hne];
    [|by apply keeps_frame; cbn [fs set_fs]; rewrite lookup_insert_ne].
  all: split; unfold Fs.isfile, Fs.isdir; cbn [fs set_fs];
    rewrite Hp, lookup_insert_eq; done.
Qed.

Lemma kp_flush x p t : pres (keeps x) (flush p t).
Proof.
  intros s. unfold flush.
  destruct (fs s !! p) as [[]|] eqn:Hp; cbn [snd]; try done.
  destruct (decide (x = p)) as [->|Hne];
    [|by apply keeps_frame; cbn [fs set_fs]; rewrite lookup_insert_ne].
  split; unfold Fs.isfile, Fs.isdir; cbn [fs set_fs];
    rewrite Hp, lookup_insert_eq; done.
Qed.

Lemma kp_os_remove x p : p <> x -> pres (keeps x) (os_remove p).
Proof.
  intros Hne s. unfold os_remove.
  destruct (fs s !! p) as [[]|] eqn:Hp; cbn [snd]; try done.
  apply keeps_frame. cbn [fs set_fs]. by rewrite lookup_delete_ne.
Qed.

Lemma kp_write_recipients x p keys : pres (keeps x) (write_recipients p keys).
Proof.
  unfold write_recipients. apply pres_bind; [apply _|apply kp_open_w|].
  intros _. apply pres_bind; [apply _|apply pres_gets, _|]. intros f.
  destruct (recipients_text f keys) as [text e].
  apply pres_bind; [apply _|apply kp_flush|]. intros _.
  destruct e; [apply pres_raise|apply pres_ret]; apply _.
Qed.

Lemma ext_os_mkdir p : pres extends (Ageyub.os_mkdir p).
Proof.
  intros s q Hq. unfold Ageyub.os_mkdir.
  destruct (fs s !! p) eqn:Hp; simpl; [done|].
  rewrite lookup_insert_ne; [done|]. intros ->. rewrite Hp in Hq.
  by destruct Hq.
Qed.

Lemma ext_os_makedirs fuel : forall name, pres extends (Ageyub.os_makedirs fuel name).
Proof.
  induction fuel as [|k IH]; intros name; simpl; [apply pres_ret, _|].
  destruct (if Str.truthy _ then _ else _) as [head tail].
  apply pres_bind; [apply _|apply pres_gets, _|]. intros f.
  apply pres_bind; [apply _| |].
  - destruct (_ && _); [|apply pres_ret, _].
    apply pres_bind; [apply _| |intros _; apply pres_ret, _].
    apply pres_try_except; [apply _|apply IH|].
    intros e. destruct e; first [apply pres_ret, _|apply pres_raise, _].
  - intros stop. destruct stop; [apply pres_ret, _|].
    apply pres_try_except; [apply _|apply ext_os_mkdir|].
    intros e. apply pres_bind; [apply _|apply pres_gets, _|]. intros f'.
    destruct (Fs.isdir f' name); [apply pres_ret, _|apply pres_raise, _].
Qed.

Lemma loc_open_w p : pres same_locals (open_w p).
Proof. intros s. unfold open_w. by repeat case_match. Qed.

Lemma loc_flush p t : pres same_locals (flush p t).
Proof. intros s. unfold flush. by repeat case_match. Qed.

Lemma loc_os_remove p : pres same_locals (os_remove p).
Proof. intros s. unfold os_remove. by repeat case_match. Qed.

Lemma loc_os_mkdir p : pres same_locals (Ageyub.os_mkdir p).
Proof. intros s. unfold Ageyub.os_mkdir. by repeat case_match. Qed.

Lemma loc_write_recipients p keys : pres same_locals (write_recipients p keys).
Proof.
  unfold write_recipients. apply pres_bind; [apply _|apply loc_open_w|].
  intros _. apply pres_bind; [apply _|apply pres_gets, _|]. intros f.
  destruct (recipients_text f keys) as [text e].
  apply pres_bind; [apply _|apply loc_flush|]. intros _.
  destruct e; [apply pres_raise|apply pres_ret]; apply _.
Qed.

Lemma loc_os_makedirs fuel : forall name, pres same_locals (Ageyub.os_makedirs fuel name).
Proof.
  induction fuel as [|k IH]; intros name; simpl; [apply pres_ret, _|].
  destruct (if Str.truthy _ then _ else _) as [head tail].
  apply pres_bind; [apply _|apply pres_gets, _|]. intros f.
  apply pres_bind; [apply _| |].
  - destruct (_ && _); [|apply pres_ret, _].
    apply pres_bind; [apply _| |intros _; apply pres_ret, _].
    apply pres_try_except; [apply _|apply IH|].
    intros e. destruct e; first [apply pres_ret, _|apply pres_raise, _].
  - intros stop. destruct stop; [apply pres_ret, _|].
    apply pres_try_except; [apply _|apply loc_os_mkdir|].
    intros e. apply pres_bind; [apply _|apply pres_gets, _|]. intros f'.
    destruct (Fs.isdir f' name); [apply pres_ret, _|apply pres_raise, _].
Qed.

(** *** Names that cannot coincide *)

Lemma app_suffix_neq (a b u v : str) :
  length u = length v -> u <> v -> a ++ u <> b ++ v.
Proof.
  intros Hlen Hne Heq. apply Hne.
  by apply app_inj_2 in Heq as [_ ?].
Qed.

Lemma join_suffix (a b : str) : exists q, Path.join a b = q ++ b.
Proof.
  unfold Path.join. destruct (Str.startswith b [Path.sep]); [by exists []|].
  destruct (_ || _); [by exists a|].
  exists (a ++ [Path.sep]). by rewrite <- app_assoc.
Qed.

Lemma tar_name_suffix E d : exists q, Ageyub.tar_name E d = q ++ py "r.gz".
Proof.
  unfold Ageyub.tar_name. destruct (join_suffix
    (Str.or_else (Path.dirname d) (cwd E))
    (Path.basename d ++ py "_temp_" ++ Str.of_nat (pid E) ++ py ".tar.gz"))
    as [q ->].
  exists (q ++ Path.basename d ++ py "_temp_" ++ Str.of_nat (pid E) ++ py ".ta").
  rewrite <- !app_assoc. done.
Qed.

Lemma temp_recipients_suffix E p :
  exists q, Ageyub.temp_recipients_name E p = q ++ py ".txt".
Proof.
  unfold Ageyub.temp_recipients_name. destruct (join_suffix
    (Str.or_else (Path.dirname p) (cwd E))
    (py ".temp_recipients_" ++ Str.of_nat (pid E) ++ py ".txt")) as [q ->].
  exists (q ++ py ".temp_recipients_" ++ Str.of_nat (pid E)).
  rewrite <- !app_assoc. done.
Qed.

Lemma tar_name_not_output E d p : Ageyub.tar_name E d <> p ++ py ".age".
Proof.
  destruct (tar_name_suffix E d) as [q ->]. by apply app_suffix_neq.
Qed.

Lemma tar_name_not_recipients E d p :
  Ageyub.tar_name E d <> Ageyub.temp_recipients_name E p.
Proof.
  destruct (tar_name_suffix E d) as [q ->].
  destruct (temp_recipients_suffix E p) as [q' ->]. by apply app_suffix_neq.
Qed.

Lemma dir_age_not_recipients E d p :
  d ++ py ".Dir.age" <> Ageyub.temp_recipients_name E p.
Proof.
  destruct (temp_recipients_suffix E p) as [q' ->].
  change (d ++ py ".Dir.age") with (d ++ py ".Dir" ++ py ".age").
  rewrite app_assoc. by apply app_suffix_neq.
Qed.

Lemma dir_age_not_tar E d d' : d ++ py ".Dir.age" <> Ageyub.tar_name E d'.
Proof.
  destruct (tar_name_suffix E d') as [q' ->].
  change (d ++ py ".Dir.age") with (d ++ py ".Dir" ++ py ".age").
  rewrite app_assoc. by apply app_suffix_neq.
Qed.

Lemma is_age_output p : Ageyub.is_age (p ++ py ".age") = true.
Proof.
  unfold Ageyub.is_age, Str.endswith, Str.lower. apply bool_decide_eq_true.
  rewrite map_app. by eexists.
Qed.

Section Archive.

Import Ageyub.
Context (E : Env) (keys : list str).
Context (HE : writes_output_only E) (HP : produces_output E).

Lemma kp_popen x cmd o :
  output_of cmd = Some o -> o <> x -> pres (keeps x) (popen E cmd).
Proof.
  intros Ho Hne s. unfold popen.
  destruct (age E (popen_calls s) cmd (fs s)) as [m|rc err f'] eqn:Hage;
    cbn [snd]; [by apply keeps_same_fs|].
  destruct (HE _ _ _ _ _ _ Hage) as [Hframe _].
  apply keeps_frame. cbn [fs set_fs set_popen_calls]. apply Hframe.
  rewrite Ho. congruence.
Qed.

(** The body of an encryption: what is not the output of the tool stays, and
    on a normal end a directory has its encrypted archive under its own
    name. *)
Lemma enc_body_spec o p s r s' :
  temp_recipients_file s = None ->
  item_body E Encrypt keys o p s = (r, s') ->
  (temp_recipients_file s' = None
   \/ temp_recipients_file s' = Some (temp_recipients_name E p))
  /\ temp_files_to_cleanup s' = temp_files_to_cleanup s
  /\ (forall x, x <> p ++ py ".age" -> keeps x s s')
  /\ (r = inr tt -> Fs.isdir (fs s) o = true -> o <> p ++ py ".age" ->
      Fs.isfile (fs s') (o ++ py ".Dir.age") = true).
Proof.
  intros Htrf Heq. unfold item_body, build_encrypt in Heq. msteps_in Heq.
  set (out := p ++ py ".age") in *.
  set (trf := temp_recipients_name E p) in *.
  destruct keys as [|k0 kl].
  { msteps_in Heq. injection Heq as <- <-.
    split; [by left|]. split; [done|]. split; [|done].
    intros x _. by apply keeps_same_fs. }
  msteps_in Heq.
  set (s1 := set_temp_recipients_file _ _) in Heq.
  destruct (write_recipients trf (k0 :: kl) s1) as [rw sw] eqn:Hw.
  pose proof (loc_write_recipients trf (k0 :: kl) s1) as (Hl1 & Hl2 & Hl3).
  rewrite Hw in Hl1, Hl2, Hl3. cbn [snd] in Hl1, Hl2, Hl3.
  change (temp_output_path s1) with (Some out) in Hl1.
  change (temp_recipients_file s1) with (Some trf) in Hl2.
  change (temp_files_to_cleanup s1) with (temp_files_to_cleanup s) in Hl3.
  assert (Hkw : forall x, keeps x s sw).
  { intros x. pose proof (kp_write_recipients x trf (k0 :: kl) s1) as H.
    by rewrite Hw in H. }
  destruct rw as [e|[]].
  { injection Heq as <- <-. split; [by right|]. done. }
  msteps_in Heq.
  destruct (negb (Fs.exists_ (fs sw) trf) || (getsize (fs sw) trf =? 0)%nat).
  { msteps_in Heq. injection Heq as <- <-. split; [by right|]. done. }
  msteps_in Heq.
  set (cmd := [py "age"; _; _; _; _; _; _]) in Heq.
  assert (Hout : output_of cmd = Some out) by done.
  unfold popen in Heq.
  destruct (age E (popen_calls sw) cmd (fs sw)) as [m|rc err f'] eqn:Hage.
  { injection Heq as <- <-. split; [by right|]. split; [done|].
    split; [|done]. intros x _. etrans; [apply Hkw|by apply keeps_same_fs]. }
  destruct (HE _ _ _ _ _ _ Hage) as [Hframe _].
  set (s3 := set_fs f' _) in Heq.
  assert (Hk3 : forall x, x <> out -> keeps x s s3).
  { intros x Hx. etrans; [apply Hkw|]. apply keeps_frame.
    apply Hframe. rewrite Hout. congruence. }
  case_bool_decide as Hrc.
  2:{ injection Heq as <- <-. split; [by right|]. done. }
  subst rc. pose proof (HP _ _ _ _ _ _ Hage Hout) as Hfile.
  unfold post_encrypt in Heq. msteps_in Heq.
  change (fs s3) with f' in Heq.
  destruct (Fs.isdir f' o) eqn:Hd.
  2:{ msteps_in Heq. injection Heq as <- <-. split; [by right|].
      split; [done|]. split.
      - intros x Hx. etrans; [by apply Hk3|by apply keeps_same_fs].
      - intros _ Ho Hne. apply (Hk3 o Hne) in Ho. cbn [s3 fs set_fs] in Ho.
        congruence. }
  msteps_in Heq. change (temp_output_path s3) with (temp_output_path sw) in Heq.
  rewrite Hl1 in Heq. cbn [default from_option id] in Heq.
  unfold Fs.isfile in Hfile. unfold Fs.exists_ in Heq.
  destruct (f' !! out) as [[data|]|] eqn:Hfo; try done. clear Hfile.
  msteps_in Heq.
  set (final := o ++ py ".Dir.age") in *.
  set (parent := Str.or_else (Path.dirname final) (py ".")) in *.
  destruct (os_makedirs (S (length parent)) parent s3) as [rm sm] eqn:Hm.
  pose proof (ext_os_makedirs (S (length parent)) parent s3) as Hext.
  pose proof (loc_os_makedirs (S (length parent)) parent s3) as (_ & Hm2 & Hm3).
  rewrite Hm in Hext, Hm2, Hm3. cbn [snd] in Hext, Hm2, Hm3.
  change (temp_recipients_file s3) with (temp_recipients_file sw) in Hm2.
  change (temp_files_to_cleanup s3) with (temp_files_to_cleanup sw) in Hm3.
  assert (Hkm : forall x, x <> out -> keeps x s sm).
  { intros x Hx. etrans; [by apply Hk3|by apply extends_keeps]. }
  destruct rm as [e|[]].
  { injection Heq as <- <-. split; [right; congruence|].
    split; [congruence|]. done. }
  assert (Hsrc : fs sm !! out = Some (File data)).
  { rewrite Hext; change (fs s3) with f'; [exact Hfo|]. by rewrite Hfo. }
  unfold os_rename in Heq. rewrite Hsrc in Heq.
  destruct (fs sm !! final) as [[d|]|] eqn:Hdst.
  2:{ msteps_in Heq. injection Heq as <- <-. split; [right; congruence|].
      split; [congruence|]. done. }
  all: msteps_in Heq; injection Heq as <- <-;
    (split; [right; exact (eq_trans Hm2 Hl2)|]);
    (split; [exact (eq_trans Hm3 Hl3)|]); split.
  all: try (intros _ _ _; unfold Fs.isfile;
            cbn [fs set_fs set_success_count]; by rewrite lookup_insert_eq).
  all: intros x Hx; (etrans; [by apply Hkm|]);
    destruct (decide (x = final)) as [->|Hxf];
    [|apply keeps_frame; cbn [fs set_fs set_success_count];
      rewrite lookup_insert_ne by done; by rewrite lookup_delete_ne].
  all: split; unfold Fs.isfile, Fs.isdir; cbn [fs set_fs set_success_count];
    rewrite Hdst, lookup_insert_eq; done.
Qed.

(** The inner [finally] of an encryption removes the recipients file at
    most. *)
Lemma enc_finally_spec i trf s :
  temp_recipients_file s = None \/ temp_recipients_file s = Some trf ->
  temp_files_to_cleanup (snd (item_finally Encrypt i s)) = temp_files_to_cleanup s
  /\ forall x, x <> trf -> keeps x s (snd (item_finally Encrypt i s)).
Proof.
  intros Htrf. unfold item_finally, progress_value. msteps.
  destruct (total_files s); [by msteps|]. msteps.
  set (s1 := set_signals _ s).
  unfold remove_temps. msteps.
  change (temp_recipients_file s1) with (temp_recipients_file s).
  assert (H1 : exists r1 s2,
             match temp_recipients_file s with
             | Some p =>
                 if Str.truthy p && Fs.exists_ (fs s1) p
                 then try_pass (os_remove p)
                 else mret ()
             | None => mret ()
             end s1 = (inr r1, s2)
             /\ temp_files_to_cleanup s2 = temp_files_to_cleanup s
             /\ forall x, x <> trf -> keeps x s s2).
  { destruct Htrf as [->| ->].
    - exists tt, s1. split; [done|]. split; [done|].
      intros x _. by apply keeps_same_fs.
    - destruct (_ && _).
      + pose proof (noraise_try_pass (os_remove trf) s1) as [[] Hr].
        pose proof (pres_try_pass same_locals _ (loc_os_remove trf) s1)
          as (_ & _ & Hc).
        destruct (try_pass (os_remove trf) s1) as [r1 s2] eqn:Hrm.
        cbn [fst snd] in *. subst r1. exists tt, s2. split; [done|].
        split; [exact Hc|]. intros x Hx.
        pose proof (pres_try_pass (keeps x) _ (kp_os_remove x trf (not_eq_sym Hx)) s1)
          as Hk.
        rewrite Hrm in Hk. exact Hk.
      + exists tt, s1. split; [done|]. split; [done|].
        intros x _. by apply keeps_same_fs. }
  destruct H1 as (r1 & s2 & -> & Hc & Hk). msteps.
  assert (H2 : match temp_decrypt_path s2 with
               | Some p =>
                   if bool_decide (Encrypt = Decrypt) && Str.truthy p
                      && Fs.exists_ (fs s2) p
                   then try_pass (os_remove p)
                   else mret ()
               | None => mret ()
               end s2 = (inr tt, s2)).
  { destruct (temp_decrypt_path s2); [|done].
    by rewrite bool_decide_eq_false_2. }
  rewrite H2. done.
Qed.

(** One turn of an encryption. *)
Lemma enc_step_spec fmap i p o s :
  fmap !! p = Some o ->
  temp_files_to_cleanup (snd (item_step E Encrypt keys fmap i p s))
  = temp_files_to_cleanup s
  /\ (forall x, x <> p ++ py ".age" -> x <> temp_recipients_name E p ->
      keeps x s (snd (item_step E Encrypt keys fmap i p s)))
  /\ (item_outcome E Encrypt keys o p s = inr tt ->
      Fs.isdir (fs s) o = true -> o <> p ++ py ".age" ->
      Fs.isfile (fs (snd (item_step E Encrypt keys fmap i p s)))
                (o ++ py ".Dir.age") = true).
Proof.
  intros Hmap. unfold item_step, item_outcome. rewrite Hmap. msteps.
  unfold try_finally, try_except.
  destruct (item_body E Encrypt keys o p (reset_locals s)) as [rb sb] eqn:Hb.
  destruct (enc_body_spec o p (reset_locals s) rb sb eq_refl Hb)
    as (Htrf & Hcl & Hk & Hok).
  change (temp_files_to_cleanup (reset_locals s))
    with (temp_files_to_cleanup s) in Hcl.
  assert (Hfin : forall sh,
             fs sh = fs sb -> temp_recipients_file sh = temp_recipients_file sb ->
             temp_files_to_cleanup sh = temp_files_to_cleanup sb ->
             temp_files_to_cleanup (snd (item_finally Encrypt i sh))
             = temp_files_to_cleanup s
             /\ forall x, x <> temp_recipients_name E p ->
                  keeps x sb (snd (item_finally Encrypt i sh))).
  { intros sh H1 H2 H3.
    destruct (enc_finally_spec i (temp_recipients_name E p) sh) as [Hc Hkf].
    { rewrite H2. exact Htrf. }
    split; [congruence|]. intros x Hx. etrans; [|by apply Hkf].
    by apply keeps_same_fs. }
  assert (Hsame : forall x, keeps x s (reset_locals s) /\ keeps x (reset_locals s) s)
    by (intros x; split; by apply keeps_same_fs).
  destruct rb as [e|[]].
  - cbn [emit modify]. set (sh := set_signals _ sb).
    destruct (Hfin sh eq_refl eq_refl eq_refl) as [Hc Hkf].
    destruct (item_finally Encrypt i sh) as [[e'|[]] s'] eqn:Hf;
      cbn [snd fst] in *.
    all: split; [done|]; split; [|done].
    all: intros x Hx1 Hx2; (etrans; [apply Hsame|]);
      (etrans; [by apply Hk|by apply Hkf]).
  - destruct (Hfin sb eq_refl eq_refl eq_refl) as [Hc Hkf].
    destruct (item_finally Encrypt i sb) as [[e'|[]] s'] eqn:Hf;
      cbn [snd fst] in *.
    all: split; [done|]; split.
    all: try (intros x Hx1 Hx2; (etrans; [apply Hsame|]);
              (etrans; [by apply Hk|by apply Hkf])).
    all: intros _ Hd Hne; apply (Hkf _ (dir_age_not_recipients E o p));
      by apply Hok.
Qed.

(** The turns of an encryption keep every path that is neither an output
    of the tool nor a recipients file of one of the items. *)
Lemma enc_items_keeps fmap x files :
  (forall p, p ∈ files -> is_Some (fmap !! p)) ->
  (forall p, p ∈ files -> x <> p ++ py ".age" /\ x <> temp_recipients_name E p) ->
  forall i s,
    keeps x s (run_items E Encrypt keys fmap i files s)
    /\ temp_files_to_cleanup (run_items E Encrypt keys fmap i files s)
       = temp_files_to_cleanup s.
Proof.
  induction files as [|p r IH]; intros Hmap Hx i s; cbn [run_items]; [done|].
  destruct (Hmap p) as [o Ho]; [by left|].
  destruct (enc_step_spec fmap i p o s Ho) as (Hc & Hk & _).
  destruct (Hx p) as [Hx1 Hx2]; [by left|].
  destruct (IH (fun q Hq => Hmap q (list_elem_of_further _ _ _ Hq))
               (fun q Hq => Hx q (list_elem_of_further _ _ _ Hq))
               (S i) (snd (item_step E Encrypt keys fmap i p s))) as [IH1 IH2].
  split; [|congruence]. etrans; [by apply Hk|exact IH1].
Qed.

End Archive.

Lemma kp_create_tar_archive E x d : pres (keeps x) (Ageyub._create_tar_archive E d).
Proof.
  unfold Ageyub._create_tar_archive.
  apply pres_try_except; [apply _| |intros e; apply pres_raise, _].
  apply pres_bind; [apply _|apply kp_open_w|]. intros _.
  apply pres_bind; [apply _|apply pres_gets, _|]. intros f.
  destruct (tar_gz E f d); [apply pres_raise, _|].
  apply pres_bind; [apply _|apply kp_flush|]. intros _.
  apply pres_bind; [apply _| |intros _; apply pres_ret, _].
  apply pres_modify. intros s. by apply keeps_same_fs.
Qed.

(** A successful archiving leaves a regular file at the archive's path and
    registers it for the clean-up. *)
Lemma create_tar_ok E d s t s2 :
  Ageyub._create_tar_archive E d s = (inr t, s2) ->
  t = Ageyub.tar_name E d
  /\ Fs.isfile (fs s2) t = true
  /\ temp_files_to_cleanup s2 = temp_files_to_cleanup s ++ [t].
Proof.
  unfold Ageyub._create_tar_archive, try_except. intros Heq.
  msteps_in Heq. set (tar := Ageyub.tar_name E d) in *.
  unfold open_w in Heq.
  destruct (fs s !! tar) as [[data|]|] eqn:Htar; [|done|].
  all: msteps_in Heq; cbn [fs set_fs] in Heq;
    destruct (tar_gz E _ d) as [msg|data']; [done|];
    msteps_in Heq; unfold flush in Heq; cbn [fs set_fs] in Heq;
    rewrite lookup_insert_eq in Heq; msteps_in Heq;
    injection Heq as <- <-; split; [done|]; split; [|done];
    unfold Fs.isfile; cbn [fs set_fs set_temp_files_to_cleanup];
    by rewrite lookup_insert_eq.
Qed.

(** Pre-processing that ends normally has an archive, registered for the
    clean-up, for every directory of the batch; it registers nothing else and
    keeps what was there. *)
Lemma archive_loop_files E files :
  forall acc fmap s processed fmap' s1,
    Ageyub.archive_loop E files acc fmap s = (inr (processed, fmap'), s1) ->
    (forall x, keeps x s s1)
    /\ (forall t, t ∈ temp_files_to_cleanup s1 ->
          t ∈ temp_files_to_cleanup s \/ exists d, t = Ageyub.tar_name E d)
    /\ (forall t, t ∈ temp_files_to_cleanup s -> t ∈ temp_files_to_cleanup s1)
    /\ (forall d, d ∈ files -> Fs.isdir (fs s) d = true ->
          Ageyub.tar_name E d ∈ temp_files_to_cleanup s1
          /\ Fs.isfile (fs s1) (Ageyub.tar_name E d) = true).
Proof.
  induction files as [|d0 r IH]; intros acc fmap s processed fmap' s1 Heq;
    cbn [Ageyub.archive_loop] in Heq.
  { msteps_in Heq. injection Heq as <- <- <-. repeat split; try done.
    - by left.
    - by apply elem_of_nil in H.
    - by apply elem_of_nil in H. }
  msteps_in Heq. destruct (Fs.isdir (fs s) d0) eqn:Hd0.
  - msteps_in Heq. set (sa := set_signals _ s) in Heq.
    destruct (Ageyub._create_tar_archive E d0 sa) as [[e|t] s2] eqn:Hc; [done|].
    destruct (create_tar_ok E d0 sa t s2 Hc) as (-> & Hfile & Hreg).
    change (temp_files_to_cleanup sa) with (temp_files_to_cleanup s) in Hreg.
    assert (Hk2 : forall x, keeps x s s2).
    { intros x. pose proof (kp_create_tar_archive E x d0 sa) as H.
      by rewrite Hc in H. }
    destruct (IH _ _ _ _ _ _ Heq) as (Hk & Hin & Hmono & Hdirs).
    split; [intros x; etrans; [apply Hk2|apply Hk]|].
    split.
    { intros t [Ht|Ht]%Hin; [|by right]. rewrite Hreg in Ht.
      apply elem_of_app in Ht as [Ht|Ht%list_elem_of_singleton]; [by left|].
      right. by exists d0. }
    split.
    { intros t Ht. apply Hmono. rewrite Hreg. apply elem_of_app. by left. }
    intros d [->|Hd]%elem_of_cons Hdir.
    + split.
      * apply Hmono. rewrite Hreg. apply elem_of_app. right. by left.
      * by apply (Hk (Ageyub.tar_name E d0)).
    + apply Hdirs; [done|]. by apply (Hk2 d).
  - destruct (IH _ _ _ _ _ _ Heq) as (Hk & Hin & Hmono & Hdirs).
    split; [done|]. split; [done|]. split; [done|].
    intros d [->|Hd]%elem_of_cons Hdir; [congruence|]. by apply Hdirs.
Qed.

(** The clean-up removes every registered path that is not a directory, and
    touches no other path. *)
Lemma cleanup_removes (l : list str) :
  forall i s,
    let s' := snd (for_enumerate (fun (_ : nat) temp_file =>
                                    try_pass (os_remove temp_file)) i l s) in
    (forall q, fs s !! q = None -> fs s' !! q = None)
    /\ (forall q, q ∉ l -> fs s' !! q = fs s !! q)
    /\ (forall t, t ∈ l -> fs s !! t <> Some Dir -> fs s' !! t = None).
Proof.
  induction l as [|h r IH]; intros i s; cbn [for_enumerate].
  { cbn. split; [done|]. split; [done|]. intros t Ht. by apply elem_of_nil in Ht. }
  rewrite bind_run.
  assert (H1 : exists s2,
             try_pass (os_remove h) s = (inr tt, s2)
             /\ (forall q, q <> h -> fs s2 !! q = fs s !! q)
             /\ (fs s !! h <> Some Dir -> fs s2 !! h = None)
             /\ (forall q, fs s !! q = None -> fs s2 !! q = None)).
  { unfold try_pass, try_except, os_remove.
    destruct (fs s !! h) as [[data|]|] eqn:Hh.
    - eexists. split; [done|]. cbn [fs set_fs]. split.
      + intros q Hq. by rewrite lookup_delete_ne.
      + split; [by rewrite lookup_delete_eq|].
        intros q Hq. rewrite lookup_delete. by case_decide.
    - exists s. split; [done|]. rewrite Hh. done.
    - exists s. split; [done|]. rewrite Hh. done. }
  destruct H1 as (s2 & -> & Hframe & Hrm & Hnone).
  destruct (IH (S i) s2) as (IH1 & IH2 & IH3). cbv zeta.
  split; [intros q Hq; by apply IH1, Hnone|]. split.
  { intros q Hq. apply not_elem_of_cons in Hq as [Hq1 Hq2].
    rewrite IH2 by done. by apply Hframe. }
  intros t Ht Hdir. destruct (decide (t = h)) as [->|Hne].
  - by apply IH1, Hrm.
  - apply elem_of_cons in Ht as [Ht|Ht]; [done|].
    apply IH3; [done|]. by rewrite Hframe.
Qed.

Lemma age_ok_produces : produces_output (Fixture.env Fixture.age_ok).
Proof.
  intros calls cmd f err f' o Hage Ho. cbn [age Fixture.env] in Hage.
  unfold Fixture.age_ok in Hage. rewrite Ho in Hage.
  injection Hage as <- <-. unfold Fs.isfile. by rewrite lookup_insert_eq.
Qed.



(** When the tool returns 0 and has written nothing, the rename is skipped
    without an error: the directory counts as a success and there is no
    [dir.Dir.age]. *)
Example silent_tool_leaves_no_output :
  let s := snd (Ageyub.run (Fixture.env Fixture.age_silent) Encrypt [Fixture.key]
                  [py "/d/dir"] (init_St Fixture.disk)) in
  signals s = [SigProgress (Qmake 1 100); SigProgress (Qmake 1 1);
               SigFinished 1 1 true]
  /\ fs s !! py "/d/dir.Dir.age" = None
  /\ fs s !! py "/d/dir_temp_4242.tar.gz" = None.
Proof. vm_compute. repeat split. Qed.

(** ** Decryption in [ageyub_ui.py] *)

Lemma ageyub_staging_truthy E p : Str.truthy (ageyub_staging_path E p) = true.
Proof.
  unfold ageyub_staging_path, Ageyub.temp_decrypt_name.
  by destruct (Ageyub.decrypt_output_base p).
Qed.

Lemma ageyub_archive_not_staging E p :
  ageyub_archive_path p <> ageyub_staging_path E p.
Proof.
  unfold ageyub_archive_path, ageyub_staging_path, Ageyub.temp_decrypt_name.
  intros H%app_inv_head. discriminate H.
Qed.

Ltac dec_done :=
  cbn [fs temp_decrypt_path temp_recipients_file temp_files_to_cleanup
       set_fs set_popen_calls set_temp_decrypt_path set_output_path_base
       set_success_count];
  repeat split; try done; try (intros; subst; done);
  try (intros; eauto; fail).

Section AgeyubDecrypt.

Import Ageyub.
Context (E : Env) (keys : list str) (HE : writes_output_only E).

(** The body of a decryption: only the staging path and, for a name in
    [.dir.age], the archive's path can change. *)
Lemma ageyub_decrypt_body_spec o p s r s' :
  fs s !! ageyub_staging_path E p <> Some Dir ->
  item_body E Decrypt keys o p s = (r, s') ->
  temp_decrypt_path s' = Some (ageyub_staging_path E p)
  /\ temp_recipients_file s' = temp_recipients_file s
  /\ temp_files_to_cleanup s' = temp_files_to_cleanup s
  /\ fs s' !! ageyub_staging_path E p <> Some Dir
  /\ (is_dir_age p = false ->
      forall q, q <> ageyub_staging_path E p -> fs s' !! q = fs s !! q)
  /\ (forall q, q <> ageyub_staging_path E p -> q <> ageyub_archive_path p ->
      fs s' !! q = fs s !! q)
  /\ (r = inr tt -> is_dir_age p = true -> produces_output E ->
      fs s' !! ageyub_staging_path E p = None
      /\ exists data, fs s' !! ageyub_archive_path p = Some (File data)).
Proof.
  intros Hdir Heq. unfold item_body, build_decrypt in Heq.
  msteps_in Heq. fold (ageyub_staging_path E p) in Heq.
  set (tdp := ageyub_staging_path E p) in *.
  destruct keys as [|k0 kl].
  { msteps_in Heq. injection Heq as <- <-. dec_done. }
  msteps_in Heq.
  set (cmd := _ ++ _ ++ [p]) in Heq.
  assert (Hout : output_of cmd = Some tdp) by done.
  set (s1 := set_temp_decrypt_path _ _) in Heq.
  unfold popen in Heq.
  destruct (age E (popen_calls s1) cmd (fs s1)) as [m|rc err f'] eqn:Hage.
  { injection Heq as <- <-. dec_done. }
  destruct (HE _ _ _ _ _ _ Hage) as [Hframe Hnodir].
  change (fs s1) with (fs s) in *.
  assert (Htdp : f' !! tdp <> Some Dir) by (intros H; by apply Hdir, Hnodir).
  assert (Hfr : forall q, q <> tdp -> f' !! q = fs s !! q).
  { intros q Hq. apply Hframe. rewrite Hout. congruence. }
  case_bool_decide as Hrc;
    [|injection Heq as <- <-; dec_done].
  subst rc. unfold post_decrypt in Heq. fold (is_dir_age p) in Heq.
  destruct (is_dir_age p) eqn:Hisdir.
  2:{ msteps_in Heq. injection Heq as <- <-. dec_done. }
  msteps_in Heq.
  cbn [temp_decrypt_path set_popen_calls set_fs s1 default from_option id
       set_temp_decrypt_path fs output_path_base set_output_path_base] in Heq.
  fold (ageyub_archive_path p) in Heq. set (final := ageyub_archive_path p) in *.
  pose proof (ageyub_archive_not_staging E p) as Hne. fold tdp final in Hne.
  unfold Fs.exists_ in Heq.
  destruct (f' !! tdp) as [[data|]|] eqn:Hf'; [|done|].
  2:{ msteps_in Heq. injection Heq as <- <-.
      cbn [fs temp_decrypt_path temp_recipients_file temp_files_to_cleanup
           set_fs set_popen_calls set_temp_decrypt_path set_output_path_base
           set_success_count s1].
      rewrite Hf'. repeat split; try done; try (intros; by apply Hfr).
      all: match goal with
           | HP : produces_output E |- _ =>
               pose proof (HP _ _ _ _ _ _ Hage Hout) as Hfile
           end; unfold Fs.isfile in Hfile; by rewrite Hf' in Hfile. }
  unfold os_rename in Heq. cbn [fs set_fs] in Heq. rewrite Hf' in Heq.
  destruct (f' !! final) as [[d|]|] eqn:Hdst.
  2:{ injection Heq as <- <-.
      cbn [fs temp_decrypt_path temp_recipients_file temp_files_to_cleanup
           set_fs set_popen_calls set_temp_decrypt_path set_output_path_base
           set_success_count s1].
      rewrite Hf'. repeat split; try done; intros; by apply Hfr. }
  all: msteps_in Heq; injection Heq as <- <-;
    cbn [fs temp_decrypt_path temp_recipients_file temp_files_to_cleanup
         set_fs set_popen_calls set_temp_decrypt_path set_output_path_base
         set_success_count s1];
    (split; [done|]); (split; [done|]); (split; [done|]); split;
    [rewrite lookup_insert_ne by done; by rewrite lookup_delete_eq|];
    (split; [done|]); split;
    [intros q Hq1 Hq2; rewrite lookup_insert_ne by done;
     rewrite lookup_delete_ne by done; by apply Hfr|];
    intros _ _ _; split;
    [rewrite lookup_insert_ne by done; by rewrite lookup_delete_eq|];
    exists data; by rewrite lookup_insert_eq.
Qed.

(** The clean-up of a decryption removes the staging file, if there is
    one. *)
Lemma ageyub_finally_decrypt i s tdp :
  total_files s <> 0 ->
  temp_recipients_file s = None ->
  temp_decrypt_path s = Some tdp ->
  Str.truthy tdp = true ->
  fs s !! tdp <> Some Dir ->
  fs (snd (item_finally Decrypt i s)) = delete tdp (fs s)
  /\ temp_files_to_cleanup (snd (item_finally Decrypt i s))
     = temp_files_to_cleanup s.
Proof.
  intros Hn Htrf Htdp Htruthy Hdir.
  unfold item_finally, progress_value. msteps.
  destruct (total_files s); [done|]. msteps.
  unfold remove_temps. msteps.
  cbn [temp_recipients_file set_signals]. rewrite Htrf. msteps.
  cbn [temp_decrypt_path set_signals fs]. rewrite Htdp, Htruthy.
  rewrite bool_decide_true by done. cbn [andb]. unfold Fs.exists_.
  destruct (fs s !! tdp) as [[data|]|] eqn:Hl; [|done|].
  - unfold try_pass, try_except, os_remove. cbn [fs set_signals].
    by rewrite Hl.
  - cbn [snd mret M_ret fs set_signals temp_files_to_cleanup].
    split; [|done]. symmetry. by apply delete_id.
Qed.

(** One turn of a decryption: the staging path is free when it ends, and
    nothing else has changed but, for a name in [.dir.age], the archive. *)
Lemma ageyub_decrypt_step_spec fmap i p o s :
  fmap !! p = Some o ->
  total_files s <> 0 ->
  fs s !! ageyub_staging_path E p <> Some Dir ->
  let s' := snd (item_step E Decrypt keys fmap i p s) in
  fs s' !! ageyub_staging_path E p = None
  /\ temp_files_to_cleanup s' = temp_files_to_cleanup s
  /\ (is_dir_age p = false -> fs s' = delete (ageyub_staging_path E p) (fs s))
  /\ (forall q, q <> ageyub_staging_path E p -> q <> ageyub_archive_path p ->
      fs s' !! q = fs s !! q)
  /\ (item_outcome E Decrypt keys o p s = inr tt -> is_dir_age p = true ->
      produces_output E ->
      exists data, fs s' !! ageyub_archive_path p = Some (File data)).
Proof.
  intros Hmap Hn Hdir. unfold item_step, item_outcome. rewrite Hmap. msteps.
  unfold try_finally, try_except.
  destruct (item_body E Decrypt keys o p (reset_locals s)) as [rb sb] eqn:Hb.
  destruct (ageyub_decrypt_body_spec o p (reset_locals s) rb sb Hdir Hb)
    as (Htdp & Htrf & Hcl & Hnd & Hplain & Hfr & Hok).
  pose proof (a_item_body_spec E Decrypt keys o p (reset_locals s))
    as (_ & Htot & _).
  rewrite Hb in Htot. cbn [snd] in Htot.
  change (total_files (reset_locals s)) with (total_files s) in Htot.
  change (temp_recipients_file (reset_locals s)) with (@None str) in Htrf.
  change (temp_files_to_cleanup (reset_locals s))
    with (temp_files_to_cleanup s) in Hcl.
  change (fs (reset_locals s)) with (fs s) in Hplain, Hfr.
  set (tdp := ageyub_staging_path E p) in *.
  assert (Hfin : forall sh,
             fs sh = fs sb -> total_files sh = total_files sb ->
             temp_recipients_file sh = None -> temp_decrypt_path sh = Some tdp ->
             temp_files_to_cleanup sh = temp_files_to_cleanup sb ->
             fs (snd (item_finally Decrypt i sh)) = delete tdp (fs sb)
             /\ temp_files_to_cleanup (snd (item_finally Decrypt i sh))
                = temp_files_to_cleanup s).
  { intros sh H1 H2 H3 H4 H5. rewrite <- H1, <- Hcl, <- H5.
    apply ageyub_finally_decrypt;
      [congruence|done|done|apply ageyub_staging_truthy|by rewrite H1]. }
  assert (Hall : forall sh,
             fs (snd (item_finally Decrypt i sh)) = delete tdp (fs sb) ->
             fs (snd (item_finally Decrypt i sh)) !! tdp = None
             /\ (is_dir_age p = false ->
                 fs (snd (item_finally Decrypt i sh)) = delete tdp (fs s))
             /\ (forall q, q <> tdp -> q <> ageyub_archive_path p ->
                 fs (snd (item_finally Decrypt i sh)) !! q = fs s !! q)
             /\ (rb = inr tt -> is_dir_age p = true -> produces_output E ->
                 exists data,
                   fs (snd (item_finally Decrypt i sh)) !! ageyub_archive_path p
                   = Some (File data))).
  { intros sh ->. split; [by rewrite lookup_delete_eq|]. split.
    { intros Hp. apply map_eq. intros q. rewrite !lookup_delete.
      case_decide; [done|]. by apply Hplain. }
    split.
    { intros q Hq1 Hq2. rewrite lookup_delete_ne by done. by apply Hfr. }
    intros H1 H2 H3. destruct (Hok H1 H2 H3) as [_ [data Hd]]. exists data.
    rewrite lookup_delete_ne; [done|].
    apply not_eq_sym, ageyub_archive_not_staging. }
  destruct rb as [e|[]].
  - cbn [emit modify]. set (sh := set_signals _ sb).
    destruct (Hfin sh eq_refl eq_refl Htrf Htdp eq_refl) as [Hf1 Hf2].
    destruct (Hall sh Hf1) as (A1 & A2 & A3 & A4).
    destruct (item_finally Decrypt i sh) as [[e'|[]] s'];
      cbn [snd fst] in *; done.
  - destruct (Hfin sb eq_refl eq_refl Htrf Htdp eq_refl) as [Hf1 Hf2].
    destruct (Hall sb Hf1) as (A1 & A2 & A3 & A4).
    destruct (item_finally Decrypt i sb) as [[e'|[]] s'];
      cbn [snd fst] in *; done.
Qed.

End AgeyubDecrypt.

Lemma ageyub_decrypt_items_plain E keys (HE : writes_output_only E) fmap files :
  (forall p, p ∈ files -> is_Some (fmap !! p)) ->
  (forall p, p ∈ files -> is_dir_age p = false) ->
  forall i s,
    total_files s <> 0 ->
    (forall p, p ∈ files -> fs s !! ageyub_staging_path E p <> Some Dir) ->
    fs (Ageyub.run_items E Decrypt keys fmap i files s)
    = foldl (fun f p => delete (ageyub_staging_path E p) f) (fs s) files
    /\ temp_files_to_cleanup (Ageyub.run_items E Decrypt keys fmap i files s)
       = temp_files_to_cleanup s.
Proof.
  induction files as [|p r IH]; intros Hmap Hplain i s Hn Hdir;
    cbn [Ageyub.run_items foldl]; [done|].
  destruct (Hmap p) as [o Ho]; [by left|].
  destruct (ageyub_decrypt_step_spec E keys HE fmap i p o s Ho Hn)
    as (_ & Hc & Hfs & _); [apply Hdir; by left|].
  pose proof (a_item_step_spec E Decrypt keys fmap i p o s Ho Hn)
    as (_ & _ & Htot & _).
  specialize (Hfs (Hplain p (list_elem_of_here _ _))).
  set (s1 := snd (Ageyub.item_step E Decrypt keys fmap i p s)) in *.
  destruct (IH (fun q Hq => Hmap q (list_elem_of_further _ _ _ Hq))
               (fun q Hq => Hplain q (list_elem_of_further _ _ _ Hq))
               (S i) s1) as [IH1 IH2].
  - congruence.
  - intros q Hq. rewrite Hfs, lookup_delete. case_decide; [done|].
    apply Hdir. by right.
  - rewrite IH1, IH2, Hfs. done.
Qed.

Lemma foldl_delete_lookup (ks : list str) :
  forall (f : FS) q,
    foldl (fun f k => delete k f) f ks !! q
    = if bool_decide (q ∈ ks) then None else f !! q.
Proof.
  induction ks as [|k r IH]; intros f q; cbn [foldl].
  - rewrite bool_decide_eq_false_2; [done|]. apply not_elem_of_nil.
  - rewrite IH. destruct (decide (q ∈ r)) as [Hr|Hr].
    + rewrite !bool_decide_eq_true_2; [done| |done]. by right.
    + rewrite (bool_decide_eq_false_2 _ Hr). rewrite lookup_delete.
      case_decide as Hq.
      * subst. rewrite bool_decide_eq_true_2; [done|by left].
      * rewrite bool_decide_eq_false_2; [done|].
        intros [?|?]%elem_of_cons; congruence.
Qed.

(** In [ageyub_ui.py] the decryption of files whose names do not end in
    [.dir.age] leaves nothing: after the batch every staging path is free
    and every other path is what it was before, whatever the tool wrote and
    whether or not the items counted as successes. *)
Theorem ageyub_decrypt_keeps_no_plaintext (E : Env) (keys files : list str)
        (s0 : St) :
  writes_output_only E ->
  temp_files_to_cleanup s0 = [] ->
  (forall p, p ∈ files ->
     is_dir_age p = false /\ fs s0 !! ageyub_staging_path E p <> Some Dir) ->
  let s_end := snd (Ageyub.run E Decrypt keys files s0) in
  (forall p, p ∈ files -> fs s_end !! ageyub_staging_path E p = None)
  /\ (forall q, (forall p, p ∈ files -> q <> ageyub_staging_path E p) ->
      fs s_end !! q = fs s0 !! q).
Proof.
  intros HE Hinit Hfiles s_end.
  pose proof (ageyub_run_spec E Decrypt keys files s0) as (_ & Hrun).
  unfold Ageyub.preprocess in Hrun. cbn [mret M_ret] in Hrun.
  cbv zeta in Hrun. destruct Hrun as (_ & Hfs & _). fold s_end in Hfs.
  set (fmap := foldl (fun m p => <[p := p]> m) ∅ files) in *.
  set (s2 := set_total_files (length files) (Ageyub.run_start s0)) in *.
  assert (Hmap : forall p, p ∈ files -> is_Some (fmap !! p)).
  { intros p Hp. apply foldl_insert_lookup. by left. }
  assert (Hend : fs s_end
                 = foldl (fun f p => delete (ageyub_staging_path E p) f)
                         (fs s0) files).
  { rewrite Hfs. destruct (decide (files = [])) as [Hl|Hl].
    { unfold Ageyub.cleanup, for_each. msteps. subst files.
      cbn [Ageyub.run_items temp_files_to_cleanup s2 set_total_files
           Ageyub.run_start set_success_count].
      rewrite Hinit. done. }
    destruct (ageyub_decrypt_items_plain E keys HE fmap files Hmap
                (fun p Hp => proj1 (Hfiles p Hp)) 0 s2) as [H1 H2].
    - cbn [total_files s2 set_total_files]. by destruct files.
    - intros p Hp. apply (Hfiles p Hp).
    - unfold Ageyub.cleanup, for_each. msteps. rewrite H2.
      cbn [temp_files_to_cleanup s2 set_total_files Ageyub.run_start
           set_success_count].
      rewrite Hinit. cbn [for_enumerate mret M_ret snd]. exact H1. }
  assert (Hlook : forall q,
             fs s_end !! q
             = if bool_decide (q ∈ map (ageyub_staging_path E) files)
               then None else fs s0 !! q).
  { intros q. rewrite Hend. rewrite <- foldl_delete_lookup.
    f_equal. clear. generalize (fs s0). induction files as [|p r IH];
      intros f; cbn [foldl map]; [done|]. apply IH. }
  split.
  - intros p Hp. rewrite Hlook, bool_decide_eq_true_2; [done|].
    apply list_elem_of_fmap. by exists p.
  - intros q Hq. rewrite Hlook, bool_decide_eq_false_2; [done|].
    intros (p & -> & Hp)%list_elem_of_fmap. by apply (Hq p).
Qed.

Lemma ageyub_decrypt_keeps_no_plaintext_witness :
  let s := snd (Ageyub.run (Fixture.env Fixture.age_ok) Decrypt [Fixture.key]
                  [py "/d/m.age"] (init_St Fixture.disk)) in
  fs s !! py "/d/m.temp_decrypted_4242" = None
  /\ fs s !! py "/d/m" = None.
Proof.
  pose proof (ageyub_decrypt_keeps_no_plaintext (Fixture.env Fixture.age_ok)
                [Fixture.key] [py "/d/m.age"] (init_St Fixture.disk)
                age_ok_contract eq_refl) as H.
  cbv zeta in H. destruct H as [H1 H2].
  - intros p ->%list_elem_of_singleton. split; vm_compute; [reflexivity|].
    discriminate.
  - split.
    + apply (H1 (py "/d/m.age")). by left.
    + rewrite H2; [vm_compute; reflexivity|].
      intros p ->%list_elem_of_singleton. vm_compute. discriminate.
Defined.

(** A decryption that is counted although nothing is kept of it. *)
Example ageyub_plain_decrypt_counts :
  let s := snd (Ageyub.run (Fixture.env Fixture.age_ok) Decrypt [Fixture.key]
                  [py "/d/m.age"] (init_St Fixture.disk)) in
  signals s = [SigProgress (Qmake 1 1); SigFinished 1 1 false]
  /\ popen_calls s = [[py "age"; py "-d"; py "-o"; py "/d/m.temp_decrypted_4242";
                       py "-i"; py "/k/id.pub"; py "/d/m.age"]].
Proof. vm_compute. split; reflexivity. Qed.

Lemma foldl_insert_id (l : list str) :
  forall (m : gmap str str) p,
    (forall k v, m !! k = Some v -> v = k) ->
    p ∈ l \/ is_Some (m !! p) ->
    foldl (fun m p => <[p := p]> m) m l !! p = Some p.
Proof.
  induction l as [|x r IH]; intros m p Hid Hp; cbn [foldl].
  - destruct Hp as [Hp|[v Hv]]; [by apply elem_of_nil in Hp|].
    by rewrite Hv, (Hid _ _ Hv).
  - apply IH.
    + intros k v. rewrite lookup_insert. case_decide; [|apply Hid].
      intros [= <-]. done.
    + destruct Hp as [[->|Hp]%elem_of_cons|Hp]; [right|by left|right].
      * by rewrite lookup_insert_eq.
      * rewrite lookup_insert. by case_decide.
Qed.

Lemma ageyub_names_of_directory (E : Env) (D : str) :
  is_dir_age (D ++ py ".Dir.age") = true
  /\ ageyub_archive_path (D ++ py ".Dir.age") = D ++ py ".Dir.tar.gz"
  /\ ageyub_staging_path E (D ++ py ".Dir.age")
     = D ++ py ".Dir.temp_decrypted_" ++ Str.of_nat (pid E).
Proof.
  assert (Hb : Ageyub.decrypt_output_base (D ++ py ".Dir.age") = D ++ py ".Dir").
  { change (D ++ py ".Dir.age") with (D ++ py ".Dir" ++ py ".age").
    rewrite app_assoc, decrypt_output_base_same.
    apply decrypt_output_base_strip. }
  split.
  - unfold is_dir_age, Str.endswith, Str.lower. apply bool_decide_eq_true.
    rewrite map_app. by eexists.
  - unfold ageyub_archive_path, ageyub_staging_path, Ageyub.temp_decrypt_name.
    rewrite Hb, <- !app_assoc. done.
Qed.



(** ** What an encryption touches *)

Global Instance changes_only_preorder P : PreOrder (changes_only P).
Proof.
  split; [by intros s q|]. intros a b c H1 H2 q Hq.
  rewrite H2 by done. by apply H1.
Qed.

Lemma changes_only_same_fs P s s' : fs s' = fs s -> changes_only P s s'.
Proof. intros H q _. by rewrite H. Qed.

Lemma co_open_w (P : str -> Prop) p : P p -> pres (changes_only P) (open_w p).
Proof.
  intros Hp s q Hq. unfold open_w.
  destruct (fs s !! p) as [[]|]; cbn [snd fs set_fs]; try done.
  all: rewrite lookup_insert_ne; [done|]; by intros ->.
Qed.

Lemma co_flush (P : str -> Prop) p t : P p -> pres (changes_only P) (flush p t).
Proof.
  intros Hp s q Hq. unfold flush.
  destruct (fs s !! p) as [[]|]; cbn [snd fs set_fs]; try done.
  rewrite lookup_insert_ne; [done|]. by intros ->.
Qed.

Lemma co_os_remove (P : str -> Prop) p : P p -> pres (changes_only P) (os_remove p).
Proof.
  intros Hp s q Hq. unfold os_remove.
  destruct (fs s !! p) as [[]|]; cbn [snd fs set_fs]; try done.
  rewrite lookup_delete_ne; [done|]. by intros ->.
Qed.

Lemma co_write_recipients (P : str -> Prop) p keys :
  P p -> pres (changes_only P) (write_recipients p keys).
Proof.
  intros Hp. unfold write_recipients.
  apply pres_bind; [apply _|by apply co_open_w|].
  intros _. apply pres_bind; [apply _|apply pres_gets, _|]. intros f.
  destruct (recipients_text f keys) as [text e].
  apply pres_bind; [apply _|by apply co_flush|]. intros _.
  destruct e; [apply pres_raise|apply pres_ret]; apply _.
Qed.

Lemma nd_open_w p : pres no_new_dirs (open_w p).
Proof.
  intros s q. unfold open_w.
  destruct (fs s !! p) as [[]|] eqn:Hp; cbn [snd fs set_fs]; try done.
  all: rewrite lookup_insert; by case_decide.
Qed.

Lemma nd_flush p t : pres no_new_dirs (flush p t).
Proof.
  intros s q. unfold flush.
  destruct (fs s !! p) as [[]|] eqn:Hp; cbn [snd fs set_fs]; try done.
  rewrite lookup_insert. by case_decide.
Qed.

Lemma nd_write_recipients p keys : pres no_new_dirs (write_recipients p keys).
Proof.
  unfold write_recipients.
  apply pres_bind; [apply _|by apply nd_open_w|].
  intros _. apply pres_bind; [apply _|apply pres_gets, _|]. intros f.
  destruct (recipients_text f keys) as [text e].
  apply pres_bind; [apply _|by apply nd_flush|]. intros _.
  destruct e; [apply pres_raise|apply pres_ret]; apply _.
Qed.

Lemma yubiage_recipients_suffix E p :
  exists q, Yubiage.temp_recipients_name E p = q ++ py ".txt".
Proof. exact (temp_recipients_suffix E p). Qed.

Lemma yubiage_recipients_not_output E p p' :
  Yubiage.temp_recipients_name E p <> p' ++ py ".age".
Proof.
  destruct (yubiage_recipients_suffix E p) as [q ->]. by apply app_suffix_neq.
Qed.

Lemma yubiage_recipients_truthy E p :
  Str.truthy (Yubiage.temp_recipients_name E p) = true.
Proof.
  destruct (yubiage_recipients_suffix E p) as [q ->]. by destruct q.
Qed.

Section YubiageEncrypt.

Import Yubiage.
Context (E : Env) (keys : list str) (HE : writes_output_only E).

(** The body of an encryption changes only its output and its recipients
    file, and makes no directory of the latter. *)
Lemma yubiage_encrypt_body_spec p s r s' :
  temp_recipients_file s = None ->
  item_body E Encrypt keys p s = (r, s') ->
  (forall q, q <> p ++ py ".age" -> q <> temp_recipients_name E p ->
     fs s' !! q = fs s !! q)
  /\ (fs s !! temp_recipients_name E p <> Some Dir ->
      fs s' !! temp_recipients_name E p <> Some Dir)
  /\ total_files s' = total_files s
  /\ (temp_recipients_file s' = Some (temp_recipients_name E p)
      \/ temp_recipients_file s' = None /\ keys = [] /\ fs s' = fs s).
Proof.
  intros Htrf Heq. unfold item_body, build_encrypt in Heq. msteps_in Heq.
  set (out := p ++ py ".age") in *.
  set (trf := temp_recipients_name E p) in *.
  destruct keys as [|k0 kl].
  { msteps_in Heq. injection Heq as <- <-. split; [done|]. split; [done|].
    split; [done|]. by right. }
  msteps_in Heq.
  set (s1 := set_temp_recipients_file _ _) in Heq.
  destruct (write_recipients trf (k0 :: kl) s1) as [rw sw] eqn:Hw.
  pose proof (loc_write_recipients trf (k0 :: kl) s1) as (_ & Hl2 & _).
  pose proof (ctl_write_recipients trf (k0 :: kl) s1) as (_ & Hl3 & _).
  pose proof (co_write_recipients (fun q => q = trf) trf (k0 :: kl) eq_refl s1)
    as Hco.
  pose proof (nd_write_recipients trf (k0 :: kl) s1) as Hnd.
  rewrite Hw in Hl2, Hl3, Hco, Hnd. cbn [snd] in Hl2, Hl3, Hco, Hnd.
  change (temp_recipients_file s1) with (Some trf) in Hl2.
  change (total_files s1) with (total_files s) in Hl3.
  assert (Hfw : forall q, q <> trf -> fs sw !! q = fs s !! q)
    by (intros q Hq; by apply Hco).
  assert (Hdw : fs s !! trf <> Some Dir -> fs sw !! trf <> Some Dir)
    by (intros H H'; by apply H, (Hnd trf)).
  destruct rw as [e|[]].
  { injection Heq as <- <-. split; [intros; by apply Hfw|]. split; [done|].
    split; [done|]. by left. }
  msteps_in Heq.
  destruct (negb (Fs.exists_ (fs sw) trf) || (getsize (fs sw) trf =? 0)%nat).
  { msteps_in Heq. injection Heq as <- <-. split; [intros; by apply Hfw|].
    split; [done|]. split; [done|]. by left. }
  msteps_in Heq.
  set (cmd := [py "age"; _; _; _; _; _; _]) in Heq.
  assert (Hout : output_of cmd = Some out) by done.
  unfold popen in Heq.
  destruct (age E (popen_calls sw) cmd (fs sw)) as [m|rc err f'] eqn:Hage.
  { injection Heq as <- <-. split; [intros; by apply Hfw|]. split; [done|].
    split; [done|]. by left. }
  destruct (HE _ _ _ _ _ _ Hage) as [Hframe _].
  assert (Hf' : forall q, q <> out -> f' !! q = fs sw !! q).
  { intros q Hq. apply Hframe. rewrite Hout. congruence. }
  assert (Hne : trf <> out) by apply yubiage_recipients_not_output.
  case_bool_decide as Hrc; [msteps_in Heq|]; injection Heq as <- <-;
    cbn [fs set_fs set_popen_calls set_success_count temp_recipients_file
         total_files].
  all: split; [intros q Hq1 Hq2; rewrite Hf' by done; by apply Hfw|].
  all: split; [rewrite Hf' by done; exact Hdw|].
  all: split; [done|]; by left.
Qed.

(** The inner [finally] of an encryption removes the recipients file and
    nothing else. *)
Lemma yubiage_encrypt_finally_spec i s :
  (forall q, Some q <> temp_recipients_file s ->
     fs (snd (item_finally Encrypt i s)) !! q = fs s !! q)
  /\ (forall trf, total_files s <> 0 -> temp_recipients_file s = Some trf ->
      Str.truthy trf = true -> fs s !! trf <> Some Dir ->
      fs (snd (item_finally Encrypt i s)) !! trf = None).
Proof.
  unfold item_finally, progress_value. msteps.
  destruct (total_files s) eqn:Hn.
  { msteps. split; [done|]. intros trf H. done. }
  msteps. set (s1 := set_signals _ s). unfold remove_temps. msteps.
  change (temp_recipients_file s1) with (temp_recipients_file s).
  change (fs s1) with (fs s).
  assert (H2 : forall s2,
             match temp_decrypt_path s2 with
             | Some p =>
                 if bool_decide (Encrypt = Decrypt) && Str.truthy p
                    && Fs.exists_ (fs s2) p
                 then try_pass (os_remove p)
                 else mret ()
             | None => mret ()
             end s2 = (inr tt, s2)).
  { intros s2. destruct (temp_decrypt_path s2); [|done].
    by rewrite bool_decide_eq_false_2. }
  destruct (temp_recipients_file s) as [trf|] eqn:Htrf.
  2:{ msteps. rewrite H2. split; [done|]. intros trf _ [=]. }
  destruct (Str.truthy trf) eqn:Htruthy; cbn [andb].
  2:{ msteps. rewrite H2. split; [done|]. intros trf' _ [= <-]. congruence. }
  unfold Fs.exists_. destruct (fs s !! trf) as [[data|]|] eqn:Hl.
  - unfold try_pass, try_except, os_remove. cbn [fs s1 set_signals].
    rewrite Hl. msteps. rewrite H2. cbn [snd fs set_fs]. split.
    + intros q Hq. rewrite lookup_delete_ne; [done|]. congruence.
    + intros trf' _ [= <-] _ _. by rewrite lookup_delete_eq.
  - unfold try_pass, try_except, os_remove. cbn [fs s1 set_signals].
    rewrite Hl. msteps. rewrite H2. cbn [snd fs set_fs]. split; [done|].
    intros trf' _ [= <-] _ Hd. done.
  - msteps. rewrite H2. cbn [snd fs s1 set_signals]. split; [done|].
    intros trf' _ [= <-] _ _. done.
Qed.

(** One turn of an encryption. *)
Lemma yubiage_encrypt_step_spec i p s :
  let s' := snd (item_step E Encrypt keys i p s) in
  (forall q, q <> p ++ py ".age" -> q <> temp_recipients_name E p ->
     fs s' !! q = fs s !! q)
  /\ (fs s !! temp_recipients_name E p <> Some Dir ->
      fs s' !! temp_recipients_name E p <> Some Dir)
  /\ (keys <> [] -> total_files s <> 0 ->
      fs s !! temp_recipients_name E p <> Some Dir ->
      fs s' !! temp_recipients_name E p = None).
Proof.
  unfold item_step. msteps. unfold try_finally, try_except.
  destruct (item_body E Encrypt keys p (reset_locals s)) as [rb sb] eqn:Hb.
  destruct (yubiage_encrypt_body_spec p (reset_locals s) rb sb eq_refl Hb)
    as (Hfr & Hnd & Htot & Htrf).
  change (fs (reset_locals s)) with (fs s) in *.
  change (total_files (reset_locals s)) with (total_files s) in Htot.
  set (trf := temp_recipients_name E p) in *.
  assert (Hfin : forall sh,
             fs sh = fs sb -> total_files sh = total_files sb ->
             temp_recipients_file sh = temp_recipients_file sb ->
             let s' := snd (item_finally Encrypt i sh) in
             (forall q, q <> p ++ py ".age" -> q <> trf -> fs s' !! q = fs s !! q)
             /\ (fs s !! trf <> Some Dir -> fs s' !! trf <> Some Dir)
             /\ (keys <> [] -> total_files s <> 0 -> fs s !! trf <> Some Dir ->
                 fs s' !! trf = None)).
  { intros sh H1 H2 H3 s'.
    destruct (yubiage_encrypt_finally_spec i sh) as [Hf1 Hf2]. fold s' in Hf1, Hf2.
    rewrite H1, H2, H3 in *.
    destruct Htrf as [Hsome|(Hnone & Hk & Hsame)].
    - split.
      { intros q Hq1 Hq2. rewrite Hf1; [by apply Hfr|]. rewrite Hsome. congruence. }
      split.
      { intros Hd. destruct (decide (total_files sb = 0)) as [Hz|Hz].
        - unfold s', item_finally, progress_value. msteps. rewrite H2, Hz.
          cbn [raise snd]. rewrite H1. by apply Hnd.
        - rewrite (Hf2 trf Hz Hsome (yubiage_recipients_truthy E p)); [done|].
          by apply Hnd. }
      intros _ Hn Hd. apply (Hf2 trf); [congruence|done| |by apply Hnd].
      apply yubiage_recipients_truthy.
    - split.
      { intros q Hq1 Hq2. rewrite Hf1; [by apply Hfr|]. by rewrite Hnone. }
      split; [|done]. intros Hd. rewrite Hf1; [by apply Hnd|]. by rewrite Hnone. }
  destruct rb as [e|[]].
  - cbn [emit modify]. set (sh := set_signals _ sb).
    specialize (Hfin sh eq_refl eq_refl eq_refl).
    destruct (item_finally Encrypt i sh) as [[e'|[]] s']; exact Hfin.
  - specialize (Hfin sb eq_refl eq_refl eq_refl).
    destruct (item_finally Encrypt i sb) as [[e'|[]] s']; exact Hfin.
Qed.

End YubiageEncrypt.

Lemma yubiage_encrypt_items_frame E keys (HE : writes_output_only E) q files :
  (forall p, p ∈ files ->
     q <> p ++ py ".age" /\ q <> Yubiage.temp_recipients_name E p) ->
  forall i s, fs (Yubiage.run_items E Encrypt keys i files s) !! q = fs s !! q.
Proof.
  induction files as [|p r IH]; intros Hq i s; cbn [Yubiage.run_items]; [done|].
  rewrite IH by (intros p' Hp'; apply Hq; by right).
  destruct (Hq p) as [H1 H2]; [by left|].
  by apply (yubiage_encrypt_step_spec E keys HE i p s).
Qed.

Lemma yubiage_encrypt_items_clean E keys (HE : writes_output_only E) x files :
  keys <> [] ->
  (forall p, x <> p ++ py ".age") ->
  forall i s,
    total_files s <> 0 ->
    fs s !! x <> Some Dir ->
    x ∈ map (Yubiage.temp_recipients_name E) files \/ fs s !! x = None ->
    fs (Yubiage.run_items E Encrypt keys i files s) !! x = None.
Proof.
  intros Hkeys Hx. induction files as [|p r IH]; intros i s Hn Hd Hin;
    cbn [Yubiage.run_items].
  { destruct Hin as [Hin|Hin]; [by apply elem_of_nil in Hin|done]. }
  pose proof (yubiage_encrypt_step_spec E keys HE i p s) as (Hfr & Hnd & Hrm).
  pose proof (item_step_spec E Encrypt keys i p s Hn) as (_ & _ & Htot & _).
  set (s1 := snd (Yubiage.item_step E Encrypt keys i p s)) in *.
  destruct (decide (x = Yubiage.temp_recipients_name E p)) as [->|Hne].
  - apply IH; [congruence|by apply Hnd|]. right. by apply Hrm.
  - assert (Hsame : fs s1 !! x = fs s !! x) by (by apply Hfr).
    apply IH; [congruence|by rewrite Hsame|].
    rewrite Hsame. destruct Hin as [Hin|Hin]; [left|by right].
    cbn [map] in Hin. by apply elem_of_cons in Hin as [?|?].
Qed.

(** An encryption of [yubiage_ui.py], with a tool that changes at most the
    path after [-o]: after the batch every path that is neither an output
    [p.age] nor the recipients file of an item is what it was before, so the
    files that were encrypted are neither changed nor removed; and, for a
    batch with keys, no recipients file is left where none was a directory. *)
Theorem yubiage_encrypt_touches_outputs_only (E : Env) (keys files : list str)
        (s0 : St) :
  writes_output_only E ->
  let s_end := snd (Yubiage.run E Encrypt keys files s0) in
  (forall q, (forall p, p ∈ files ->
                q <> p ++ py ".age" /\ q <> Yubiage.temp_recipients_name E p) ->
     fs s_end !! q = fs s0 !! q)
  /\ (keys <> [] ->
      forall p, p ∈ files ->
        fs s0 !! Yubiage.temp_recipients_name E p <> Some Dir ->
        fs s_end !! Yubiage.temp_recipients_name E p = None).
Proof.
  intros HE s_end.
  pose proof (yubiage_run_spec E Encrypt keys files s0) as (_ & _ & Hrun & _).
  cbv zeta in Hrun.
  assert (Hfs : fs s_end
                = fs (Yubiage.run_items E Encrypt keys 0 files
                        (Yubiage.run_start files s0)))
    by (unfold s_end; by rewrite Hrun).
  rewrite Hfs. split.
  - intros q Hq. by rewrite yubiage_encrypt_items_frame.
  - intros Hkeys p Hp Hd. apply yubiage_encrypt_items_clean; try done.
    + intros p'. apply yubiage_recipients_not_output.
    + cbn [total_files Yubiage.run_start set_total_files].
      destruct files; [by apply elem_of_nil in Hp|done].
    + left. apply list_elem_of_fmap. by exists p.
Qed.

Lemma yubiage_encrypt_touches_outputs_only_witness :
  let s := snd (Yubiage.run (Fixture.env (Fixture.age_fail_at 1)) Encrypt
                  [Fixture.key] Fixture.three (init_St Fixture.disk)) in
  fs s !! py "/d/b.txt" = Some (File (py "B"))
  /\ fs s !! py "/d/.temp_recipients_4242.txt" = None.
Proof.
  pose proof (yubiage_encrypt_touches_outputs_only
                (Fixture.env (Fixture.age_fail_at 1)) [Fixture.key]
                Fixture.three (init_St Fixture.disk)
                (age_fail_at_contract 1)) as [H1 H2].
  split.
  - rewrite H1; [vm_compute; reflexivity|].
    intros p Hp. unfold Fixture.three in Hp.
    repeat (apply elem_of_cons in Hp as [->|Hp]; [split; vm_compute; discriminate|]).
    by apply elem_of_nil in Hp.
  - apply (H2 ltac:(discriminate) (py "/d/a.txt")); [by left|].
    vm_compute. discriminate.
Defined.

(** ** Pre-processing that fails *)

Lemma sp_create_tar_archive E d : pres same_popen (Ageyub._create_tar_archive E d).
Proof.
  unfold Ageyub._create_tar_archive.
  apply pres_try_except; [apply _| |intros e; apply pres_raise, _].
  apply pres_bind; [apply _|apply sp_open_w|]. intros _.
  apply pres_bind; [apply _|apply pres_gets, _|]. intros f.
  destruct (tar_gz E f d); [apply pres_raise, _|].
  apply pres_bind; [apply _|apply sp_flush|]. intros _.
  apply pres_bind; [apply _| |intros _; apply pres_ret, _].
  apply pres_modify. by intros s.
Qed.

Lemma sp_archive_loop E files :
  forall acc fmap, pres same_popen (Ageyub.archive_loop E files acc fmap).
Proof.
  induction files as [|d r IH]; intros acc fmap; cbn [Ageyub.archive_loop].
  - apply pres_ret, _.
  - apply pres_bind; [apply _|apply pres_gets, _|]. intros f.
    destruct (Fs.isdir f d); [|apply IH].
    apply pres_bind; [apply _|apply sp_emit|]. intros _.
    apply pres_bind; [apply _|apply sp_create_tar_archive|]. intros t.
    apply IH.
Qed.

Lemma kp_archive_loop E x files :
  forall acc fmap, pres (keeps x) (Ageyub.archive_loop E files acc fmap).
Proof.
  induction files as [|d r IH]; intros acc fmap; cbn [Ageyub.archive_loop].
  - apply pres_ret, _.
  - apply pres_bind; [apply _|apply pres_gets, _|]. intros f.
    destruct (Fs.isdir f d); [|apply IH].
    apply pres_bind; [apply _| |intros _].
    { apply pres_modify. intros s. by apply keeps_same_fs. }
    apply pres_bind; [apply _|apply kp_create_tar_archive|]. intros t.
    apply IH.
Qed.

(** Whatever its outcome, pre-processing registers archives only, and what
    it has registered is a regular file when it ends. *)
Lemma archive_loop_registered E files :
  forall acc fmap s t,
    t ∈ temp_files_to_cleanup (snd (Ageyub.archive_loop E files acc fmap s)) ->
    t ∈ temp_files_to_cleanup s
    \/ (exists d, d ∈ files /\ t = Ageyub.tar_name E d)
       /\ Fs.isfile (fs (snd (Ageyub.archive_loop E files acc fmap s))) t = true.
Proof.
  induction files as [|d0 r IH]; intros acc fmap s t;
    cbn [Ageyub.archive_loop]; [by left|].
  msteps. destruct (Fs.isdir (fs s) d0).
  2:{ intros [Ht|[[d [Hd ->]] Hf]]%IH; [by left|right]. split; [|done].
      exists d. split; [by right|done]. }
  msteps. set (sa := set_signals _ s).
  destruct (Ageyub._create_tar_archive E d0 sa) as [[e|t0] s2] eqn:Hc.
  { cbn [snd]. intros Ht. left.
    assert (Hreg : temp_files_to_cleanup s2 = temp_files_to_cleanup s).
    { revert Hc. unfold Ageyub._create_tar_archive, try_except. intros Hc.
      msteps_in Hc. unfold open_w in Hc.
      destruct (fs sa !! Ageyub.tar_name E d0) as [[]|];
        msteps_in Hc; cbn [fs set_fs] in Hc;
        try (injection Hc as <- <-; done);
        destruct (tar_gz E _ d0);
        msteps_in Hc; try (injection Hc as <- <-; done);
        unfold flush in Hc; cbn [fs set_fs] in Hc;
        rewrite lookup_insert_eq in Hc; msteps_in Hc; done. }
    by rewrite <- Hreg. }
  destruct (create_tar_ok E d0 sa t0 s2 Hc) as (-> & Hfile & Hreg).
  change (temp_files_to_cleanup sa) with (temp_files_to_cleanup s) in Hreg.
  intros [Ht|[[d [Hd ->]] Hf]]%IH.
  - rewrite Hreg in Ht.
    apply elem_of_app in Ht as [Ht|Ht%list_elem_of_singleton]; [by left|].
    subst t. right. split; [exists d0; split; [by left|done]|].
    by apply (kp_archive_loop E (Ageyub.tar_name E d0) r).
  - right. split; [|done]. exists d. split; [by right|done].
Qed.

(** When archiving a directory fails in [ageyub_ui.py], nothing of the
    batch is encrypted: no process is started, the window is told
    [finished(0, 0)] after the error, and the clean-up is skipped, so the
    file system stays as pre-processing left it, with every archive made
    for an earlier directory still on disk. *)
Theorem ageyub_failed_archiving (E : Env) (keys files : list str) (s0 : St)
        (e : exn) (s1 : St) :
  temp_files_to_cleanup s0 = [] ->
  Ageyub.preprocess E Encrypt files (Ageyub.run_start s0) = (inl e, s1) ->
  let s_end := snd (Ageyub.run E Encrypt keys files s0) in
  popen_calls s_end = popen_calls s0
  /\ fs s_end = fs s1
  /\ signals s_end
     = signals s1
         ++ [SigError (py "Pre-process") (py "Pre-process Error: " ++ exn_str e);
             SigFinished 0 0 true]
  /\ (forall t, t ∈ temp_files_to_cleanup s1 ->
        (exists d, d ∈ files /\ t = Ageyub.tar_name E d)
        /\ Fs.isfile (fs s_end) t = true).
Proof.
  intros Hinit Hpre s_end.
  assert (Hrun : fs s_end = fs s1 /\ popen_calls s_end = popen_calls s1
                 /\ signals s_end
                    = signals s1
                        ++ [SigError (py "Pre-process")
                                     (py "Pre-process Error: " ++ exn_str e);
                            SigFinished 0 0 true]).
  { unfold s_end, Ageyub.run, Ageyub.run_try. msteps.
    unfold try_finally, try_except. rewrite bind_run.
    change (set_total_files 0 (set_success_count 0 s0))
      with (Ageyub.run_start s0).
    rewrite Hpre. msteps. cbn [snd fs popen_calls signals set_signals
                              set_total_files success_count total_files].
    pose proof (preprocess_spec E Encrypt files (Ageyub.run_start s0))
      as (_ & Hsc & _).
    rewrite Hpre in Hsc. cbn [snd] in Hsc. rewrite Hsc.
    rewrite <- app_assoc. done. }
  destruct Hrun as (Hfs & Hpo & Hsig).
  pose proof (sp_archive_loop E files [] ∅ (Ageyub.run_start s0)) as Hsp.
  unfold Ageyub.preprocess in Hpre. rewrite Hpre in Hsp. cbn [snd] in Hsp.
  split; [by rewrite Hpo, Hsp|]. split; [done|]. split; [done|].
  intros t Ht.
  pose proof (archive_loop_registered E files [] ∅ (Ageyub.run_start s0) t) as H.
  rewrite Hpre in H. cbn [snd] in H.
  destruct (H Ht) as [H0|[Hd Hf]].
  - change (temp_files_to_cleanup (Ageyub.run_start s0))
      with (temp_files_to_cleanup s0) in H0.
    rewrite Hinit in H0. by apply elem_of_nil in H0.
  - split; [done|]. by rewrite Hfs.
Qed.

(** A result that is known to be an exception is the pair of its parts. *)
Lemma raised_result_eta {A} (r : (exn + A) * St) :
  (match fst r with inl _ => true | inr _ => false end) = true ->
  forall d, r = (inl (match fst r with inl e => e | inr _ => d end), snd r).
Proof. destruct r as [[e|x] s]; [reflexivity|done]. Qed.

Lemma ageyub_failed_archiving_witness :
  let E := {| pid := 4242; cwd := py "/home/u"; age := Fixture.age_ok;
              tar_gz := fun f d => if bool_decide (d = py "/d/dir")
                                   then Fixture.tar_ok f d
                                   else Fixture.tar_fail f d |} in
  let s := snd (Ageyub.run E Encrypt [Fixture.key]
                  [py "/d/a.txt"; py "/d/dir"; py "/d/dir/.git"]
                  (init_St Fixture.disk)) in
  popen_calls s = []
  /\ Fs.isfile (fs s) (py "/d/dir_temp_4242.tar.gz") = true.
Proof.
  intros E.
  set (files := [py "/d/a.txt"; py "/d/dir"; py "/d/dir/.git"]).
  set (r := Ageyub.preprocess E Encrypt files
              (Ageyub.run_start (init_St Fixture.disk))).
  assert (Hr : (match fst r with inl _ => true | inr _ => false end) = true)
    by (vm_compute; reflexivity).
  pose proof (ageyub_failed_archiving E [Fixture.key] files
                (init_St Fixture.disk)
                (match fst r with inl e => e | inr _ => Exception [] end)
                (snd r) eq_refl (raised_result_eta r Hr (Exception [])))
    as (H1 & _ & _ & H2).
  cbv zeta. split; [exact H1|].
  apply (H2 (py "/d/dir_temp_4242.tar.gz")). vm_compute.
  apply list_elem_of_here.
Defined.

(** ** The saved keys *)

Lemma split_nonempty c s : StrList.split c s <> [].
Proof.
  destruct s as [|x r]; [done|]. cbn [StrList.split].
  case_bool_decide; [done|]. by destruct (StrList.split c r).
Qed.

Lemma split_no_sep c s : c ∉ s -> StrList.split c s = [s].
Proof.
  induction s as [|x r IH]; intros Hc; [done|]. cbn [StrList.split].
  apply not_elem_of_cons in Hc as [Hx Hr].
  rewrite bool_decide_eq_false_2 by congruence. by rewrite IH.
Qed.

Lemma split_app_sep c s t :
  c ∉ s -> StrList.split c (s ++ c :: t) = s :: StrList.split c t.
Proof.
  induction s as [|x r IH]; intros Hc; cbn [app StrList.split].
  - by rewrite bool_decide_eq_true_2.
  - apply not_elem_of_cons in Hc as [Hx Hr].
    rewrite bool_decide_eq_false_2 by congruence. by rewrite IH.
Qed.

(** [sep.join(l).split(sep)] gives [l] back when no element holds the
    separator; the empty list comes back as one empty string. *)
Lemma split_join c l :
  Forall (fun p => c ∉ p) l ->
  StrList.split c (StrList.join [c] l) = match l with [] => [[]] | _ => l end.
Proof.
  induction 1 as [|x r Hx Hr IH]; [done|].
  destruct r as [|y r]; [by apply split_no_sep|].
  change (StrList.join [c] (x :: y :: r))
    with (x ++ c :: StrList.join [c] (y :: r)).
  rewrite split_app_sep by done. by rewrite IH.
Qed.

(** The keys saved with the remember flag are the keys a later start of the
    program loads, as far as they still exist and no path holds a [;]; when
    none of them is left, or when the keys were saved without the flag, the
    window keeps the keys it had. *)
Theorem saved_keys_are_restored (f : FS) (ks : list str) (st : Settings)
        (g : GUI) :
  Forall (fun p => ";"%char ∉ p) ks ->
  let kept := List.filter (fun p => Fs.exists_ f p && Str.truthy p) ks in
  recipients_keys (_load_key_settings f (_save_key_settings ks true st) g)
  = match kept with [] => recipients_keys g | _ => kept end
  /\ _load_key_settings f (_save_key_settings ks false st) g = g
  /\ _load_key_settings f (mkSettings None None) g = g.
Proof.
  intros Hks kept. split; [|done]. unfold _load_key_settings, _save_key_settings.
  cbn [remember_keys key_paths default from_option id].
  rewrite bool_decide_eq_true_2 by done.
  change (py ";") with [";"%char]. rewrite split_join by done.
  destruct ks as [|k0 kl].
  { cbn [List.filter Str.truthy]. by rewrite andb_false_r. }
  fold kept. by destruct kept.
Qed.

Lemma saved_keys_are_restored_witness :
  recipients_keys
    (_load_key_settings Fixture.disk
       (_save_key_settings [Fixture.key; py "/k/gone.pub"] true
                           (mkSettings None None))
       gui_init)
  = [Fixture.key].
Proof.
  pose proof (saved_keys_are_restored Fixture.disk
                [Fixture.key; py "/k/gone.pub"] (mkSettings None None)
                gui_init) as [H _].
  - repeat constructor; vm_compute; intros Hin;
      repeat (apply elem_of_cons in Hin as [Hin|Hin]; [discriminate Hin|]);
      by apply elem_of_nil in Hin.
  - rewrite H. vm_compute. reflexivity.
Defined.

(** A path with a [;] in it does not survive the saving. *)
Example saved_key_with_semicolon :
  recipients_keys
    (_load_key_settings (<[py "/k/a;b.pub" := File (py "age1")]> Fixture.disk)
       (_save_key_settings [py "/k/a;b.pub"] true (mkSettings None None))
       gui_init)
  = [].
Proof. vm_compute. reflexivity. Qed.

(** ** The window of [yubiage_ui.py] between its events *)

Lemma last_finished_snoc l s t b :
  last_finished (l ++ [SigFinished s t b]) = Some (s, t).
Proof.
  induction l as [|x l IH]; [done|]. cbn [app last_finished]. by rewrite IH.
Qed.

(** A batch the window starts ends in [_on_finished], with the count of
    the worker. *)
Lemma yubiage_start_process_result E g w m :
  files_to_process g <> [] -> keys g <> [] ->
  current_action_mode g = Some m ->
  exists c s,
    _start_process (Yubiage.run E) (g, w)
    = (_on_finished c (length (files_to_process g))
         (mkGUI (keys g) (recipients_keys g) (files_to_process g)
                (current_action_mode g) (_key_pending g) (drop_target g)
                (status_start_process (mode_text m))
                (Some (m, files_to_process g, keys g))),
       worker_world s).
Proof.
  intros Hf Hk Hm. unfold _start_process. rewrite Hm.
  destruct (files_to_process g) as [|f0 fl] eqn:Hfiles; [done|].
  destruct (keys g) as [|k0 kl] eqn:Hkeys; [done|].
  set (files := f0 :: fl). set (ks := k0 :: kl).
  destruct (yubiage_run_spec E m ks files (worker_init w))
    as (_ & _ & Hrun & _).
  cbv zeta in Hrun.
  set (sN := Yubiage.run_items E m ks 0 files
               (Yubiage.run_start files (worker_init w))) in *.
  assert (Hpre : signals (Yubiage.run_start files (worker_init w))
                   `prefix_of` signals sN) by (by apply run_items_grow).
  destruct Hpre as [rest Hrest].
  change (signals (Yubiage.run_start files (worker_init w)))
    with (w_signals w) in Hrest.
  exists (success_count sN), (snd (Yubiage.run E m ks files (worker_init w))).
  rewrite Hrun. cbn [signals set_signals]. rewrite Hrest, <- app_assoc.
  rewrite drop_app_length, last_finished_snoc. done.
Qed.

Lemma window_ok_reset g : window_ok (_reset_state_ui g).
Proof.
  split; [by intros [=]|]. split; [by intros msg [=]|]. split; [done|].
  by intros [=].
Qed.

Lemma window_ok_show_error msg status g :
  window_ok g -> window_ok (show_error msg status g).
Proof.
  intros (H1 & H2 & H3 & H4). split; [exact H1|]. split; [by intros msg' [=]|].
  split; [by intros [=]|]. exact H4.
Qed.

Lemma window_ok_on_finished su to g :
  _key_pending g = false -> decrypts_single g ->
  window_ok (_on_finished su to g).
Proof.
  intros Hp Hd. unfold _on_finished.
  destruct (to =? 0)%nat; [apply window_ok_reset|].
  destruct (su =? to)%nat; [|apply window_ok_reset].
  destruct (match current_action_mode g with
            | Some Encrypt => _ | _ => _ end) as [display key_count].
  split; [cbn; congruence|]. split; [done|]. split; [done|].
  intros Hm. cbn [current_action_mode files_to_process] in *.
  rewrite bool_decide_eq_true_2 by done. by left.
Qed.

Lemma window_ok_start_process E g w :
  _key_pending g = false -> decrypts_single g ->
  window_ok (fst (_start_process (Yubiage.run E) (g, w))).
Proof.
  intros Hp Hd.
  destruct (files_to_process g) as [|f0 fl] eqn:Hf.
  { unfold _start_process. rewrite Hf. apply window_ok_reset. }
  destruct (keys g) as [|k0 kl] eqn:Hk.
  { unfold _start_process. rewrite Hf, Hk. apply window_ok_reset. }
  destruct (current_action_mode g) as [m|] eqn:Hm.
  2:{ unfold _start_process. rewrite Hf, Hk, Hm. apply window_ok_reset. }
  destruct (yubiage_start_process_result E g w m) as (c & s & ->);
    [by rewrite Hf|by rewrite Hk|done|].
  cbn [fst]. apply window_ok_on_finished; [done|].
  intros H. cbn [current_action_mode files_to_process] in *. by apply Hd.
Qed.

Lemma window_ok_on_files_dropped E paths g w g' w' :
  window_ok g ->
  Yubiage._on_files_dropped E paths (g, w) = inr (g', w') ->
  window_ok g'.
Proof.
  intros Hok. unfold Yubiage._on_files_dropped.
  destruct (_key_pending g) eqn:Hp; [by intros [= <- <-]|].
  assert (Hproceed : forall files m,
             files <> [] ->
             (m = Decrypt -> exists p, files = [p] /\ Yubiage.is_age p = true) ->
             window_ok
               (fst (Yubiage.proceed E
                       (mkGUI (keys g) (recipients_keys g) files (Some m)
                              false (drop_target g) (status_label g)
                              (worker g), w)))).
  { intros files m Hne Hdec. unfold Yubiage.proceed.
    cbn [current_action_mode recipients_keys files_to_process].
    destruct m.
    - destruct (recipients_keys g) as [|r0 rl] eqn:Hr.
      + cbn [fst]. split; [by intros _; split|]. split; [done|].
        split; [by intros [=]|]. by intros [=].
      + apply window_ok_start_process; [done|]. by intros [=].
    - cbn [fst]. split; [by intros _; split|]. split; [done|].
      split; [by intros [=]|]. intros _. right. by apply Hdec. }
  destruct (_ || _).
  - destruct paths as [|p0 l]; [done|].
    destruct (_ || _) eqn:H1.
    { intros [= <- <-]. by apply window_ok_show_error. }
    destruct (negb (Yubiage.is_age p0) || _) eqn:H2.
    { intros [= <- <-]. by apply window_ok_show_error. }
    intros Heq.
    apply (f_equal (fun r => match r with inr x => fst x | inl _ => g end))
      in Heq.
    cbn beta iota in Heq. cbn [fst] in Heq. subst g'.
    apply (Hproceed (p0 :: l) Decrypt); [done|]. intros _. exists p0.
    apply orb_false_iff in H1 as [H1 _], H2 as [H2 _].
    apply negb_false_iff in H2. split; [|done].
    destruct l; [done|]. cbn in H1. done.
  - destruct (Yubiage._get_files_recursive (w_fs w) paths) as [|c0 cl] eqn:Hc.
    { intros [= <- <-]. by apply window_ok_show_error. }
    destruct (existsb _ _).
    { intros [= <- <-]. by apply window_ok_show_error. }
    intros Heq.
    apply (f_equal (fun r => match r with inr x => fst x | inl _ => g end))
      in Heq.
    cbn beta iota in Heq. cbn [fst] in Heq. subst g'.
    by apply (Hproceed (c0 :: cl) Encrypt).
Qed.

Lemma window_ok_on_keys_dropped E paths g w :
  window_ok g ->
  window_ok (fst (Yubiage._on_keys_dropped_in_key_mode E paths (g, w))).
Proof.
  intros Hok. unfold Yubiage._on_keys_dropped_in_key_mode.
  destruct (_key_pending g) eqn:Hp; [|done]. cbn [negb].
  destruct (List.filter _ paths) as [|v0 vl].
  { by apply window_ok_show_error. }
  apply window_ok_start_process; [done|].
  destruct Hok as (_ & _ & _ & Hd). exact Hd.
Qed.

Lemma window_ok_ext g g' :
  _key_pending g' = _key_pending g ->
  files_to_process g' = files_to_process g ->
  current_action_mode g' = current_action_mode g ->
  drop_target g' = drop_target g ->
  window_ok g -> window_ok g'.
Proof.
  unfold window_ok, decrypts_single. intros -> -> -> ->. done.
Qed.

Lemma window_ok_clear_keys yes g st :
  window_ok g -> window_ok (fst (_clear_keys_action yes (g, st))).
Proof.
  intros Hok. unfold _clear_keys_action.
  destruct (recipients_keys g); [by apply (window_ok_ext g)|].
  destruct yes; [|exact Hok]. cbn [_key_pending fst].
  destruct (_key_pending g) eqn:Hp.
  - split; [by intros [=]|]. split; [by intros msg [=]|]. split; [done|].
    by intros [=].
  - by apply (window_ok_ext g).
Qed.

Lemma window_ok_load f st g : window_ok g -> window_ok (_load_key_settings f st g).
Proof.
  intros Hok. unfold _load_key_settings. destruct (bool_decide _); [|done].
  destruct (List.filter _ _); [done|]. by apply (window_ok_ext g).
Qed.

Lemma yubiage_drop_never_raises_aux :
  (forall E g w,
      _key_pending g = false ->
      Yubiage._on_files_dropped E [] (g, w)
      = inl (IndexError (py "list index out of range")))
  /\ (forall E mime a, exists r, YubiageWindow.dropEvent E mime a = inr r).
Proof.
  split.
  - intros E g w Hp. unfold Yubiage._on_files_dropped. by rewrite Hp.
  - intros E mime [[g w] st]. unfold YubiageWindow.dropEvent.
    destruct mime as [urls|]; [|by eexists].
    destruct (dropped_paths (w_fs w) urls) as [|p0 l]; [by eexists|].
    set (g1 := match drop_target g with
               | TFinished _ | TError _ => _reset_state_ui g
               | _ => g
               end).
    destruct (drop_target g1); try by eexists.
    + unfold Yubiage._on_files_dropped.
      destruct (_key_pending g1); [by eexists|].
      destruct (_ || _).
      * destruct (_ || _); [by eexists|]. destruct (_ || _); [by eexists|].
        destruct (Yubiage.proceed _ _). by eexists.
      * destruct (Yubiage._get_files_recursive _ _); [by eexists|].
        destruct (existsb _ _); [by eexists|].
        destruct (Yubiage.proceed _ _). by eexists.
    + destruct (Yubiage._on_keys_dropped_in_key_mode _ _ _). by eexists.
Qed.

(** [_on_files_dropped] raises [IndexError] on an empty list of paths, at
    [paths[0]], whenever no key is awaited; [dropEvent] never hands it one
    (a drop without an existing local path is ignored), so no drop raises. *)
Theorem yubiage_drop_never_raises :
  (forall E g w,
      _key_pending g = false ->
      Yubiage._on_files_dropped E [] (g, w)
      = inl (IndexError (py "list index out of range")))
  /\ (forall E mime a, exists r, YubiageWindow.dropEvent E mime a = inr r)
  /\ (forall E urls g w st,
        dropped_paths (w_fs w) urls = [] ->
        YubiageWindow.dropEvent E (Some urls) (g, w, st) = inr (false, (g, w, st))).
Proof.
  split; [apply yubiage_drop_never_raises_aux|].
  split; [apply yubiage_drop_never_raises_aux|].
  intros E urls g w st H. unfold YubiageWindow.dropEvent. by rewrite H.
Qed.

Lemma window_ok_handle E ev g w st a' :
  window_ok g ->
  YubiageWindow.handle E ev (g, w, st) = inr a' ->
  window_ok (fst (fst a')).
Proof.
  intros Hok. destruct ev as [mime|  |yes|f]; cbn [YubiageWindow.handle].
  - unfold YubiageWindow.dropEvent.
    destruct mime as [urls|]; [|by intros [= <-]].
    destruct (dropped_paths (w_fs w) urls) as [|p0 l]; [by intros [= <-]|].
    set (g1 := match drop_target g with
               | TFinished _ | TError _ => _reset_state_ui g
               | _ => g
               end).
    assert (Hg1 : window_ok g1).
    { subst g1. destruct (drop_target g); try done; apply window_ok_reset. }
    destruct (drop_target g1).
    + destruct (Yubiage._on_files_dropped E (p0 :: l) (g1, w))
        as [e|[g2 w2]] eqn:Hd; [done|].
      intros [= <-]. cbn [fst]. by eapply window_ok_on_files_dropped.
    + pose proof (window_ok_on_keys_dropped E (p0 :: l) g1 w Hg1) as H.
      destruct (Yubiage._on_keys_dropped_in_key_mode E (p0 :: l) (g1, w))
        as [g2 w2].
      intros [= <-]. exact H.
    + by intros [= <-].
    + by intros [= <-].
  - intros [= <-]. apply window_ok_reset.
  - pose proof (window_ok_clear_keys yes g st Hok) as H.
    destruct (_clear_keys_action yes (g, st)) as [g' st'].
    intros [= <-]. exact H.
  - by intros [= <-].
Qed.

Lemma window_ok_session E evs :
  forall a0, window_ok (fst (fst a0)) ->
    exists a, YubiageWindow.session E evs a0 = inr a
              /\ window_ok (fst (fst a)).
Proof.
  induction evs as [|ev r IH]; intros a0 Hok; cbn [YubiageWindow.session].
  { by exists a0. }
  destruct a0 as [[g w0] st0]. cbn [fst] in Hok.
  destruct (YubiageWindow.handle E ev (g, w0, st0)) as [e|a'] eqn:Hh.
  - exfalso. destruct ev as [mime| |yes|f]; cbn [YubiageWindow.handle] in Hh;
      try done.
    + destruct (proj2 yubiage_drop_never_raises_aux E mime (g, w0, st0))
        as [[b a1] Hr].
      by rewrite Hr in Hh.
    + by destruct (_clear_keys_action yes (g, st0)).
  - apply IH. by eapply window_ok_handle.
Qed.

Lemma window_ok_start w st : window_ok (fst (fst (YubiageWindow.start w st))).
Proof.
  unfold YubiageWindow.start, gui_start. cbn [fst].
  apply window_ok_load. split; [by intros [=]|]. split; [by intros msg [=]|].
  split; [done|]. by intros [=].
Qed.

(** Whatever is dropped on the window of [yubiage_ui.py], whichever buttons
    are pressed and however the files change in between, no event raises,
    and after every event: a key is awaited only for a batch that has files
    and a mode; the drop target asks for a key exactly while one is awaited
    and takes files only while none is; and a decryption holds at most one
    file, an [.age] file. *)
Theorem yubiage_session_invariant (E : Env) (evs : list Event) (w : World)
        (st : Settings) :
  exists a,
    YubiageWindow.session E evs (YubiageWindow.start w st) = inr a
    /\ window_ok (fst (fst a)).
Proof. apply window_ok_session, window_ok_start. Qed.

Lemma on_finished_worker su to g : worker (_on_finished su to g) = worker g.
Proof.
  unfold _on_finished. destruct (to =? 0)%nat; [done|].
  destruct (su =? to)%nat; [|done].
  by destruct (match current_action_mode g with
               | Some Encrypt => _ | _ => _ end).
Qed.

(** In every state the window of [yubiage_ui.py] can reach, when the drop
    target asks for a key, a drop with at least one existing regular file
    starts the worker: on the files that were waiting, in their mode, with
    exactly the dropped paths that are regular files as keys.  The refusal
    "File/Key missing" cannot occur there. *)
Theorem yubiage_awaited_key_starts_worker (E : Env) (evs : list Event)
        (w : World) (st : Settings) (a : App) (msg : str) (paths : list str) :
  YubiageWindow.session E evs (YubiageWindow.start w st) = inr a ->
  let g := fst (fst a) in
  let w' := snd (fst a) in
  drop_target g = TKey msg ->
  let valid := List.filter (fun p => Fs.exists_ (w_fs w') p
                                     && Fs.isfile (w_fs w') p) paths in
  valid <> [] ->
  exists m,
    current_action_mode g = Some m
    /\ files_to_process g <> []
    /\ worker (fst (Yubiage._on_keys_dropped_in_key_mode E paths (g, w')))
       = Some (m, files_to_process g, valid).
Proof.
  intros Hs g w' Hkey valid Hvalid.
  destruct (window_ok_session E evs _ (window_ok_start w st)) as (a' & Ha & Hok).
  rewrite Hs in Ha. injection Ha as <-. fold g in Hok.
  destruct Hok as (H1 & H2 & _ & _).
  pose proof (H2 msg Hkey) as Hp. destruct (H1 Hp) as [Hf [m Hm]].
  exists m. split; [done|]. split; [done|].
  unfold Yubiage._on_keys_dropped_in_key_mode. rewrite Hp. cbn [negb].
  fold valid. destruct valid as [|v0 vl] eqn:Hv; [done|].
  match goal with
  | |- worker (fst (_start_process _ (?g1, _))) = _ =>
      destruct (yubiage_start_process_result E g1 w' m) as (c & s & ->);
        [done|done|done|]
  end.
  cbn [fst]. by rewrite on_finished_worker.
Qed.

Lemma inr_eta {A} (r : exn + A) (d : A) :
  (match r with inr _ => true | inl _ => false end) = true ->
  r = inr (match r with inr x => x | inl _ => d end).
Proof. by destruct r. Qed.

Lemma yubiage_awaited_key_starts_worker_witness :
  let E := Fixture.env Fixture.age_ok in
  let a0 := YubiageWindow.start (Fixture.world Fixture.disk) (mkSettings None None) in
  let r := YubiageWindow.session E
             [EvDrop (Some [LocalFile (py "/d/a.txt"); NotLocal;
                            LocalFile (py "/d/none")])] a0 in
  let a := match r with inr x => x | inl _ => a0 end in
  exists m,
    current_action_mode (fst (fst a)) = Some m
    /\ files_to_process (fst (fst a)) <> []
    /\ worker (fst (Yubiage._on_keys_dropped_in_key_mode E
                      [Fixture.key; py "/d/dir"] (fst (fst a), snd (fst a))))
       = Some (m, files_to_process (fst (fst a)), [Fixture.key]).
Proof.
  intros E a0 r a.
  assert (Hr : (match r with inr _ => true | inl _ => false end) = true)
    by (vm_compute; reflexivity).
  exact (yubiage_awaited_key_starts_worker E _ (Fixture.world Fixture.disk)
           (mkSettings None None) a
           (py "Recipient key needed! (1 files)")
           [Fixture.key; py "/d/dir"] (inr_eta r a0 Hr)
           ltac:(vm_compute; reflexivity) ltac:(vm_compute; discriminate)).
Defined.

Lemma yubiage_drop_never_raises_witness :
  Yubiage._on_files_dropped (Fixture.env Fixture.age_ok) []
    (gui_init, Fixture.world Fixture.disk)
  = inl (IndexError (py "list index out of range"))
  /\ YubiageWindow.dropEvent (Fixture.env Fixture.age_ok)
       (Some [NotLocal; LocalFile (py "/d/none")])
       (gui_init, Fixture.world Fixture.disk, mkSettings None None)
     = inr (false, (gui_init, Fixture.world Fixture.disk, mkSettings None None)).
Proof.
  destruct yubiage_drop_never_raises as (H1 & _ & H3). split.
  - apply H1. reflexivity.
  - apply H3. vm_compute. reflexivity.
Defined.

(** ** What [_get_files_recursive] collects *)

Lemma join_name (top n : str) :
  top <> [] -> Path.sep ∉ n ->
  Path.join top n
  = (if Str.endswith top [Path.sep] then top else top ++ [Path.sep]) ++ n.
Proof.
  intros Htop Hn. unfold Path.join.
  assert (Hs : Str.startswith n [Path.sep] = false).
  { unfold Str.startswith. apply bool_decide_eq_false. intros [k ->].
    apply Hn. by left. }
  rewrite Hs. destruct top as [|c r]; [done|]. cbn [Str.truthy negb orb].
  destruct (Str.endswith (c :: r) [Path.sep]); [done|].
  by rewrite <- app_assoc.
Qed.

Lemma listdir_exists (f : FS) (top n : str) :
  top <> [] -> In n (listdir f top) -> is_Some (f !! Path.join top n).
Proof.
  intros Htop Hin. pose proof (listdir_names f top n Hin) as Hsep.
  rewrite join_name by done. revert Hin. unfold listdir.
  set (pre := if Str.endswith top [Path.sep] then top else top ++ [Path.sep]).
  intros Hn%list_elem_of_In%list_elem_of_omap. destruct Hn as (k & Hk & Hn).
  destruct (Str.startswith k pre) eqn:Hpre; [|done].
  destruct (_ && _); [|done]. injection Hn as <-.
  unfold Str.startswith in Hpre. apply bool_decide_eq_true in Hpre as [t ->].
  rewrite drop_app_length.
  apply list_elem_of_fmap in Hk as ([k' v] & -> & Hkv).
  apply elem_of_map_to_list in Hkv. by exists v.
Qed.

Lemma join_prefix (top n : str) : Path.sep ∉ n -> top `prefix_of` Path.join top n.
Proof.
  intros Hn. destruct top as [|c r]; [apply prefix_nil|].
  rewrite join_name by done. destruct (Str.endswith _ _).
  - by apply prefix_app_r.
  - rewrite <- app_assoc. by apply prefix_app_r.
Qed.

Lemma join_truthy (top n : str) : top <> [] -> Path.sep ∉ n -> Path.join top n <> [].
Proof.
  intros Htop Hn. rewrite join_name by done.
  destruct (Str.endswith _ _); by destruct top.
Qed.

(** What [os.walk] lists as the files of a directory are paths of regular
    files below the top. *)
Lemma os_walk_regular (f : FS) :
  forall fuel top root dirs files n,
    top <> [] ->
    In (root, dirs, files) (os_walk fuel f top) -> In n files ->
    Fs.isfile f (Path.join root n) = true /\ top `prefix_of` Path.join root n.
Proof.
  induction fuel as [|fuel IH]; intros top root dirs files n Htop; simpl; [done|].
  destruct (Fs.isdir f top); [|done]. intros [Heq|Hin] Hn.
  - injection Heq as <- <- <-. apply filter_In in Hn as [Hn Hnd].
    split; [|apply join_prefix; by eapply listdir_names].
    destruct (listdir_exists f top n Htop Hn) as [v Hv].
    apply negb_true_iff in Hnd. unfold Fs.isdir, Fs.isfile in *.
    rewrite Hv in *. by destruct v.
  - apply in_flat_map in Hin as (d & Hd & Hin).
    apply filter_In in Hd as [Hd _].
    pose proof (listdir_names f top d Hd) as Hsep.
    destruct (IH (Path.join top d) root dirs files n
                 (join_truthy top d Htop Hsep) Hin Hn) as [H1 H2].
    split; [done|]. etrans; [|exact H2]. by apply join_prefix.
Qed.

(** Every path [_get_files_recursive] collects is a regular file at or below
    a dropped path whose base name does not begin with a dot; a dropped
    regular file with such a base name is collected.  No directory is ever
    handed to an encryption of [yubiage_ui.py]. *)
Theorem get_files_recursive_regular (f : FS) (paths : list str) :
  f !! [] = None ->
  (forall p, In p (Yubiage._get_files_recursive f paths) ->
     Fs.isfile f p = true
     /\ exists path, In path paths /\ path `prefix_of` p /\ hidden path = false)
  /\ (forall path, In path paths -> Fs.isfile f path = true ->
        hidden path = false -> In path (Yubiage._get_files_recursive f paths)).
Proof.
  intros Hroot. unfold Yubiage._get_files_recursive. split.
  - intros p (path & Hpath & Hp)%in_flat_map.
    destruct (Str.startswith (Path.basename path) (py ".")) eqn:Hh; [done|].
    destruct (Fs.isfile f path) eqn:Hfile.
    { destruct Hp as [<-|[]]. split; [done|]. by exists path. }
    destruct (Fs.isdir f path) eqn:Hdir; [|done].
    apply in_flat_map in Hp as ([[root dirs] files] & Hw & Hp).
    apply in_map_iff in Hp as (n & <- & Hn). apply filter_In in Hn as [Hn _].
    assert (Htop : path <> []).
    { intros ->. unfold Fs.isdir in Hdir. by rewrite Hroot in Hdir. }
    destruct (os_walk_regular f _ path root dirs files n Htop Hw Hn) as [H1 H2].
    split; [done|]. by exists path.
  - intros path Hin Hfile Hh. apply in_flat_map. exists path. split; [done|].
    unfold hidden in Hh. rewrite Hh, Hfile. by left.
Qed.

Lemma get_files_recursive_regular_witness :
  Fs.isfile Fixture.disk (py "/d/dir/x.txt") = true
  /\ In (py "/d/a.txt")
        (Yubiage._get_files_recursive Fixture.disk [py "/d/dir"; py "/d/a.txt"]).
Proof.
  destruct (get_files_recursive_regular Fixture.disk [py "/d/dir"; py "/d/a.txt"])
    as [H1 H2]; [vm_compute; reflexivity|].
  split.
  - apply H1. vm_compute. by left.
  - apply H2; [right; by left|vm_compute; reflexivity|vm_compute; reflexivity].
Defined.

(** ** The processes [yubiage_ui.py] starts *)

Section YubiageCalls.

Import Yubiage.
Context (E : Env) (mode : Mode) (keys : list str).

Lemma build_command p :
  returns (fun cmd => cmd = yubiage_command E mode keys p)
          (match mode with
           | Encrypt => build_encrypt E keys p
           | Decrypt => build_decrypt E keys p
           end).
Proof.
  destruct mode; unfold build_encrypt, build_decrypt.
  - apply returns_bind. intros _. destruct keys; [apply returns_raise|].
    do 3 (apply returns_bind; intros ?).
    destruct (_ || _); [apply returns_raise|by apply returns_ret].
  - do 2 (apply returns_bind; intros ?). destruct keys; [apply returns_raise|].
    by apply returns_ret.
Qed.

(** A decryption with identities always reaches the tool. *)
Lemma build_decrypt_returns p s :
  keys <> [] ->
  exists cmd s', build_decrypt E keys p s = (inr cmd, s')
                 /\ popen_calls s' = popen_calls s.
Proof.
  intros Hk. unfold build_decrypt. msteps. destruct keys; [done|].
  msteps. by eexists _, _.
Qed.

(** An item starts at most one process, with the command of its path; the
    item of a decryption with identities starts one. *)
Lemma item_body_calls p s :
  (popen_calls (snd (item_body E mode keys p s)) = popen_calls s
   /\ (mode = Decrypt -> keys = []))
  \/ popen_calls (snd (item_body E mode keys p s))
     = popen_calls s ++ [yubiage_command E mode keys p].
Proof.
  unfold item_body. rewrite bind_run.
  set (build := match mode with
                | Encrypt => build_encrypt E keys p
                | Decrypt => build_decrypt E keys p
                end).
  assert (Hb : pres same_popen build)
    by (subst build; destruct mode;
        [apply sp_build_encrypt|apply sp_build_decrypt]).
  pose proof (build_command p s) as Hcmd. fold build in Hcmd.
  assert (Hdec : mode = Decrypt -> keys <> [] ->
                 exists cmd s', build s = (inr cmd, s')).
  { intros -> Hk. destruct (build_decrypt_returns p s Hk) as (c & s' & H & _).
    by exists c, s'. }
  specialize (Hb s). destruct (build s) as [[e|cmd] s1] eqn:Hbuild;
    cbn [snd] in *.
  { left. split; [done|]. intros Hm. destruct keys; [done|].
    destruct (Hdec Hm) as (c & s' & [=]). done. }
  specialize (Hcmd cmd s1 eq_refl). subst cmd. right. rewrite bind_run.
  assert (Hp : popen_calls (snd (popen E (yubiage_command E mode keys p) s1))
               = popen_calls s ++ [yubiage_command E mode keys p]).
  { unfold popen. destruct (age E _ _ _); cbn [snd popen_calls set_popen_calls set_fs];
      by rewrite Hb. }
  destruct (popen E (yubiage_command E mode keys p) s1) as [[e|[rc err]] s2];
    cbn [snd] in *; [done|].
  case_bool_decide; [|done]. rewrite <- Hp.
  assert (Hrest : pres same_popen
                    ((match mode with
                      | Encrypt => mret tt
                      | Decrypt => post_decrypt p
                      end) ≫= fun _ : () =>
                        modify (fun s => set_success_count (success_count s + 1) s))).
  { apply pres_bind; [apply _| |intros ?; by apply pres_modify].
    destruct mode; [apply pres_ret, _|apply sp_post_decrypt]. }
  apply (Hrest s2).
Qed.

Lemma item_step_calls i p s :
  (popen_calls (snd (item_step E mode keys i p s)) = popen_calls s
   /\ (mode = Decrypt -> keys = []))
  \/ popen_calls (snd (item_step E mode keys i p s))
     = popen_calls s ++ [yubiage_command E mode keys p].
Proof.
  assert (Hsame : popen_calls (snd (item_step E mode keys i p s))
                  = popen_calls (snd (item_body E mode keys p (reset_locals s)))).
  { unfold item_step. msteps. unfold try_finally, try_except.
    destruct (item_body E mode keys p (reset_locals s)) as [[e|[]] sb]; cbn [snd].
    - cbn [emit modify]. set (sh := set_signals _ sb).
      pose proof (sp_item_finally mode i sh) as H.
      destruct (item_finally mode i sh) as [[e'|[]] s']; exact H.
    - pose proof (sp_item_finally mode i sb) as H.
      destruct (item_finally mode i sb) as [[e'|[]] s']; exact H. }
  rewrite Hsame. apply (item_body_calls p (reset_locals s)).
Qed.

Lemma run_items_calls files :
  forall i s,
    exists qs, qs `sublist_of` files
      /\ popen_calls (run_items E mode keys i files s)
         = popen_calls s ++ map (yubiage_command E mode keys) qs
      /\ (mode = Decrypt -> keys <> [] -> qs = files).
Proof.
  induction files as [|p r IH]; intros i s; cbn [run_items].
  { exists []. by rewrite app_nil_r. }
  destruct (IH (S i) (snd (item_step E mode keys i p s))) as (qs & Hsub & Hq & Hd).
  destruct (item_step_calls i p s) as [[Hs Hk]|Hs].
  - exists qs. split; [by apply sublist_cons|]. split; [by rewrite Hq, Hs|].
    intros Hm Hne. by destruct (Hne (Hk Hm)).
  - exists (p :: qs). split; [by apply sublist_skip|]. split.
    + rewrite Hq, Hs, <- app_assoc. done.
    + intros Hm Hne. by rewrite Hd.
Qed.

End YubiageCalls.

(** A worker of [yubiage_ui.py] starts the tool at most once for each file,
    in the order of the batch, and always with the command line of that
    file: [age -a -o P.age -R <recipients file> P] for an encryption,
    [age -d -o <staging path> -i K1 ... -i Kn P] for a decryption.  A
    decryption with identities starts it for every file. *)
Theorem yubiage_run_commands (E : Env) (mode : Mode) (keys files : list str)
        (s0 : St) :
  exists qs,
    qs `sublist_of` files
    /\ popen_calls (snd (Yubiage.run E mode keys files s0))
       = popen_calls s0 ++ map (yubiage_command E mode keys) qs
    /\ (mode = Decrypt -> keys <> [] -> qs = files).
Proof.
  destruct (yubiage_run_spec E mode keys files s0) as (_ & _ & Hrun & _).
  cbv zeta in Hrun. rewrite Hrun. cbn [popen_calls set_signals].
  apply (run_items_calls E mode keys files 0 (Yubiage.run_start files s0)).
Qed.

Lemma yubiage_run_commands_witness :
  popen_calls (snd (Yubiage.run (Fixture.env Fixture.age_ok) Decrypt
                      [Fixture.key] [py "/d/m.age"] (init_St Fixture.disk)))
  = [[py "age"; py "-d"; py "-o"; py "/d/m.temp_decrypted_4242";
      py "-i"; py "/k/id.pub"; py "/d/m.age"]].
Proof.
  destruct (yubiage_run_commands (Fixture.env Fixture.age_ok) Decrypt
              [Fixture.key] [py "/d/m.age"] (init_St Fixture.disk))
    as (qs & _ & Hcalls & Hall).
  rewrite Hcalls, (Hall eq_refl ltac:(discriminate)). reflexivity.
Defined.

Lemma calls_ok_refl E w : calls_ok E w w.
Proof. exists []. by rewrite app_nil_r. Qed.

Lemma calls_ok_trans E w1 w2 w3 :
  calls_ok E w1 w2 -> calls_ok E w2 w3 -> calls_ok E w1 w3.
Proof.
  intros (L1 & H1 & F1) (L2 & H2 & F2). exists (L1 ++ L2).
  split; [by rewrite H2, H1, app_assoc|]. by apply Forall_app.
Qed.

Lemma batch_ok_ext g g' :
  files_to_process g' = files_to_process g ->
  current_action_mode g' = current_action_mode g ->
  batch_ok g -> batch_ok g'.
Proof. unfold batch_ok. by intros -> ->. Qed.

Lemma batch_ok_reset g : batch_ok (_reset_state_ui g).
Proof. done. Qed.

Lemma batch_ok_on_finished su to g : batch_ok g -> batch_ok (_on_finished su to g).
Proof.
  intros Hok. unfold _on_finished. destruct (to =? 0)%nat; [done|].
  destruct (su =? to)%nat; [|done].
  destruct (match current_action_mode g with
            | Some Encrypt => _ | _ => _ end) as [display key_count].
  unfold batch_ok in *. cbn [current_action_mode files_to_process].
  destruct (current_action_mode g) as [[]|]; [|by left|done].
  by rewrite bool_decide_eq_false_2.
Qed.

Lemma batch_ok_start_process E g w :
  batch_ok g ->
  batch_ok (fst (_start_process (Yubiage.run E) (g, w)))
  /\ calls_ok E w (snd (_start_process (Yubiage.run E) (g, w))).
Proof.
  intros Hok.
  destruct (files_to_process g) as [|f0 fl] eqn:Hf.
  { unfold _start_process. rewrite Hf. split; [done|apply calls_ok_refl]. }
  destruct (keys g) as [|k0 kl] eqn:Hk.
  { unfold _start_process. rewrite Hf, Hk. split; [done|apply calls_ok_refl]. }
  destruct (current_action_mode g) as [m|] eqn:Hm.
  2:{ unfold _start_process. rewrite Hf, Hk, Hm.
      split; [done|apply calls_ok_refl]. }
  split.
  - destruct (yubiage_start_process_result E g w m) as (c & s & ->);
      [by rewrite Hf|by rewrite Hk|done|].
    cbn [fst]. apply batch_ok_on_finished. by apply (batch_ok_ext g).
  - unfold _start_process. rewrite Hf, Hk, Hm. cbn [snd].
    destruct (yubiage_run_commands E m (k0 :: kl) (f0 :: fl) (worker_init w))
      as (qs & Hsub & Hcalls & _).
    exists (map (yubiage_command E m (k0 :: kl)) qs). split; [exact Hcalls|].
    apply Forall_fmap, Forall_forall. intros q Hq.
    exists m, (k0 :: kl), q. split; [done|]. split; [done|].
    assert (Hin : q ∈ f0 :: fl) by (by eapply elem_of_sublist).
    unfold batch_ok in Hok. rewrite Hm, Hf in Hok. destruct m.
    + by apply (proj1 (Forall_forall _ _) Hok).
    + destruct Hok as [?|(p & [= -> ->] & Hp)]; [done|].
      by apply list_elem_of_singleton in Hin as ->.
Qed.

Lemma batch_ok_on_files_dropped E paths g w g' w' :
  batch_ok g ->
  Yubiage._on_files_dropped E paths (g, w) = inr (g', w') ->
  batch_ok g' /\ calls_ok E w w'.
Proof.
  intros Hok. unfold Yubiage._on_files_dropped.
  destruct (_key_pending g) eqn:Hp.
  { intros [= <- <-]. split; [done|apply calls_ok_refl]. }
  assert (Hproceed : forall files m,
             batch_ok (mkGUI (keys g) (recipients_keys g) files (Some m)
                             false (drop_target g) (status_label g) (worker g)) ->
             forall r,
               r = Yubiage.proceed E
                     (mkGUI (keys g) (recipients_keys g) files (Some m)
                            false (drop_target g) (status_label g)
                            (worker g), w) ->
               batch_ok (fst r) /\ calls_ok E w (snd r)).
  { intros files m Hb r ->. unfold Yubiage.proceed.
    cbn [current_action_mode recipients_keys files_to_process].
    destruct m.
    - destruct (recipients_keys g) as [|r0 rl] eqn:Hr.
      + cbn [fst snd]. split; [exact Hb|apply calls_ok_refl].
      + apply batch_ok_start_process. exact Hb.
    - cbn [fst snd]. split; [exact Hb|apply calls_ok_refl]. }
  destruct (_ || _).
  - destruct paths as [|p0 l]; [done|].
    destruct (_ || _) eqn:H1.
    { intros [= <- <-]. split; [done|apply calls_ok_refl]. }
    destruct (negb (Yubiage.is_age p0) || _) eqn:H2.
    { intros [= <- <-]. split; [done|apply calls_ok_refl]. }
    intros Heq.
    apply (Hproceed (p0 :: l) Decrypt) with (r := (g', w')); [|congruence].
    right. exists p0.
    apply orb_false_iff in H1 as [H1 _], H2 as [H2 _].
    apply negb_false_iff in H2. split; [|done].
    destruct l; [done|]. cbn in H1. done.
  - pose proof (collected_visible (w_fs w) paths) as Hv.
    destruct (Yubiage._get_files_recursive (w_fs w) paths) as [|c0 cl] eqn:Hc.
    { intros [= <- <-]. split; [done|apply calls_ok_refl]. }
    destruct (existsb Yubiage.is_age (c0 :: cl)) eqn:Hage.
    { intros [= <- <-]. split; [done|apply calls_ok_refl]. }
    intros Heq.
    apply (Hproceed (c0 :: cl) Encrypt) with (r := (g', w')); [|congruence].
    unfold batch_ok. cbn [current_action_mode files_to_process].
    apply Forall_forall. intros q Hq. split.
    + destruct (Yubiage.is_age q) eqn:Hqa; [|done].
      assert (existsb Yubiage.is_age (c0 :: cl) = true); [|congruence].
      apply existsb_exists. exists q. split; [by apply list_elem_of_In|done].
    + by apply (proj1 (Forall_forall _ _) Hv).
Qed.

Lemma batch_ok_on_keys_dropped E paths g w :
  batch_ok g ->
  batch_ok (fst (Yubiage._on_keys_dropped_in_key_mode E paths (g, w)))
  /\ calls_ok E w (snd (Yubiage._on_keys_dropped_in_key_mode E paths (g, w))).
Proof.
  intros Hok. unfold Yubiage._on_keys_dropped_in_key_mode.
  destruct (negb (_key_pending g)); [split; [done|apply calls_ok_refl]|].
  destruct (List.filter _ paths) as [|v0 vl].
  { split; [done|apply calls_ok_refl]. }
  apply batch_ok_start_process. by apply (batch_ok_ext g).
Qed.

Lemma batch_ok_handle E ev g w st a' :
  batch_ok g ->
  YubiageWindow.handle E ev (g, w, st) = inr a' ->
  batch_ok (fst (fst a')) /\ (w_popen (snd (fst a')) = w_popen w
                              \/ calls_ok E w (snd (fst a'))).
Proof.
  intros Hok. destruct ev as [mime|  |yes|f]; cbn [YubiageWindow.handle].
  - unfold YubiageWindow.dropEvent.
    destruct mime as [urls|]; [|intros [= <-]; split; [done|by left]].
    destruct (dropped_paths (w_fs w) urls) as [|p0 l];
      [intros [= <-]; split; [done|by left]|].
    set (g1 := match drop_target g with
               | TFinished _ | TError _ => _reset_state_ui g
               | _ => g
               end).
    assert (Hg1 : batch_ok g1).
    { subst g1. destruct (drop_target g); done. }
    destruct (drop_target g1).
    + destruct (Yubiage._on_files_dropped E (p0 :: l) (g1, w))
        as [e|[g2 w2]] eqn:Hd; [done|].
      intros [= <-]. cbn [fst snd].
      destruct (batch_ok_on_files_dropped E _ _ _ _ _ Hg1 Hd). split; [done|by right].
    + pose proof (batch_ok_on_keys_dropped E (p0 :: l) g1 w Hg1) as [H1 H2].
      destruct (Yubiage._on_keys_dropped_in_key_mode E (p0 :: l) (g1, w))
        as [g2 w2].
      intros [= <-]. split; [exact H1|by right].
    + intros [= <-]. split; [done|by left].
    + intros [= <-]. split; [done|by left].
  - intros [= <-]. split; [done|by left].
  - assert (H : batch_ok (fst (_clear_keys_action yes (g, st)))).
    { unfold _clear_keys_action.
      destruct (recipients_keys g); [by apply (batch_ok_ext g)|].
      destruct yes; [|done]. cbn [_key_pending fst].
      destruct (_key_pending g); [done|by apply (batch_ok_ext g)]. }
    destruct (_clear_keys_action yes (g, st)) as [g' st'].
    intros [= <-]. split; [exact H|by left].
  - intros [= <-]. split; [done|by left].
Qed.

Lemma batch_ok_session E evs :
  forall a0 a,
    batch_ok (fst (fst a0)) ->
    YubiageWindow.session E evs a0 = inr a ->
    calls_ok E (snd (fst a0)) (snd (fst a)).
Proof.
  induction evs as [|ev r IH]; intros a0 a Hok; cbn [YubiageWindow.session].
  { intros [= <-]. apply calls_ok_refl. }
  destruct a0 as [[g w0] st0]. cbn [fst snd] in *.
  destruct (YubiageWindow.handle E ev (g, w0, st0)) as [e|a'] eqn:Hh; [done|].
  destruct (batch_ok_handle E ev g w0 st0 a' Hok Hh) as [Hb Hc].
  intros Hs. specialize (IH a' a Hb Hs).
  eapply calls_ok_trans; [|exact IH].
  destruct Hc as [Hsame|Hc]; [|exact Hc].
  exists []. split; [by rewrite app_nil_r|constructor].
Qed.

(** Every process the window of [yubiage_ui.py] starts, under any sequence
    of drops, button clicks and outside changes of the files, is either
    [age -a -o P.age -R <recipients file> P] for a path [P] that is neither
    hidden nor an [.age] file, or [age -d -o <staging path> -i K ... P] for
    an [.age] file [P]; in both cases with at least one key.  The window
    never encrypts an encrypted file again and never decrypts another kind
    of file. *)
Theorem yubiage_session_calls (E : Env) (evs : list Event) (w : World)
        (st : Settings) (a : App) :
  YubiageWindow.session E evs (YubiageWindow.start w st) = inr a ->
  calls_ok E w (snd (fst a)).
Proof.
  intros Hs.
  apply (batch_ok_session E evs (YubiageWindow.start w st) a); [|exact Hs].
  unfold YubiageWindow.start, gui_start. cbn [fst].
  apply (batch_ok_ext gui_init); try done.
  - unfold _load_key_settings. destruct (bool_decide _); [|done].
    by destruct (List.filter _ _).
  - unfold _load_key_settings. destruct (bool_decide _); [|done].
    by destruct (List.filter _ _).
Qed.

Lemma yubiage_session_calls_witness :
  let E := Fixture.env Fixture.age_ok in
  let a0 := YubiageWindow.start (Fixture.world Fixture.disk) (mkSettings None None) in
  let r := YubiageWindow.session E
             [EvDrop (Some [LocalFile (py "/d/dir"); LocalFile (py "/d/.secret")]);
              EvDrop (Some [LocalFile Fixture.key])] a0 in
  calls_ok E (Fixture.world Fixture.disk)
           (snd (fst (match r with inr x => x | inl _ => a0 end))).
Proof.
  intros E a0 r.
  assert (Hr : (match r with inr _ => true | inl _ => false end) = true)
    by (vm_compute; reflexivity).
  exact (yubiage_session_calls E
           [EvDrop (Some [LocalFile (py "/d/dir"); LocalFile (py "/d/.secret")]);
            EvDrop (Some [LocalFile Fixture.key])]
           (Fixture.world Fixture.disk) (mkSettings None None)
           (match r with inr x => x | inl _ => a0 end) (inr_eta r a0 Hr)).
Defined.

(** A session: the dropped file is encrypted with the key dropped after
    it, and the key is saved. *)
Example yubiage_session_example :
  let E := Fixture.env Fixture.age_ok in
  let a0 := YubiageWindow.start (Fixture.world Fixture.disk) (mkSettings None None) in
  let a := match YubiageWindow.session E
                   [EvDrop (Some [LocalFile (py "/d/a.txt");
                                  LocalFile (py "/d/.secret")]);
                    EvDrop (Some [LocalFile Fixture.key])] a0 with
           | inr x => x
           | inl _ => a0
           end in
  (w_popen (snd (fst a)), drop_target (fst (fst a)),
   recipients_keys (fst (fst a)), snd a)
  = ([[py "age"; py "-a"; py "-o"; py "/d/a.txt.age"; py "-R";
       py "/d/.temp_recipients_4242.txt"; py "/d/a.txt"]],
     TFinished (py "Encryption"), [Fixture.key],
     mkSettings (Some (py "true")) (Some (py "/k/id.pub"))).
Proof. vm_compute. reflexivity. Qed.

(** ** Clearing the keys *)

Lemma yubiage_no_recipients_no_process E paths g w g' w' :
  recipients_keys g = [] ->
  Yubiage._on_files_dropped E paths (g, w) = inr (g', w') ->
  w' = w /\ recipients_keys g' = [].
Proof.
  intros Hr. unfold Yubiage._on_files_dropped.
  destruct (_key_pending g); [by intros [= <- <-]|].
  destruct (_ || _).
  - destruct paths as [|p0 l]; [done|].
    destruct (_ || _); [by intros [= <- <-]|].
    destruct (_ || _); [by intros [= <- <-]|].
    unfold Yubiage.proceed. cbn [current_action_mode]. by intros [= <- <-].
  - destruct (Yubiage._get_files_recursive _ _); [by intros [= <- <-]|].
    destruct (existsb _ _); [by intros [= <- <-]|].
    unfold Yubiage.proceed. cbn [current_action_mode recipients_keys].
    rewrite Hr. by intros [= <- <-].
Qed.

Lemma ageyub_no_recipients_no_process E paths g w :
  recipients_keys g = [] ->
  snd (Ageyub._on_files_dropped E paths (g, w)) = w
  /\ recipients_keys (fst (Ageyub._on_files_dropped E paths (g, w))) = [].
Proof.
  intros Hr. unfold Ageyub._on_files_dropped.
  destruct (_key_pending g); [done|].
  destruct (_ || _); [done|].
  destruct (existsb Ageyub.is_age paths); [done|]. by rewrite Hr.
Qed.

(** Clear Keys, answered with Yes while there are recipients: the window
    has no recipients and no working keys afterwards, the saved settings
    restore none at the next start, and the next drop of files starts no
    process in either program (an encryption asks for a key first).
    Answered with No, or pressed without recipients, it changes neither
    the recipients nor the settings. *)
Theorem clear_keys_forgets (g : GUI) (st : Settings) :
  recipients_keys g <> [] ->
  let g' := fst (_clear_keys_action true (g, st)) in
  let st' := snd (_clear_keys_action true (g, st)) in
  recipients_keys g' = [] /\ keys g' = []
  /\ (forall f g0, _load_key_settings f st' g0 = g0)
  /\ (forall E paths w g2 w2,
        Yubiage._on_files_dropped E paths (g', w) = inr (g2, w2) -> w2 = w)
  /\ (forall E paths w, snd (Ageyub._on_files_dropped E paths (g', w)) = w)
  /\ _clear_keys_action false (g, st) = (g, st).
Proof.
  intros Hne g' st'. unfold g', st', _clear_keys_action.
  destruct (recipients_keys g) as [|r0 rl] eqn:Hr; [done|].
  cbn [_key_pending fst snd].
  destruct (_key_pending g).
  all: split; [done|]; split; [done|]; split; [done|]; split;
    [|split; [|done]].
  all: try (intros E paths w g2 w2 H;
            eapply proj1, yubiage_no_recipients_no_process; [|exact H];
            reflexivity).
  all: intros E paths w;
    eapply proj1, ageyub_no_recipients_no_process; reflexivity.
Qed.

Lemma clear_keys_forgets_witness :
  recipients_keys (fst (_clear_keys_action true
                          (Fixture.gui_keys, mkSettings (Some (py "true"))
                                                        (Some (py "/k/id.pub")))))
  = []
  /\ snd (Ageyub._on_files_dropped (Fixture.env Fixture.age_ok) [py "/d/a.txt"]
            (fst (_clear_keys_action true
                    (Fixture.gui_keys, mkSettings (Some (py "true"))
                                                  (Some (py "/k/id.pub")))),
             Fixture.world Fixture.disk))
     = Fixture.world Fixture.disk.
Proof.
  pose proof (clear_keys_forgets Fixture.gui_keys
                (mkSettings (Some (py "true")) (Some (py "/k/id.pub")))
                ltac:(discriminate)) as (H1 & _ & _ & _ & H5 & _).
  split; [exact H1|apply H5].
Defined.
